(** * OpenAI MCP server: request dispatch, response normalisation, error taxonomy

    A shallow embedding of the TypeScript sources of the server
    (openai-client.ts, config.ts and the tools/call handler of index.ts)
    together with the properties of the design document that can be
    stated about them.

    Conventions of the embedding.
    - JavaScript strings are [string]s of 8-bit characters, the code
      units below 256; case mapping is the ASCII one.
    - A JavaScript [number] is [Js.NaN] or an integer [Js.Num z]; the
      integers that occur (time-outs, indices, HTTP statuses) are far
      below 2^53, and [Js.parseInt] rounds what it reads to the nearest
      double.  Infinities, which [parseInt] gives from 2^1024 on, are not
      represented.
    - An optional property ([undefined] when absent) is an [option].
    - [Promise.race] of an upstream call against the timer is resolved by
      an oracle of type [Settle]: the call fulfils first, the call rejects
      first, or the timer fires first.
    - Effects (upstream requests with the deadline they are raced against,
      directories created, files written) are recorded, in program order,
      in a trace that is threaded through the computation together with
      exceptions.  The file system an operation sees is the one the
      invocation started with, changed by the effects of the trace. *)

From Stdlib Require Import ZArith Ascii String.
From stdpp Require Import base option list strings gmap pretty.

Set Warnings "-clear-no-such-hyp".

Local Open Scope Z_scope.

(** ** JavaScript primitives *)

Module Js.

(** The line feed written [\n] in the sources. *)
Definition LF : string := String "010"%char "".

(** [a || b] on an optional string: the left operand when truthy
    (present and non-empty), otherwise the right one. *)
Definition orElse (o : option string) (d : string) : string :=
  match o with
  | Some s => if decide (s = "") then d else s
  | None => d
  end.

(** Truthiness of an optional string. *)
Definition truthy (o : option string) : bool :=
  match o with
  | Some s => if decide (s = "") then false else true
  | None => false
  end.

(** [String.prototype.includes]. *)
Fixpoint includes (s needle : string) : bool :=
  String.prefix needle s ||
  match s with
  | "" => false
  | String _ t => includes t needle
  end.

(** [o?.includes(needle)] used as a condition: [undefined] is falsy. *)
Definition optIncludes (o : option string) (needle : string) : bool :=
  match o with
  | Some s => includes s needle
  | None => false
  end.

(** An optional string spliced into a template literal. *)
Definition interpolate (o : option string) : string :=
  from_option id "undefined" o.

Definition lowerChar (c : ascii) : ascii :=
  let n := nat_of_ascii c in
  if (65 <=? n)%nat && (n <=? 90)%nat then ascii_of_nat (n + 32) else c.

(** [String.prototype.toLowerCase] (ASCII). *)
Fixpoint toLowerCase (s : string) : string :=
  match s with
  | "" => ""
  | String c t => String (lowerChar c) (toLowerCase t)
  end.

Definition strlen (s : string) : Z := Z.of_nat (String.length s).

(** The index a relative argument of [slice] denotes in a string of
    length [len]: negative arguments count from the end, and everything
    is clamped to [0 .. len].  An argument of [0] (also [-0]) is [0]. *)
Definition sliceIndex (len i : Z) : Z :=
  if i <? 0 then Z.max (len + i) 0 else Z.min i len.

(** [s.slice(b, e)]. *)
Definition slice (s : string) (b e : Z) : string :=
  let from := sliceIndex (strlen s) b in
  let to := sliceIndex (strlen s) e in
  String.substring (Z.to_nat from) (Z.to_nat (to - from)) s.

(** [s.slice(b)]. *)
Definition sliceFrom (s : string) (b : Z) : string :=
  slice s b (strlen s).

(** [s.replace(/[:.]/g, '-')]. *)
Fixpoint replaceColonDot (s : string) : string :=
  match s with
  | "" => ""
  | String c t =>
      String (if decide (c = ":"%char) then "-"%char
              else if decide (c = "."%char) then "-"%char else c)
             (replaceColonDot t)
  end.

(** [Array.prototype.join]. *)
Fixpoint join (sep : string) (l : list string) : string :=
  match l with
  | [] => ""
  | [x] => x
  | x :: r => x +:+ sep +:+ join sep r
  end.

(** Numbers. *)
Inductive number := NaN | Num (z : Z).

Global Instance number_eq_dec : EqDecision number.
Proof. solve_decision. Defined.

(** [a * b]. *)
Definition mul (a b : number) : number :=
  match a, b with
  | Num x, Num y => Num (x * y)
  | _, _ => NaN
  end.

(** [a <= b]: every comparison with [NaN] is false. *)
Definition le (a b : number) : bool :=
  match a, b with
  | Num x, Num y => x <=? y
  | _, _ => false
  end.

(** The white space and line terminators of the language among the code
    units below 256: TAB, LF, VT, FF, CR, SP and NBSP. *)
Definition isWhiteSpace (c : ascii) : bool :=
  let n := nat_of_ascii c in
  ((9 <=? n)%nat && (n <=? 13)%nat) || (n =? 32)%nat || (n =? 160)%nat.

Fixpoint skipSpaces (s : string) : string :=
  match s with
  | String c t => if isWhiteSpace c then skipSpaces t else s
  | "" => ""
  end.

(** The double nearest to a natural number below 2^1024: 53 significant
    bits are kept, ties go to the even significand. *)
Definition roundToDouble (m : Z) : Z :=
  if m <? 2 ^ 53 then m
  else
    let shift := Z.log2 m - 52 in
    let q := Z.shiftr m shift in
    let r := m - Z.shiftl q shift in
    let half := Z.shiftl 1 (shift - 1) in
    let q' := if (half <? r) || ((r =? half) && Z.odd q) then q + 1 else q in
    Z.shiftl q' shift.

(** The longest prefix of decimal digits, read as a number;
    [None] when the string does not start with a digit. *)
Fixpoint digits (acc : option Z) (s : string) : option Z :=
  match s with
  | String c t =>
      match Ascii.is_nat c with
      | Some d => digits (Some (10 * from_option id 0 acc + Z.of_nat d)) t
      | None => acc
      end
  | "" => acc
  end.

(** [parseInt(s, 10)]: leading white space is skipped, an optional sign
    is read, then the longest run of decimal digits; what follows is
    ignored, and without a digit the result is [NaN].  The number read is
    the double nearest to the integer the digits denote. *)
Definition parseInt (s : string) : number :=
  match skipSpaces s with
  | String "-" t => from_option (fun z => Num (- roundToDouble z)) NaN (digits None t)
  | String "+" t => from_option (fun z => Num (roundToDouble z)) NaN (digits None t)
  | t => from_option (fun z => Num (roundToDouble z)) NaN (digits None t)
  end.

End Js.

(** ** Failures and the error classifier (openai-client.ts) *)

(** A value caught by a [catch (error: any)] clause, seen through the
    properties the classifier reads: [error.message], [error.status],
    [error.code], and the text [String(error)] that the value itself
    produces inside a template literal. *)
Record Thrown := {
  message : option string;
  status : option Z;
  code : option string;
  repr : string
}.

(** [new Error(msg)]. *)
Definition newError (msg : string) : Thrown :=
  {| message := Some msg; status := None; code := None;
     repr := if decide (msg = "") then "Error" else "Error: " +:+ msg |}.

Definition TIMEOUT_SENTINEL : string := "Request timeout".

Definition statusIs (e : Thrown) (n : Z) : bool :=
  bool_decide (status e = Some n).

Definition codeIs (e : Thrown) (c : string) : bool :=
  bool_decide (code e = Some c).

(** [OpenAIClient.handleError]. *)
Definition handleError (error : Thrown) : Thrown :=
  if bool_decide (message error = Some TIMEOUT_SENTINEL) then
    newError "OpenAI API request timed out. Please try again."
  else if statusIs error 401 || statusIs error 403 then
    newError "Invalid OpenAI API key. Please check your OPENAI_API_KEY environment variable."
  else if statusIs error 429 then
    newError "OpenAI API rate limit exceeded. Please wait a moment and try again."
  else if statusIs error 400 && Js.optIncludes (message error) "safety" then
    newError "Content blocked by OpenAI's safety filters. Try rephrasing your request."
  else if codeIs error "ENOTFOUND" || codeIs error "ECONNREFUSED"
          || Js.optIncludes (message error) "fetch" then
    newError ("Failed to connect to OpenAI API: " +:+ Js.interpolate (message error))
  else
    newError ("OpenAI API error: " +:+ Js.orElse (message error) (repr error)).

(** The error taxonomy of the design document.  The two categories whose
    template embeds text of the failure carry that text. *)
Inductive ErrorCategory :=
| Timeout
| AuthInvalid
| RateLimited
| ContentPolicyBlocked
| NetworkUnreachable (detail : string)
| Unknown (raw : string).

(** The fixed, human-readable template of each category. *)
Definition categoryMessage (c : ErrorCategory) : string :=
  match c with
  | Timeout => "OpenAI API request timed out. Please try again."
  | AuthInvalid =>
      "Invalid OpenAI API key. Please check your OPENAI_API_KEY environment variable."
  | RateLimited =>
      "OpenAI API rate limit exceeded. Please wait a moment and try again."
  | ContentPolicyBlocked =>
      "Content blocked by OpenAI's safety filters. Try rephrasing your request."
  | NetworkUnreachable d => "Failed to connect to OpenAI API: " +:+ d
  | Unknown r => "OpenAI API error: " +:+ r
  end.

(** The conditions the design document names, one per rule. *)
Definition isTimeoutSentinel (e : Thrown) : Prop :=
  message e = Some TIMEOUT_SENTINEL.
Definition isAuthStatus (e : Thrown) : Prop :=
  status e = Some 401 ∨ status e = Some 403.
Definition isRateStatus (e : Thrown) : Prop :=
  status e = Some 429.
Definition isSafetyRejection (e : Thrown) : Prop :=
  status e = Some 400 ∧ Js.optIncludes (message e) "safety" = true.
Definition isNetworkFailure (e : Thrown) : Prop :=
  code e = Some "ENOTFOUND" ∨ code e = Some "ECONNREFUSED"
  ∨ Js.optIncludes (message e) "fetch" = true.

(** First-match classification, in the words of the design document:
    a rule applies only when no earlier rule does. *)
Inductive Classified (e : Thrown) : ErrorCategory → Prop :=
| classified_timeout :
    isTimeoutSentinel e → Classified e Timeout
| classified_auth :
    ¬ isTimeoutSentinel e → isAuthStatus e → Classified e AuthInvalid
| classified_rate :
    ¬ isTimeoutSentinel e → ¬ isAuthStatus e → isRateStatus e →
    Classified e RateLimited
| classified_policy :
    ¬ isTimeoutSentinel e → ¬ isAuthStatus e → ¬ isRateStatus e →
    isSafetyRejection e → Classified e ContentPolicyBlocked
| classified_network :
    ¬ isTimeoutSentinel e → ¬ isAuthStatus e → ¬ isRateStatus e →
    ¬ isSafetyRejection e → isNetworkFailure e →
    Classified e (NetworkUnreachable (Js.interpolate (message e)))
| classified_unknown :
    ¬ isTimeoutSentinel e → ¬ isAuthStatus e → ¬ isRateStatus e →
    ¬ isSafetyRejection e → ¬ isNetworkFailure e →
    Classified e (Unknown (Js.orElse (message e) (repr e))).

(** ** Node's [path] module, POSIX flavour

    The sources call [path.extname], [path.basename] and [path.resolve]
    of the Node.js standard library; the three functions are written here
    after the library's reference implementation ([lib/path.js]), whose
    scanning loops run over the characters from the last to the first. *)

Module Path.

Definition SLASH : ascii := "/"%char.
Definition DOT : ascii := "."%char.

Definition chars (s : string) : list ascii := list_ascii_of_string s.

(** The variables of the loop of [extname]. *)
Record ExtScan := {
  startDot : Z;
  startPart : Z;
  endIdx : Z;
  matchedSlash : bool;
  preDotState : Z
}.

(** One run of the loop of [extname] over the characters in reverse
    order, [i] being the index of the first of them; the [break] of the
    source ends the recursion. *)
Fixpoint extnameLoop (rev_chars : list ascii) (i : Z) (st : ExtScan) : ExtScan :=
  match rev_chars with
  | [] => st
  | c :: rest =>
      if decide (c = SLASH) then
        if negb (matchedSlash st) then
          {| startDot := startDot st; startPart := i + 1; endIdx := endIdx st;
             matchedSlash := matchedSlash st; preDotState := preDotState st |}
        else extnameLoop rest (i - 1) st
      else
        let st1 :=
          if decide (endIdx st = -1) then
            {| startDot := startDot st; startPart := startPart st; endIdx := i + 1;
               matchedSlash := false; preDotState := preDotState st |}
          else st in
        let st2 :=
          if decide (c = DOT) then
            if decide (startDot st1 = -1) then
              {| startDot := i; startPart := startPart st1; endIdx := endIdx st1;
                 matchedSlash := matchedSlash st1; preDotState := preDotState st1 |}
            else if decide (preDotState st1 = 1) then st1
            else
              {| startDot := startDot st1; startPart := startPart st1;
                 endIdx := endIdx st1; matchedSlash := matchedSlash st1;
                 preDotState := 1 |}
          else if decide (startDot st1 = -1) then st1
          else
            {| startDot := startDot st1; startPart := startPart st1;
               endIdx := endIdx st1; matchedSlash := matchedSlash st1;
               preDotState := -1 |} in
        extnameLoop rest (i - 1) st2
  end.

(** [path.extname]. *)
Definition extname (path : string) : string :=
  let st := extnameLoop (reverse (chars path)) (Js.strlen path - 1)
              {| startDot := -1; startPart := 0; endIdx := -1;
                 matchedSlash := true; preDotState := 0 |} in
  if bool_decide (startDot st = -1) || bool_decide (endIdx st = -1)
     || bool_decide (preDotState st = 0)
     || (bool_decide (preDotState st = 1)
         && bool_decide (startDot st = endIdx st - 1)
         && bool_decide (startDot st = startPart st + 1))
  then ""
  else Js.slice path (startDot st) (endIdx st).

(** The loop of [basename]: the state is [(start, end, matchedSlash)]. *)
Fixpoint basenameLoop (rev_chars : list ascii) (i : Z) (st : Z * Z * bool)
  : Z * Z * bool :=
  match rev_chars with
  | [] => st
  | c :: rest =>
      let '(start, e, matched) := st in
      if decide (c = SLASH) then
        if negb matched then (i + 1, e, matched)
        else basenameLoop rest (i - 1) st
      else if decide (e = -1) then basenameLoop rest (i - 1) (start, i + 1, false)
      else basenameLoop rest (i - 1) st
  end.

(** [path.basename] (one argument). *)
Definition basename (path : string) : string :=
  let '(start, e, _) :=
    basenameLoop (reverse (chars path)) (Js.strlen path - 1) (0, -1, true) in
  if decide (e = -1) then "" else Js.slice path start e.

(** The loop of [dirname], which stops before the first character:
    the state is [(end, matchedSlash)]. *)
Fixpoint dirnameLoop (rev_chars : list ascii) (i : Z) (st : Z * bool) : Z * bool :=
  match rev_chars with
  | [] => st
  | c :: rest =>
      let '(e, matched) := st in
      if decide (c = SLASH) then
        if negb matched then (i, matched)
        else dirnameLoop rest (i - 1) st
      else dirnameLoop rest (i - 1) (e, false)
  end.

(** [path.dirname]. *)
Definition dirname (path : string) : string :=
  if decide (path = "") then "."
  else
    let hasRoot := bool_decide (head (chars path) = Some SLASH) in
    let '(e, _) :=
      dirnameLoop (reverse (tail (chars path))) (Js.strlen path - 1) (-1, true) in
    if decide (e = -1) then (if hasRoot then "/" else ".")
    else if hasRoot && bool_decide (e = 1) then "//"
    else Js.slice path 0 e.

(** The segments of a path between its separators. *)
Fixpoint segments (cur : string) (s : string) : list string :=
  match s with
  | "" => [String.rev cur]
  | String c t =>
      if decide (c = SLASH) then String.rev cur :: segments "" t
      else segments (String c cur) t
  end.

(** [normalizeString] for an absolute path: empty and [.] segments are
    dropped and [..] removes the segment before it, if there is one.
    The accumulator holds the kept segments, last first. *)
Fixpoint normalizeSegments (acc : list string) (segs : list string) : list string :=
  match segs with
  | [] => reverse acc
  | s :: rest =>
      if decide (s = "") then normalizeSegments acc rest
      else if decide (s = ".") then normalizeSegments acc rest
      else if decide (s = "..") then normalizeSegments (tail acc) rest
      else normalizeSegments (s :: acc) rest
  end.

Definition isAbsolute (p : string) : bool :=
  match p with
  | String c _ => bool_decide (c = SLASH)
  | "" => false
  end.

(** The loop of [resolve]: arguments are taken from the last to the
    first, then the working directory, until the path is absolute;
    empty arguments are skipped. *)
Fixpoint resolveLoop (rev_args : list string) (resolved : string) : string :=
  match rev_args with
  | [] => resolved
  | p :: rest =>
      if decide (p = "") then resolveLoop rest resolved
      else if isAbsolute p then p +:+ "/" +:+ resolved
      else resolveLoop rest (p +:+ "/" +:+ resolved)
  end.

(** [path.resolve(...args)] in a process whose working directory is the
    absolute path [cwd]. *)
Definition resolve (cwd : string) (args : list string) : string :=
  "/" +:+ Js.join "/"
    (normalizeSegments [] (segments "" (resolveLoop (reverse args ++ [cwd]) ""))).

End Path.

(** ** Configuration (config.ts) *)

Record Config := {
  apiKey : string;
  defaultModel : string;
  timeout : Js.number;
  outputDir : string
}.

(** The environment variables [loadConfig] reads from [process.env]. *)
Record ProcessEnv := {
  OPENAI_API_KEY : option string;
  OPENAI_DEFAULT_MODEL : option string;
  OPENAI_OUTPUT_DIR : option string;
  OPENAI_TIMEOUT : option string
}.

(** How a synchronous computation ends, and how an awaited one does:
    with a value, with an exception, or never. *)
Inductive Completion (A : Type) :=
| Returned (a : A)
| Threw (e : Thrown)
| Hung.
Arguments Returned {A} a.
Arguments Threw {A} e.
Arguments Hung {A}.

(** [loadConfig]: [inl] is the exception it throws, [inr] the
    configuration it returns. *)
Definition loadConfig (env : ProcessEnv) : Thrown + Config :=
  if negb (Js.truthy (OPENAI_API_KEY env)) then
    inl (newError
      "OpenAI API key not configured. Please set the OPENAI_API_KEY environment variable.")
  else
    let defaultModel := Js.orElse (OPENAI_DEFAULT_MODEL env) "gpt-4.1" in
    let outputDir := Js.orElse (OPENAI_OUTPUT_DIR env) "./generated-media" in
    let timeoutStr := OPENAI_TIMEOUT env in
    let timeout :=
      if Js.truthy timeoutStr then Js.parseInt (Js.interpolate timeoutStr)
      else Js.Num 60000 in
    if Js.le timeout (Js.Num 0) then
      inl (newError "OPENAI_TIMEOUT must be a positive number")
    else
      inr {| apiKey := Js.interpolate (OPENAI_API_KEY env);
             defaultModel := defaultModel;
             timeout := timeout;
             outputDir := outputDir |}.

(** What a number must be for the base time-out to be usable. *)
Definition positiveInteger (n : Js.number) : Prop :=
  match n with
  | Js.Num z => 0 < z
  | Js.NaN => False
  end.

(** ** Upstream payloads (openai-client.ts reads them as [any]) *)

Record Annotation := {
  ann_type : string;
  ann_title : option string;
  ann_url : option string
}.

Record OutputPart := {
  part_type : string;
  part_text : string;
  part_annotations : option (list Annotation)
}.

Record SummaryPart := {
  summary_type : string;
  summary_text : string
}.

Record ToolResult := {
  result_type : string;
  result_logs : string
}.

(** One item of [response.output]; [item_type] is its kind tag and the
    other properties are present or not according to the kind. *)
Record OutputItem := {
  item_type : string;
  item_content : option (list OutputPart);
  item_summary : option (list SummaryPart);
  item_code : option string;
  item_results : option (list ToolResult)
}.

Record Response := {
  output : option (list OutputItem)
}.

Record FileObject := {
  file_id : string
}.

Record ImageDatum := {
  b64_json : option string;
  revised_prompt : option string
}.

Record ImagesResponse := {
  data : option (list ImageDatum)
}.

Record Transcription := {
  transcription_text : string
}.

(** ** Normalised results *)

Record Citation := {
  title : string;
  url : string
}.

Record SearchWebResponse := {
  search_text : string;
  citations : list Citation
}.

Record ReasoningResponse := {
  reasoning_text : string;
  reasoning : string
}.

Record CodeExecutionResponse := {
  exec_text : string;
  exec_code : string;
  exec_output : string
}.

Record FileUploadResponse := {
  upload_text : string;
  fileName : string;
  fileId : string
}.

Record Image := {
  b64 : string;
  revisedPrompt : option string
}.

Record ImageGenerationResponse := {
  images : list Image
}.

(** ** Response extractors *)

(** The texts one output item contributes: those of the [output_text]
    parts of a [message] item that has a content. *)
Definition itemTexts (item : OutputItem) : list string :=
  if bool_decide (item_type item = "message") then
    match item_content item with
    | Some parts =>
        parts ≫= (λ part,
          if bool_decide (part_type part = "output_text") then [part_text part] else [])
    | None => []
    end
  else [].

(** [OpenAIClient.extractText]. *)
Definition extractText (response : Response) : string :=
  match output response with
  | Some items =>
      let textParts := items ≫= itemTexts in
      if (0 <? length textParts)%nat then Js.join "" textParts else ""
  | None => ""
  end.

(** The citation pushed for a [url_citation] annotation. *)
Definition citationOf (ann : Annotation) : Citation :=
  {| title := Js.orElse (ann_title ann) "Untitled";
     url := Js.orElse (ann_url ann) "" |}.

(** The annotations for which the first loop of [extractSearchResponse]
    pushes a citation, in the order in which it meets them: the
    [url_citation] annotations of the annotated [output_text] parts of the
    [message] items. *)
Definition partAnnotations (part : OutputPart) : list Annotation :=
  if bool_decide (part_type part = "output_text") then
    match part_annotations part with
    | Some anns => filter (λ ann, ann_type ann = "url_citation") anns
    | None => []
    end
  else [].

Definition itemAnnotations (item : OutputItem) : list Annotation :=
  if bool_decide (item_type item = "message") then
    match item_content item with
    | Some parts => parts ≫= partAnnotations
    | None => []
    end
  else [].

Definition citedAnnotations (response : Response) : list Annotation :=
  match output response with
  | Some items => items ≫= itemAnnotations
  | None => []
  end.

(** The array [citations] when the first loop is over. *)
Definition harvestCitations (response : Response) : list Citation :=
  citationOf <$> citedAnnotations response.

(** [citations.filter(c => { if (seen.has(c.url)) return false;
    seen.add(c.url); return true; })]: the set [seen] that the callback
    mutates is threaded through the traversal. *)
Fixpoint filterUnseen (seen : gset string) (cs : list Citation) : list Citation :=
  match cs with
  | [] => []
  | c :: rest =>
      if decide (url c ∈ seen) then filterUnseen seen rest
      else c :: filterUnseen ({[url c]} ∪ seen) rest
  end.

(** [OpenAIClient.extractSearchResponse]. *)
Definition extractSearchResponse (response : Response) : SearchWebResponse :=
  let text := extractText response in
  let citations := harvestCitations response in
  let uniqueCitations := filterUnseen ∅ citations in
  {| search_text := text; citations := uniqueCitations |}.

(** The inner loop that the extractors below share in writing, not in
    code: [for (const part of item.content)] with [text += part.text] on
    the [output_text] parts. *)
Definition appendOutputTexts (text : string) (item : OutputItem) : string :=
  if bool_decide (item_type item = "message") then
    match item_content item with
    | Some parts =>
        foldl (λ text part,
                 if bool_decide (part_type part = "output_text")
                 then text +:+ part_text part else text)
              text parts
    | None => text
    end
  else text.

(** One turn of the loop of [extractReasoningResponse] over
    [response.output]; the variables are [(reasoning, text)]. *)
Definition reasoningStep (vars : string * string) (item : OutputItem)
  : string * string :=
  let '(reasoning, text) := vars in
  let reasoning :=
    if bool_decide (item_type item = "reasoning") then
      match item_summary item with
      | Some parts =>
          foldl (λ reasoning s,
                   if bool_decide (summary_type s = "summary_text")
                   then reasoning +:+ summary_text s else reasoning)
                reasoning parts
      | None => reasoning
      end
    else reasoning in
  (reasoning, appendOutputTexts text item).

(** [OpenAIClient.extractReasoningResponse]: both strings grow by [+=]
    while the items are walked. *)
Definition extractReasoningResponse (response : Response) : ReasoningResponse :=
  let '(reasoning, text) :=
    match output response with
    | Some items => foldl reasoningStep ("", "") items
    | None => ("", "")
    end in
  {| reasoning_text := text; reasoning := reasoning |}.

(** [acc += (acc ? '\n' : '') + s]. *)
Definition appendLine (acc s : string) : string :=
  acc +:+ (if decide (acc = "") then "" else Js.LF) +:+ s.

(** One turn of the loop of [extractCodeExecutionResponse] over
    [response.output]; the variables are [(text, code, output)]. *)
Definition codeExecutionStep (vars : string * string * string) (item : OutputItem)
  : string * string * string :=
  let '(text, code, output) := vars in
  let '(code, output) :=
    if bool_decide (item_type item = "code_interpreter_call") then
      (if Js.truthy (item_code item)
       then appendLine code (Js.interpolate (item_code item)) else code,
       match item_results item with
       | Some results =>
           foldl (λ output result,
                    if bool_decide (result_type result = "logs")
                    then appendLine output (result_logs result) else output)
                 output results
       | None => output
       end)
    else (code, output) in
  (appendOutputTexts text item, code, output).

(** [OpenAIClient.extractCodeExecutionResponse]. *)
Definition extractCodeExecutionResponse (response : Response) : CodeExecutionResponse :=
  let '(text, code, output) :=
    match output response with
    | Some items => foldl codeExecutionStep ("", "", "") items
    | None => ("", "", "")
    end in
  {| exec_text := text; exec_code := code; exec_output := output |}.

(** [OpenAIClient.extractUrlFetchResponse]. *)
Definition extractUrlFetchResponse (response : Response) : SearchWebResponse :=
  let searchResp := extractSearchResponse response in
  {| search_text := search_text searchResp; citations := citations searchResp |}.

(** ** Upstream requests and the effect trace *)

Inductive InputPart :=
| input_file (id : string)
| input_text (text : string)
| input_image (image_url detail : string).

Inductive InputContent :=
| Plain (text : string)
| Parts (parts : list InputPart).

Record InputMessage := {
  role : string;
  content : InputContent
}.

Inductive ToolSpec :=
| web_search_preview
| code_interpreter_auto.

(** [new File([buffer], name, { type })]. *)
Record JsFile := {
  file_bytes : string;
  file_name : string;
  file_type : string
}.

(** The calls on the provider's SDK, with the parameters the sources pass.
    [speed], a fraction that the schema of the tool bounds to 0.25 .. 4,
    is carried as its decimal text. *)
Inductive Request :=
| responses_create (model : string) (input : list InputMessage)
    (tools : list ToolSpec) (effort : option string)
| files_create (path : string) (purpose : string)
| images_generate (model prompt size quality : string) (n : Z) (output_format : string)
| images_edit (model prompt : string) (image : JsFile) (mask : option JsFile)
    (size quality output_format : string)
| audio_speech_create (model voice input : string) (speed : string)
    (response_format : string)
| audio_transcriptions_create (model path : string) (language prompt : option string).

(** A buffer handed to [fs.writeFileSync]. *)
Inductive Buffer :=
| fromBase64 (payload : string)
| fromBytes (bytes : string).

Inductive Effect :=
| Upstream (req : Request) (deadline : option Js.number)
| MakeDir (path : string)
| WriteFile (path : string) (contents : Buffer).

(** Who settles first in [Promise.race([call, this.timeoutPromise(ms)])]. *)
Inductive Settle (A : Type) :=
| Fulfilled (a : A)
| Rejected (e : Thrown)
| TimerFirst.
Arguments Fulfilled {A} a.
Arguments Rejected {A} e.
Arguments TimerFirst {A}.

(** A computation with effects: the trace so far goes in, the completion
    and the extended trace come out. *)
Definition Task (A : Type) : Type := list Effect → Completion A * list Effect.

Definition ret {A} (a : A) : Task A := λ tr, (Returned a, tr).

Definition throw {A} (e : Thrown) : Task A := λ tr, (Threw e, tr).

Definition bind {A B} (m : Task A) (k : A → Task B) : Task B :=
  λ tr, match m tr with
        | (Returned a, tr') => k a tr'
        | (Threw e, tr') => (Threw e, tr')
        | (Hung, tr') => (Hung, tr')
        end.

Notation "x <~ m ;; k" := (bind m (λ x, k))
  (at level 20, m at level 99, k at level 200, only parsing).

(** [try { body } catch (error) { throw h(error) }]. *)
Definition rethrowing {A} (h : Thrown → Thrown) (body : Task A) : Task A :=
  λ tr, match body tr with
        | (Threw e, tr') => (Threw (h e), tr')
        | r => r
        end.

(** [this.timeoutPromise(ms)] rejects with this error when its timer fires. *)
Definition timeoutError : Thrown := newError TIMEOUT_SENTINEL.

(** [await Promise.race([call, this.timeoutPromise(ms)])]. *)
Definition awaitRace {A} (req : Request) (ms : Js.number) (who : Settle A) : Task A :=
  λ tr, (match who with
         | Fulfilled a => Returned a
         | Rejected e => Threw e
         | TimerFirst => Threw timeoutError
         end, tr ++ [Upstream req (Some ms)]).

(** [await call], with no timer: the call decides alone how, and whether,
    the await ends. *)
Definition awaitBare {A} (req : Request) (call : Completion A) : Task A :=
  λ tr, (call, tr ++ [Upstream req None]).

Definition run {A} (m : Task A) : Completion A * list Effect := m [].

(** The process environment of one invocation: the working directory, the
    files (by absolute path, with their contents) and the directories
    below the root that exist when it starts, the absolute paths that the
    process is not allowed to create or to write, and the clock, as the
    text that the [k]-th [new Date().toISOString()] of the invocation
    returns. *)
Record World := {
  cwd : string;
  files : gmap string string;
  dirs : gset string;
  writeProtected : gset string;
  isoTime : nat → string
}.

(** [fs.readFileSync(path)] and [fs.readFileSync(path, 'utf-8')]. *)
Definition readFileSync (w : World) (path : string) : Task string :=
  match files w !! path with
  | Some s => ret s
  | None =>
      if decide (path ∈ dirs w) then
        throw {| message := Some "EISDIR: illegal operation on a directory, read";
                 status := None; code := Some "EISDIR";
                 repr := "Error: EISDIR: illegal operation on a directory, read" |}
      else
        throw {| message := Some ("ENOENT: no such file or directory, open '"
                                  +:+ path +:+ "'");
                 status := None; code := Some "ENOENT";
                 repr := "Error: ENOENT: no such file or directory, open '"
                         +:+ path +:+ "'" |}
  end.

(** [fs.existsSync(path)] before the invocation has touched the file
    system; a relative path is taken from the working directory. *)
Definition existsSync (w : World) (path : string) : bool :=
  let absolute := Path.resolve (cwd w) [path] in
  bool_decide (is_Some (files w !! absolute)) || bool_decide (absolute ∈ dirs w).

(** *** The file system while the invocation writes

    [saveFile] looks for a directory, creates it and writes a file, and
    does so once per image: what it finds depends on what the invocation
    has created and written before, which the trace records. *)

(** The directories above an absolute path, from the top down, the root
    apart. *)
Definition ancestors (absolute : string) : list string :=
  let segs := Path.normalizeSegments [] (Path.segments "" absolute) in
  (λ k, "/" +:+ Js.join "/" (take k segs)) <$> seq 1 (length segs - 1).

(** The directories that exist by [mkdirSync(path, { recursive: true })]
    calls of the trace: the directory named and those above it. *)
Definition createdDirs (w : World) (tr : list Effect) : list string :=
  tr ≫= (λ eff,
    match eff with
    | MakeDir path =>
        let absolute := Path.resolve (cwd w) [path] in ancestors absolute ++ [absolute]
    | _ => []
    end).

(** The files that exist by [writeFileSync] calls of the trace. *)
Definition writtenFiles (w : World) (tr : list Effect) : list string :=
  tr ≫= (λ eff,
    match eff with
    | WriteFile path _ => [Path.resolve (cwd w) [path]]
    | _ => []
    end).

Definition isFile (w : World) (tr : list Effect) (absolute : string) : bool :=
  bool_decide (is_Some (files w !! absolute))
  || bool_decide (absolute ∈ writtenFiles w tr).

Definition isDirectory (w : World) (tr : list Effect) (absolute : string) : bool :=
  bool_decide (absolute = "/")
  || bool_decide (absolute ∈ dirs w)
  || bool_decide (absolute ∈ createdDirs w tr).

(** The exceptions of the [fs] module, with the properties of a system
    error that the handler reads. *)
Definition fsError (errno reason syscall path : string) : Thrown :=
  let text := errno +:+ ": " +:+ reason +:+ ", " +:+ syscall +:+ " '" +:+ path +:+ "'" in
  {| message := Some text; status := None; code := Some errno;
     repr := "Error: " +:+ text |}.

(** [fs.existsSync(path)] in the course of the invocation. *)
Definition existsSyncNow (w : World) (path : string) : Task bool :=
  λ tr, let absolute := Path.resolve (cwd w) [path] in
        (Returned (isFile w tr absolute || isDirectory w tr absolute), tr).

(** [fs.mkdirSync(path, { recursive: true })]: it fails when the path or
    a directory above it is a regular file, or when a directory that is
    missing may not be created; otherwise the directory and those above
    it exist afterwards. *)
Definition mkdirSync (w : World) (path : string) : Task unit :=
  λ tr,
    let absolute := Path.resolve (cwd w) [path] in
    if isFile w tr absolute then
      (Threw (fsError "EEXIST" "file already exists" "mkdir" path), tr)
    else if existsb (isFile w tr) (ancestors absolute) then
      (Threw (fsError "ENOTDIR" "not a directory" "mkdir" path), tr)
    else if existsb (λ d, negb (isDirectory w tr d) && bool_decide (d ∈ writeProtected w))
                    (ancestors absolute ++ [absolute]) then
      (Threw (fsError "EACCES" "permission denied" "mkdir" path), tr)
    else (Returned (), tr ++ [MakeDir path]).

(** The path ends with a separator: it can only name a directory. *)
Definition namesDirectory (path : string) : bool :=
  bool_decide (last (Path.chars path) = Some Path.SLASH).

(** [fs.writeFileSync(path, contents)]: the file is opened for writing,
    created or truncated.  It fails when a directory above the path is a
    regular file or is missing, when the path names a directory, and when
    the path may not be written. *)
Definition writeFileSync (w : World) (path : string) (contents : Buffer) : Task unit :=
  λ tr,
    let absolute := Path.resolve (cwd w) [path] in
    if existsb (isFile w tr) (ancestors absolute)
       || (namesDirectory path && isFile w tr absolute) then
      (Threw (fsError "ENOTDIR" "not a directory" "open" path), tr)
    else if negb (forallb (isDirectory w tr) (ancestors absolute)) then
      (Threw (fsError "ENOENT" "no such file or directory" "open" path), tr)
    else if isDirectory w tr absolute || namesDirectory path then
      (Threw (fsError "EISDIR" "illegal operation on a directory" "open" path), tr)
    else if bool_decide (absolute ∈ writeProtected w) then
      (Threw (fsError "EACCES" "permission denied" "open" path), tr)
    else (Returned (), tr ++ [WriteFile path contents]).

(** ** The upstream call adapter (class [OpenAIClient]) *)

Module OpenAIClient.

Section WithConfig.

(** [this.timeout] and the process the client runs in. *)
Variable timeout : Js.number.
Variable w : World.

Definition developerBlock (systemPrompt : option string) : list InputMessage :=
  if Js.truthy systemPrompt
  then [{| role := "developer"; content := Plain (Js.interpolate systemPrompt) |}]
  else [].

Definition userBlock (text : string) : InputMessage :=
  {| role := "user"; content := Plain text |}.

Definition generate (model prompt : string) (systemPrompt : option string)
    (up : Settle Response) : Task string :=
  rethrowing handleError (
    let input := developerBlock systemPrompt ++ [userBlock prompt] in
    response <~ awaitRace (responses_create model input [] None) timeout up ;;
    ret (extractText response)).

Definition searchWeb (model query : string) (systemPrompt : option string)
    (up : Settle Response) : Task SearchWebResponse :=
  rethrowing handleError (
    let input := developerBlock systemPrompt ++ [userBlock query] in
    response <~ awaitRace (responses_create model input [web_search_preview] None)
                  (Js.mul timeout (Js.Num 3)) up ;;
    ret (extractSearchResponse response)).

Definition generateWithReasoning (model prompt : string) (effort : option string)
    (up : Settle Response) : Task ReasoningResponse :=
  rethrowing handleError (
    response <~ awaitRace
                  (responses_create model [userBlock prompt] []
                     (Some (Js.orElse effort "high")))
                  (Js.mul timeout (Js.Num 5)) up ;;
    ret (extractReasoningResponse response)).

Definition executeCode (model prompt : string) (systemPrompt : option string)
    (up : Settle Response) : Task CodeExecutionResponse :=
  rethrowing handleError (
    let input := developerBlock systemPrompt ++ [userBlock prompt] in
    response <~ awaitRace (responses_create model input [code_interpreter_auto] None)
                  (Js.mul timeout (Js.Num 3)) up ;;
    ret (extractCodeExecutionResponse response)).

Definition fetchUrl (model prompt : string) (urls : list string)
    (systemPrompt : option string) (up : Settle Response) : Task SearchWebResponse :=
  rethrowing handleError (
    let fullPrompt :=
      prompt +:+ Js.LF +:+ Js.LF +:+ "URLs to analyze:" +:+ Js.LF
      +:+ Js.join Js.LF (map (λ u, "- " +:+ u) urls) in
    let input := developerBlock systemPrompt ++ [userBlock fullPrompt] in
    response <~ awaitRace (responses_create model input [web_search_preview] None)
                  (Js.mul timeout (Js.Num 3)) up ;;
    ret (extractUrlFetchResponse response)).

(** Extensions supported by the provider's Files API. *)
Definition UPLOAD_SUPPORTED_EXTENSIONS : gset string :=
  list_to_set
    [".c"; ".css"; ".csv"; ".diff"; ".html"; ".htm"; ".java"; ".js"; ".json";
     ".md"; ".markdown"; ".pdf"; ".php"; ".pl"; ".pm"; ".py"; ".rb"; ".rst";
     ".scala"; ".sh"; ".tex"; ".txt"; ".text"; ".xml"; ".yaml"; ".yml";
     ".srt"; ".vtt"; ".eml"; ".mjs"; ".patch"].

Definition uploadViaFilesApi (model absolutePath fileName : string)
    (query : option string)
    (upFile : Completion FileObject) (up : Settle Response)
  : Task FileUploadResponse :=
  file <~ awaitBare (files_create absolutePath "assistants") upFile ;;
  if negb (Js.truthy query) then
    ret {| upload_text :=
             "File '" +:+ fileName +:+ "' uploaded successfully." +:+ Js.LF
             +:+ "File ID: " +:+ file_id file +:+ Js.LF +:+ Js.LF
             +:+ "Use this file_id with the 'ask' tool's file_ids parameter to ask questions about it.";
           fileName := fileName;
           fileId := file_id file |}
  else
    let input :=
      [{| role := "user";
          content := Parts [input_file (file_id file);
                            input_text (Js.interpolate query)] |}] in
    response <~ awaitRace (responses_create model input [] None)
                  (Js.mul timeout (Js.Num 3)) up ;;
    ret {| upload_text := extractText response;
           fileName := fileName;
           fileId := file_id file |}.

(** The tag of the fenced block:
    [path.extname(absolutePath).toLowerCase().slice(1) || 'text']. *)
Definition inlineFenceTag (absolutePath : string) : string :=
  Js.orElse (Some (Js.sliceFrom (Js.toLowerCase (Path.extname absolutePath)) 1)) "text".

(** The prompt [uploadViaInlineText] sends. *)
Definition inlinePrompt (fileName ext fileContent promptText : string) : string :=
  "File: " +:+ fileName +:+ Js.LF +:+ Js.LF
  +:+ "```" +:+ ext +:+ Js.LF +:+ fileContent +:+ Js.LF +:+ "```"
  +:+ Js.LF +:+ Js.LF +:+ promptText.

Definition uploadViaInlineText (model absolutePath fileName : string)
    (query : option string) (up : Settle Response) : Task FileUploadResponse :=
  fileContent <~ readFileSync w absolutePath ;;
  let ext := inlineFenceTag absolutePath in
  let promptText :=
    Js.orElse query "Analyze this file and provide a detailed summary." in
  let fullPrompt := inlinePrompt fileName ext fileContent promptText in
  response <~ awaitRace (responses_create model [userBlock fullPrompt] [] None)
                (Js.mul timeout (Js.Num 3)) up ;;
  ret {| upload_text := extractText response;
         fileName := fileName;
         fileId := "inline" |}.

(** [uploadFile].  Its [try] block returns the promise of the helper
    without awaiting it: nothing that the block runs itself throws, and a
    failure of the helper rejects the promise after the block is left, so
    that the [catch] clause with [handleError] never sees it. *)
Definition uploadFile (model filePath : string) (query : option string)
    (upFile : Completion FileObject) (up : Settle Response)
  : Task FileUploadResponse :=
  let absolutePath := Path.resolve (cwd w) [filePath] in
  let fileName := Path.basename absolutePath in
  let ext := Js.toLowerCase (Path.extname absolutePath) in
  if decide (ext ∈ UPLOAD_SUPPORTED_EXTENSIONS) then
    uploadViaFilesApi model absolutePath fileName query upFile up
  else
    uploadViaInlineText model absolutePath fileName query up.

(** The loop over [response.data] shared by the two image operations. *)
Definition collectImages (response : ImagesResponse) : list Image :=
  match data response with
  | Some items =>
      items ≫= (λ img,
        if Js.truthy (b64_json img)
        then [{| b64 := Js.interpolate (b64_json img);
                 revisedPrompt := revised_prompt img |}]
        else [])
  | None => []
  end.

(** [options?.n || 1]. *)
Definition countOrOne (n : option Z) : Z :=
  match n with
  | Some k => if decide (k = 0) then 1 else k
  | None => 1
  end.

Definition generateImage (prompt : string) (size quality : option string)
    (n : option Z) (up : Settle ImagesResponse) : Task ImageGenerationResponse :=
  rethrowing handleError (
    response <~ awaitRace
                  (images_generate "gpt-image-1.5" prompt (Js.orElse size "auto")
                     (Js.orElse quality "auto") (countOrOne n) "png")
                  (Js.mul timeout (Js.Num 3)) up ;;
    ret {| images := collectImages response |}).

(** [getImageMimeType]. *)
Definition getImageMimeType (filePath : string) : string :=
  let ext := Js.toLowerCase (Path.extname filePath) in
  if decide (ext = ".png") then "image/png"
  else if decide (ext = ".jpg") then "image/jpeg"
  else if decide (ext = ".jpeg") then "image/jpeg"
  else if decide (ext = ".webp") then "image/webp"
  else if decide (ext = ".gif") then "image/gif"
  else if decide (ext = ".bmp") then "image/bmp"
  else "image/png".

Definition loadImageFile (p : string) : Task JsFile :=
  let resolved := Path.resolve (cwd w) [p] in
  buffer <~ readFileSync w resolved ;;
  ret {| file_bytes := buffer;
         file_name := Path.basename resolved;
         file_type := getImageMimeType resolved |}.

Definition editImage (prompt imagePath : string) (maskPath size quality : option string)
    (up : Settle ImagesResponse) : Task ImageGenerationResponse :=
  rethrowing handleError (
    imageFile <~ loadImageFile imagePath ;;
    mask <~ (if Js.truthy maskPath
             then (m <~ loadImageFile (Js.interpolate maskPath) ;; ret (Some m))
             else ret None) ;;
    response <~ awaitRace
                  (images_edit "gpt-image-1.5" prompt imageFile mask
                     (Js.orElse size "auto") (Js.orElse quality "auto") "png")
                  (Js.mul timeout (Js.Num 3)) up ;;
    ret {| images := collectImages response |}).

Definition analyzeImage (model prompt imageBase64 mimeType : string)
    (up : Settle Response) : Task string :=
  rethrowing handleError (
    let dataUrl := "data:" +:+ mimeType +:+ ";base64," +:+ imageBase64 in
    let input :=
      [{| role := "user";
          content := Parts [input_image dataUrl "auto"; input_text prompt] |}] in
    response <~ awaitRace (responses_create model input [] None)
                  (Js.mul timeout (Js.Num 2)) up ;;
    ret (extractText response)).

(** The fulfilled call gives the bytes of the audio. *)
Definition textToSpeech (text : string) (model voice speed format : option string)
    (up : Settle string) : Task Buffer :=
  rethrowing handleError (
    bytes <~ awaitRace
               (audio_speech_create (Js.orElse model "gpt-4o-mini-tts")
                  (Js.orElse voice "alloy") text (Js.orElse speed "1.0")
                  (Js.orElse format "mp3"))
               (Js.mul timeout (Js.Num 2)) up ;;
    ret (fromBytes bytes)).

Definition transcribe (audioPath : string) (model language prompt : option string)
    (up : Settle Transcription) : Task string :=
  rethrowing handleError (
    response <~ awaitRace
                  (audio_transcriptions_create (Js.orElse model "whisper-1")
                     (Path.resolve (cwd w) [audioPath]) language prompt)
                  (Js.mul timeout (Js.Num 3)) up ;;
    ret (transcription_text response)).

End WithConfig.

End OpenAIClient.

(** ** The tools/call handler (index.ts) *)

Inductive ContentPart :=
| text_part (text : string)
| image_part (data mimeType : string).

(** The reply envelope; an absent [isError] is [false]. *)
Record ToolReply := {
  reply_content : list ContentPart;
  isError : bool
}.

Definition success (parts : list ContentPart) : ToolReply :=
  {| reply_content := parts; isError := false |}.

Definition failure (text : string) : ToolReply :=
  {| reply_content := [text_part text]; isError := true |}.

(** The arguments of the tools, after the type checks of their schemas;
    the constraints on the values are checked by the [parse] functions. *)
Record AskArgs := {
  ask_prompt : string;
  ask_model : option string;
  ask_file_ids : option (list string)
}.

Record GenerateImageArgs := {
  gen_prompt : string;
  gen_size : option string;
  gen_quality : option string;
  gen_n : option Z;
  gen_save_path : option string
}.

Record EditImageArgs := {
  edit_prompt : string;
  edit_image_path : string;
  edit_mask_path : option string;
  edit_size : option string;
  edit_quality : option string;
  edit_save_path : option string
}.

(** What [schema.parse] throws; the text that zod renders for the issues
    is summarised by the name of the offending property. *)
Definition zodError (property : string) : Thrown :=
  {| message := Some ("Invalid input: " +:+ property);
     status := None; code := None;
     repr := "ZodError: Invalid input: " +:+ property |}.

Definition oneOf (allowed : list string) (o : option string) : bool :=
  match o with
  | Some s => bool_decide (s ∈ allowed)
  | None => true
  end.

Definition IMAGE_SIZES : list string := ["auto"; "1024x1024"; "1536x1024"; "1024x1536"].
Definition IMAGE_QUALITIES : list string := ["auto"; "low"; "medium"; "high"].

Definition parseAsk (args : AskArgs) : Task AskArgs :=
  if decide (ask_prompt args = "") then throw (zodError "prompt") else ret args.

Definition parseGenerateImage (args : GenerateImageArgs) : Task GenerateImageArgs :=
  if decide (gen_prompt args = "") then throw (zodError "prompt")
  else if negb (oneOf IMAGE_SIZES (gen_size args)) then throw (zodError "size")
  else if negb (oneOf IMAGE_QUALITIES (gen_quality args)) then throw (zodError "quality")
  else if negb (from_option (λ n, (1 <=? n) && (n <=? 10)) true (gen_n args))
       then throw (zodError "n")
  else ret args.

Definition parseEditImage (args : EditImageArgs) : Task EditImageArgs :=
  if decide (edit_prompt args = "") then throw (zodError "prompt")
  else if decide (edit_image_path args = "") then throw (zodError "image_path")
  else if negb (oneOf IMAGE_SIZES (edit_size args)) then throw (zodError "size")
  else if negb (oneOf IMAGE_QUALITIES (edit_quality args)) then throw (zodError "quality")
  else ret args.

(** The [catch] clause that closes the handler. *)
Definition catchAll (body : Task ToolReply) : Task ToolReply :=
  λ tr, match body tr with
        | (Threw e, tr') => (Returned (failure (Js.orElse (message e) "An error occurred")), tr')
        | r => r
        end.

Definition NO_IMAGE_GENERATED : string :=
  "No image was generated. The model may have declined the request or encountered a safety filter. Try rephrasing your prompt.".

Definition NO_EDITED_IMAGE_GENERATED : string :=
  "No edited image was generated. The model may have declined the request or encountered a safety filter. Try rephrasing your prompt.".

Module Server.

Section WithConfig.

Variable config : Config.
Variable w : World.

(** [saveFile]. *)
Definition saveFile (contents : Buffer) (savePath : string) : Task string :=
  let dir := Path.dirname savePath in
  present <~ existsSyncNow w dir ;;
  _ <~ (if negb present then mkdirSync w dir else ret ()) ;;
  _ <~ writeFileSync w savePath contents ;;
  ret savePath.

(** [saveImage]. *)
Definition saveImage (base64Data savePath : string) : Task string :=
  let buffer := fromBase64 base64Data in
  saveFile buffer savePath.

(** [getAutoSavePath]; [k] numbers the readings of the clock. *)
Definition getAutoSavePath (k : nat) (outputDir prefix ext : string) : string :=
  let timestamp := Js.replaceColonDot (isoTime w k) in
  let filename := prefix +:+ "-" +:+ timestamp +:+ "." +:+ ext in
  Path.resolve (cwd w) [outputDir; filename].

(** The [ask] tool. *)
Definition ask (args : AskArgs) (up : Settle Response) : Task ToolReply :=
  catchAll (
    input <~ parseAsk args ;;
    let model := Js.orElse (ask_model input) (defaultModel config) in
    response <~ OpenAIClient.generate (timeout config) model (ask_prompt input) None up ;;
    ret (success [text_part response])).

(** The path chosen for image [i] of [count] in the loop of
    [generate_image]. *)
Definition chooseSavePath (save_path : option string) (count i : nat) : string :=
  if Js.truthy save_path && bool_decide (count = 1%nat) then
    Js.interpolate save_path
  else if Js.truthy save_path then
    let ext := Path.extname (Js.interpolate save_path) in
    let base := Js.slice (Js.interpolate save_path) 0 (- Js.strlen ext) in
    base +:+ "_" +:+ pretty i +:+ ext
  else
    getAutoSavePath i (outputDir config) "generated" "png".

(** The text that goes with a saved image. *)
Definition savedText (label savedTo : string) (img : Image) : string :=
  Js.join ""
    ([label +:+ " saved to: " +:+ savedTo]
     ++ (if Js.truthy (revisedPrompt img)
         then [Js.LF +:+ "Revised prompt: " +:+ Js.interpolate (revisedPrompt img)]
         else [])).

(** The loop [for (let i = 0; i < result.images.length; i++)] from
    index [i] on, [rest] being the images not yet visited; it yields the
    parts pushed onto [content]. *)
Fixpoint saveLoop (save_path : option string) (count : nat)
    (i : nat) (rest : list Image) : Task (list ContentPart) :=
  match rest with
  | [] => ret []
  | img :: rest' =>
      let savePath := chooseSavePath save_path count i in
      savedTo <~ saveImage (b64 img) savePath ;;
      let pushed :=
        [image_part (b64 img) "image/png";
         text_part (savedText ("Image " +:+ pretty (i + 1)%nat) savedTo img)] in
      more <~ saveLoop save_path count (S i) rest' ;;
      ret (pushed ++ more)
  end.

(** The [generate_image] tool. *)
Definition generate_image (args : GenerateImageArgs) (up : Settle ImagesResponse)
  : Task ToolReply :=
  catchAll (
    input <~ parseGenerateImage args ;;
    result <~ OpenAIClient.generateImage (timeout config) (gen_prompt input)
                (gen_size input) (gen_quality input) (gen_n input) up ;;
    if decide (length (images result) = 0%nat) then
      ret (failure NO_IMAGE_GENERATED)
    else
      content <~ saveLoop (gen_save_path input) (length (images result)) 0 (images result) ;;
      ret (success content)).

(** The [edit_image] tool. *)
Definition edit_image (args : EditImageArgs) (up : Settle ImagesResponse)
  : Task ToolReply :=
  catchAll (
    input <~ parseEditImage args ;;
    let imagePath := Path.resolve (cwd w) [edit_image_path input] in
    if negb (existsSync w imagePath) then
      ret (failure ("Source image not found: " +:+ imagePath))
    else if Js.truthy (edit_mask_path input)
            && negb (existsSync w
                       (Path.resolve (cwd w) [Js.interpolate (edit_mask_path input)]))
    then
      ret (failure ("Mask image not found: "
                    +:+ Path.resolve (cwd w) [Js.interpolate (edit_mask_path input)]))
    else
      result <~ OpenAIClient.editImage (timeout config) w (edit_prompt input) imagePath
                  (edit_mask_path input) (edit_size input) (edit_quality input) up ;;
      match images result with
      | [] => ret (failure NO_EDITED_IMAGE_GENERATED)
      | image :: _ =>
          let savePath :=
            if Js.truthy (edit_save_path input)
            then Js.interpolate (edit_save_path input)
            else getAutoSavePath 0 (outputDir config) "edited" "png" in
          savedTo <~ saveImage (b64 image) savePath ;;
          ret (success [image_part (b64 image) "image/png";
                        text_part (savedText "Edited image" savedTo image)])
      end).

End WithConfig.

(** How [main] starts: the handlers are registered only once
    [loadConfig] has returned; when it throws, the message is logged and
    the process exits with status 1. *)
Inductive Startup :=
| Serving (config : Config)
| Exited (exitCode : Z) (logged : string).

Definition main (env : ProcessEnv) : Startup :=
  match loadConfig env with
  | inr config => Serving config
  | inl error =>
      Exited 1 ("Failed to start OpenAI MCP Server: " +:+ Js.interpolate (message error))
  end.

End Server.

(** ** The system prompts (prompts.ts) *)

Module Prompts.

Definition BRAINSTORM_PROMPT : string :=
"You are a creative brainstorming partner. Your role is to:
- Generate diverse ideas from multiple angles
- Explore possibilities and think outside the box
- Consider unconventional approaches
- Present ideas in an organized, actionable format
- Build on concepts to explore their potential
- Encourage innovative thinking

Be enthusiastic, creative, and open-minded. Help expand thinking beyond obvious solutions.".

Definition CODE_REVIEW_PROMPT : string :=
"You are an expert code reviewer. Your role is to:
- Check for bugs and potential errors
- Identify security vulnerabilities
- Assess performance issues and inefficiencies
- Verify adherence to best practices and conventions
- Suggest specific, actionable improvements
- Provide clear, constructive feedback

Be thorough, precise, and helpful. Focus on making the code better while being respectful and educational.".

Definition EXPLAIN_PROMPT : string :=
"You are a clear and patient technical explainer. Your role is to:
- Break down complex topics into understandable parts
- Use appropriate technical level for the context
- Include relevant examples when helpful
- Be accurate and precise
- Structure explanations logically
- Anticipate and address common points of confusion

Be clear, thorough, and educational. Make complex topics accessible without oversimplifying.".

Definition SEARCH_WEB_PROMPT : string :=
"You are a research assistant with access to web search.
Provide accurate, well-sourced answers based on search results.
Always cite your sources and include relevant URLs.
If information is uncertain or conflicting, note this clearly.".

Definition CODE_EXECUTION_PROMPT : string :=
"You are a Python computation assistant.
Write and execute Python code to solve the user's problem.
Explain your approach, then provide the code and results.
Handle errors gracefully and explain any issues.".

Definition URL_CONTEXT_PROMPT : string :=
"You are a web content analyst.
Analyze the content from the provided URLs and synthesize the information.
Be accurate about what each source says. Note if any URLs could not be retrieved.".

End Prompts.

(** ** The other tools of the tools/call handler (index.ts) *)

Record CodeReviewArgs := {
  review_code : string;
  review_focus : option string
}.

Record BrainstormArgs := {
  brainstorm_topic : string;
  brainstorm_context : option string
}.

Record ExplainArgs := {
  explain_concept : string
}.

Record SearchWebArgs := {
  search_query : string;
  search_model : option string
}.

Record ReasoningArgs := {
  reasoning_prompt : string;
  reasoning_model : option string;
  reasoning_effort : option string
}.

Record RunCodeArgs := {
  run_prompt : string;
  run_model : option string
}.

Record FetchUrlArgs := {
  fetch_prompt : string;
  fetch_urls : list string;
  fetch_model : option string
}.

Record UploadFileArgs := {
  upload_file_path : string;
  upload_query : option string;
  upload_model : option string
}.

Record AnalyzeImageArgs := {
  analyze_image_path : string;
  analyze_prompt : option string;
  analyze_model : option string
}.

Record TranscribeArgs := {
  transcribe_audio_path : string;
  transcribe_model : option string;
  transcribe_language : option string;
  transcribe_prompt : option string
}.

Definition EFFORTS : list string := ["low"; "medium"; "high"].

Definition parseCodeReview (args : CodeReviewArgs) : Task CodeReviewArgs :=
  if decide (review_code args = "") then throw (zodError "code") else ret args.

Definition parseBrainstorm (args : BrainstormArgs) : Task BrainstormArgs :=
  if decide (brainstorm_topic args = "") then throw (zodError "topic") else ret args.

Definition parseExplain (args : ExplainArgs) : Task ExplainArgs :=
  if decide (explain_concept args = "") then throw (zodError "concept") else ret args.

Definition parseSearchWeb (args : SearchWebArgs) : Task SearchWebArgs :=
  if decide (search_query args = "") then throw (zodError "query") else ret args.

Definition parseReasoning (args : ReasoningArgs) : Task ReasoningArgs :=
  if decide (reasoning_prompt args = "") then throw (zodError "prompt")
  else if negb (oneOf EFFORTS (reasoning_effort args)) then throw (zodError "effort")
  else ret args.

Definition parseRunCode (args : RunCodeArgs) : Task RunCodeArgs :=
  if decide (run_prompt args = "") then throw (zodError "prompt") else ret args.

Definition parseFetchUrl (args : FetchUrlArgs) : Task FetchUrlArgs :=
  if decide (fetch_prompt args = "") then throw (zodError "prompt")
  else if negb ((1 <=? length (fetch_urls args))%nat
                && (length (fetch_urls args) <=? 20)%nat)
       then throw (zodError "urls")
  else ret args.

Definition parseUploadFile (args : UploadFileArgs) : Task UploadFileArgs :=
  if decide (upload_file_path args = "") then throw (zodError "file_path") else ret args.

Definition parseAnalyzeImage (args : AnalyzeImageArgs) : Task AnalyzeImageArgs :=
  if decide (analyze_image_path args = "") then throw (zodError "image_path")
  else ret args.

Definition parseTranscribe (args : TranscribeArgs) : Task TranscribeArgs :=
  if decide (transcribe_audio_path args = "") then throw (zodError "audio_path")
  else ret args.

(** [buffer.toString('base64')]: three bytes give four characters of the
    alphabet, and a last group of one or two bytes is padded with [=]. *)
Module Base64.

Definition ALPHABET : string :=
  "ABCDEFGHIJKLMNOPQRSTUVWXYZabcdefghijklmnopqrstuvwxyz0123456789+/".

Definition digit (n : N) : ascii :=
  from_option id "="%char (String.get (N.to_nat (n mod 64)%N) ALPHABET).

Fixpoint encodeBytes (bytes : list N) : string :=
  match bytes with
  | a :: b :: c :: rest =>
      let n := (a * 65536 + b * 256 + c)%N in
      String (digit (n / 262144)) (String (digit (n / 4096))
        (String (digit (n / 64)) (String (digit n) (encodeBytes rest))))
  | [a; b] =>
      let n := (a * 65536 + b * 256)%N in
      String (digit (n / 262144)) (String (digit (n / 4096))
        (String (digit (n / 64)) "="))
  | [a] =>
      let n := (a * 65536)%N in
      String (digit (n / 262144)) (String (digit (n / 4096)) "==")
  | [] => ""
  end.

Definition encode (bytes : string) : string :=
  encodeBytes (N_of_ascii <$> list_ascii_of_string bytes).

End Base64.

Module Tools.

Section WithConfig.

Variable config : Config.
Variable w : World.

(** [getMimeType]: the table is an object indexed by the extension. *)
Definition mimeTypes : gmap string string :=
  {[ ".png" := "image/png"; ".jpg" := "image/jpeg"; ".jpeg" := "image/jpeg";
     ".gif" := "image/gif"; ".webp" := "image/webp"; ".bmp" := "image/bmp" ]}.

Definition getMimeType (filePath : string) : string :=
  let ext := Js.toLowerCase (Path.extname filePath) in
  Js.orElse (mimeTypes !! ext) "image/png".

(** The [code_review] tool. *)
Definition code_review (args : CodeReviewArgs) (up : Settle Response) : Task ToolReply :=
  catchAll (
    input <~ parseCodeReview args ;;
    let focus := Js.orElse (review_focus input) "general" in
    let prompt :=
      "Please review this code with a focus on " +:+ focus +:+ ":" +:+ Js.LF +:+ Js.LF
      +:+ "```" +:+ Js.LF +:+ review_code input +:+ Js.LF +:+ "```" +:+ Js.LF +:+ Js.LF
      +:+ "Provide specific, actionable feedback on:" +:+ Js.LF
      +:+ "1. Potential issues or bugs" +:+ Js.LF
      +:+ "2. Security concerns" +:+ Js.LF
      +:+ "3. Performance optimizations" +:+ Js.LF
      +:+ "4. Best practices" +:+ Js.LF
      +:+ "5. Code clarity and maintainability" in
    response <~ OpenAIClient.generate (timeout config) (defaultModel config) prompt
                  (Some Prompts.CODE_REVIEW_PROMPT) up ;;
    ret (success [text_part response])).

(** The [brainstorm] tool. *)
Definition brainstorm (args : BrainstormArgs) (up : Settle Response) : Task ToolReply :=
  catchAll (
    input <~ parseBrainstorm args ;;
    let prompt0 := "Brainstorm ideas about: " +:+ brainstorm_topic input in
    let prompt1 :=
      if Js.truthy (brainstorm_context input)
      then prompt0 +:+ Js.LF +:+ Js.LF +:+ "Context: "
           +:+ Js.interpolate (brainstorm_context input)
      else prompt0 in
    let prompt :=
      prompt1 +:+ Js.LF +:+ Js.LF
      +:+ "Provide creative ideas, alternatives, and considerations." in
    response <~ OpenAIClient.generate (timeout config) (defaultModel config) prompt
                  (Some Prompts.BRAINSTORM_PROMPT) up ;;
    ret (success [text_part response])).

(** The [explain] tool. *)
Definition explain (args : ExplainArgs) (up : Settle Response) : Task ToolReply :=
  catchAll (
    input <~ parseExplain args ;;
    let prompt := "Explain: " +:+ explain_concept input in
    response <~ OpenAIClient.generate (timeout config) "gpt-4.1-mini" prompt
                  (Some Prompts.EXPLAIN_PROMPT) up ;;
    ret (success [text_part response])).

(** The lines that the loop over [result.citations] appends. *)
Definition sourceLine (citation : Citation) : string :=
  "- [" +:+ title citation +:+ "](" +:+ url citation +:+ ")" +:+ Js.LF.

(** The text of the reply of [search_web] and of [fetch_url]. *)
Definition withSources (result : SearchWebResponse) : string :=
  let responseText := search_text result in
  if (0 <? length (citations result))%nat then
    foldl (λ acc citation, acc +:+ sourceLine citation)
      (responseText +:+ Js.LF +:+ Js.LF +:+ "---" +:+ Js.LF +:+ "**Sources:**" +:+ Js.LF)
      (citations result)
  else responseText.

(** The [search_web] tool. *)
Definition search_web (args : SearchWebArgs) (up : Settle Response) : Task ToolReply :=
  catchAll (
    input <~ parseSearchWeb args ;;
    let model := Js.orElse (search_model input) (defaultModel config) in
    result <~ OpenAIClient.searchWeb (timeout config) model (search_query input)
                (Some Prompts.SEARCH_WEB_PROMPT) up ;;
    ret (success [text_part (withSources result)])).

(** The [search_with_reasoning] tool. *)
Definition search_with_reasoning (args : ReasoningArgs) (up : Settle Response)
  : Task ToolReply :=
  catchAll (
    input <~ parseReasoning args ;;
    let model := Js.orElse (reasoning_model input) "o4-mini" in
    result <~ OpenAIClient.generateWithReasoning (timeout config) model
                (reasoning_prompt input) (reasoning_effort input) up ;;
    let responseText0 :=
      if decide (reasoning result = "") then ""
      else "<reasoning>" +:+ Js.LF +:+ reasoning result +:+ Js.LF
           +:+ "</reasoning>" +:+ Js.LF +:+ Js.LF in
    ret (success [text_part (responseText0 +:+ reasoning_text result)])).

(** The [run_code] tool. *)
Definition run_code (args : RunCodeArgs) (up : Settle Response) : Task ToolReply :=
  catchAll (
    input <~ parseRunCode args ;;
    let model := Js.orElse (run_model input) (defaultModel config) in
    result <~ OpenAIClient.executeCode (timeout config) model (run_prompt input)
                (Some Prompts.CODE_EXECUTION_PROMPT) up ;;
    let responseText0 := exec_text result in
    let responseText1 :=
      if decide (exec_code result = "") then responseText0
      else responseText0 +:+ Js.LF +:+ Js.LF +:+ "```python" +:+ Js.LF
           +:+ exec_code result +:+ Js.LF +:+ "```" in
    let responseText :=
      if decide (exec_output result = "") then responseText1
      else responseText1 +:+ Js.LF +:+ Js.LF +:+ "**Output:**" +:+ Js.LF
           +:+ "```" +:+ Js.LF +:+ exec_output result +:+ Js.LF +:+ "```" in
    ret (success [text_part responseText])).

(** The [fetch_url] tool. *)
Definition fetch_url (args : FetchUrlArgs) (up : Settle Response) : Task ToolReply :=
  catchAll (
    input <~ parseFetchUrl args ;;
    let model := Js.orElse (fetch_model input) (defaultModel config) in
    result <~ OpenAIClient.fetchUrl (timeout config) model (fetch_prompt input)
                (fetch_urls input) (Some Prompts.URL_CONTEXT_PROMPT) up ;;
    ret (success [text_part (withSources result)])).

(** The [upload_file] tool. *)
Definition upload_file (args : UploadFileArgs)
    (upFile : Completion FileObject) (up : Settle Response) : Task ToolReply :=
  catchAll (
    input <~ parseUploadFile args ;;
    let model := Js.orElse (upload_model input) (defaultModel config) in
    let filePath := Path.resolve (cwd w) [upload_file_path input] in
    if negb (existsSync w filePath) then
      ret (failure ("File not found: " +:+ filePath))
    else
      result <~ OpenAIClient.uploadFile (timeout config) w model filePath
                  (upload_query input) upFile up ;;
      let responseText :=
        upload_text result +:+ Js.LF +:+ Js.LF +:+ "---" +:+ Js.LF
        +:+ "*File: " +:+ fileName result +:+ " (ID: " +:+ fileId result +:+ ")*" in
      ret (success [text_part responseText])).

(** The [analyze_image] tool. *)
Definition analyze_image (args : AnalyzeImageArgs) (up : Settle Response)
  : Task ToolReply :=
  catchAll (
    input <~ parseAnalyzeImage args ;;
    let model := Js.orElse (analyze_model input) (defaultModel config) in
    let prompt := Js.orElse (analyze_prompt input) "Describe this image in detail" in
    let imagePath := Path.resolve (cwd w) [analyze_image_path input] in
    if negb (existsSync w imagePath) then
      ret (failure ("Image not found: " +:+ imagePath))
    else
      imageBuffer <~ readFileSync w imagePath ;;
      let imageBase64 := Base64.encode imageBuffer in
      let mimeType := getMimeType imagePath in
      response <~ OpenAIClient.analyzeImage (timeout config) model prompt imageBase64
                    mimeType up ;;
      ret (success [text_part response])).

(** The [transcribe] tool. *)
Definition transcribe (args : TranscribeArgs) (up : Settle Transcription)
  : Task ToolReply :=
  catchAll (
    input <~ parseTranscribe args ;;
    let audioPath := Path.resolve (cwd w) [transcribe_audio_path input] in
    if negb (existsSync w audioPath) then
      ret (failure ("Audio file not found: " +:+ audioPath))
    else
      text <~ OpenAIClient.transcribe (timeout config) w audioPath
                (transcribe_model input) (transcribe_language input)
                (transcribe_prompt input) up ;;
      ret (success [text_part ("**Transcription:**" +:+ Js.LF +:+ Js.LF +:+ text)])).

End WithConfig.

End Tools.

(** * Vocabulary of the properties *)

(** The arguments pass the schema of the tool. *)
Definition accepts {A} (parse : A → Task A) (args : A) : Prop :=
  parse args = ret args.

(** Every upstream request of the trace was raced against [ms]. *)
Definition racedAgainst (ms : Js.number) (tr : list Effect) : Prop :=
  ∀ req deadline, Upstream req deadline ∈ tr → deadline = Some ms.

(** First-seen order, in the words of the design document: a URL is
    dropped when it was already emitted earlier. *)
Fixpoint firstSeen (urls : list string) : list string :=
  match urls with
  | [] => []
  | u :: rest => u :: filter (λ v, v ≠ u) (firstSeen rest)
  end.

(** The image a data item contributes, in the words of the claim: the one
    made of its base64 payload, when it carries one. *)
Definition payloadOf (item : ImageDatum) : option Image :=
  match b64_json item with
  | Some payload =>
      if decide (payload = "") then None
      else Some {| b64 := payload; revisedPrompt := revised_prompt item |}
  | None => None
  end.

(** The file at [p] can be read. *)
Definition readable (w : World) (p : string) : Prop :=
  is_Some (files w !! Path.resolve (cwd w) [p]).

(** The request of the [edit_image] tool got past the checks on its
    files. *)
Definition editFilesExist (w : World) (args : EditImageArgs) : Prop :=
  existsSync w (Path.resolve (cwd w) [edit_image_path args]) = true
  ∧ (Js.truthy (edit_mask_path args) = true →
     existsSync w (Path.resolve (cwd w) [Js.interpolate (edit_mask_path args)]) = true).

(** No message item of the response has an [output_text] part. *)
Definition noOutputText (response : Response) : Prop :=
  ∀ items item parts part,
    output response = Some items → item ∈ items →
    item_type item = "message" → item_content item = Some parts →
    part ∈ parts → part_type part ≠ "output_text".

(** The markdown list of sources, in the words of the design document:
    absent without citations, otherwise a header and one link per
    citation. *)
Definition sourcesSection (cs : list Citation) : string :=
  match cs with
  | [] => ""
  | _ => Js.LF +:+ Js.LF +:+ "---" +:+ Js.LF +:+ "**Sources:**" +:+ Js.LF
         +:+ Js.join "" (Tools.sourceLine <$> cs)
  end.

(** A list of strings without the empty ones at its head. *)
Fixpoint dropLeadingEmpty (l : list string) : list string :=
  match l with
  | s :: rest => if decide (s = "") then dropLeadingEmpty rest else l
  | [] => []
  end.

(** The summary texts that a reasoning item contributes. *)
Definition itemSummary (item : OutputItem) : list string :=
  if bool_decide (item_type item = "reasoning") then
    match item_summary item with
    | Some parts =>
        parts ≫= (λ s,
          if bool_decide (summary_type s = "summary_text") then [summary_text s] else [])
    | None => []
    end
  else [].

(** The logs among the results of an item. *)
Definition itemLogs (item : OutputItem) : list string :=
  match item_results item with
  | Some results =>
      results ≫= (λ r,
        if bool_decide (result_type r = "logs") then [result_logs r] else [])
  | None => []
  end.

(** The writes of a trace, in order. *)
Definition writesOf (tr : list Effect) : list (string * Buffer) :=
  omap (λ eff, match eff with WriteFile path contents => Some (path, contents) | _ => None end)
       tr.

(** What the files written in the course of a trace hold at its end, by
    absolute path: a later write to a file replaces an earlier one. *)
Definition overwrite (w : World) (disk : gmap string Buffer) (write : string * Buffer)
  : gmap string Buffer :=
  <[Path.resolve (cwd w) [write.1] := write.2]> disk.

Definition written (w : World) (tr : list Effect) : gmap string Buffer :=
  foldl (overwrite w) ∅ (writesOf tr).

(** The payload is what the file at the path holds at the end of the
    trace. *)
Definition persisted (w : World) (tr : list Effect) (path payload : string) : Prop :=
  written w tr !! Path.resolve (cwd w) [path] = Some (fromBase64 payload).

(** The tag of the fenced block for an extension, in the words of the
    design document: the extension without its dot, and [text] when
    nothing is left of it. *)
Definition fenceTag (ext : string) : string :=
  match ext with
  | String _ rest => if decide (rest = "") then "text" else rest
  | "" => "text"
  end.




(** The world lets a file be written at the path as it stands: the
    directory of the path and every directory above the file exist, none
    of them is a regular file, and the path itself is no directory and is
    not protected. *)
Definition writableInPlace (w : World) (path : string) : Prop :=
  let absolute := Path.resolve (cwd w) [path] in
  Path.resolve (cwd w) [Path.dirname path] ∈ dirs w
  ∧ Forall (λ d, d ∈ dirs w ∧ files w !! d = None) (ancestors absolute)
  ∧ absolute ≠ "/" ∧ (absolute ∉ dirs w) ∧ (absolute ∉ writeProtected w)
  ∧ namesDirectory path = false.

(** The code of a call of the code interpreter, when it has one. *)
Definition codeOf (item : OutputItem) : option string :=
  match item_code item with
  | Some c => if decide (c = "") then None else Some c
  | None => None
  end.

(** The output items of a response. *)
Definition output_items (response : Response) : list OutputItem :=
  default [] (output response).

(** The upstream requests of a trace, in order. *)
Definition requestsOf (tr : list Effect) : list Request :=
  omap (λ eff, match eff with Upstream req _ => Some req | _ => None end) tr.

(** The task always replies: it returns a reply whatever the trace. *)
Definition alwaysReplies (m : Task ToolReply) : Prop :=
  ∀ tr, ∃ reply tr', m tr = (Returned reply, tr').

(** The task never stays pending. *)
Definition settles {A} (m : Task A) : Prop :=
  ∀ tr, fst (m tr) ≠ Hung.

(** The environment in which every variable that is set to the empty
    string is unset. *)
Definition withoutEmpty (env : ProcessEnv) : ProcessEnv :=
  let unset o := if Js.truthy o then o else None in
  {| OPENAI_API_KEY := unset (OPENAI_API_KEY env);
     OPENAI_DEFAULT_MODEL := unset (OPENAI_DEFAULT_MODEL env);
     OPENAI_OUTPUT_DIR := unset (OPENAI_OUTPUT_DIR env);
     OPENAI_TIMEOUT := unset (OPENAI_TIMEOUT env) |}.

(** The lines after the first one of a newline-joined text. *)
Definition furtherLines (l : list string) : string :=
  foldr (λ s acc, Js.LF +:+ s +:+ acc) "" l.

(** What a raced call that maps the upstream answer with [f] completes
    with. *)
Definition settled {A B} (f : A → B) (up : Settle A) : Completion B :=
  match up with
  | Fulfilled a => Returned (f a)
  | Rejected e => Threw (handleError e)
  | TimerFirst => Threw (handleError timeoutError)
  end.

(** A schema accepts the arguments or throws. *)
Definition decides {A} (parse : A → Task A) : Prop :=
  ∀ args, accepts parse args ∨ ∃ e, parse args = throw e.

(** The reply to arguments that the schema refuses: one error text, and
    the trace as it was. *)
Definition refusedLocally (run_tool : list Effect → Completion ToolReply * list Effect)
  : Prop :=
  ∃ text, ∀ tr, run_tool tr = (Returned (failure text), tr).

(** The exception is an error made of the template of a category. *)
Definition categorised (e : Thrown) : Prop :=
  ∃ c, e = newError (categoryMessage c).

(** How the race was lost, and the category that it gives. *)
Definition raceLost {A} (up : Settle A) (c : ErrorCategory) : Prop :=
  match up with
  | Fulfilled _ => False
  | Rejected e => Classified e c
  | TimerFirst => c = Timeout
  end.

(** The error of [fs.readFileSync] for a path that does not exist. *)
Definition enoentMessage (path : string) : string :=
  "ENOENT: no such file or directory, open '" +:+ path +:+ "'".

(** The line that ends the reply of [upload_file]. *)
Definition fileFooter (name id : string) : string :=
  Js.LF +:+ Js.LF +:+ "---" +:+ Js.LF +:+ "*File: " +:+ name +:+ " (ID: " +:+ id +:+ ")*".

(** * Sample inputs *)

(** A process for the examples: its working directory, three files and a
    clock that stands still. *)
Definition sample_world : World :=
  {| cwd := "/srv";
     files := {[ "/srv/main.ts" := "let x = 1";
                 "/srv/notes.txt" := "remember the milk";
                 "/srv/photo.png" := "PNG" ]};
     dirs := {[ "/srv" ]};
     writeProtected := ∅;
     isoTime := λ _, "2026-01-02T03:04:05.678Z" |}.

Definition sample_config : Config :=
  {| apiKey := "sk-test"; defaultModel := "gpt-4.1";
     timeout := Js.Num 60000; outputDir := "./generated-media" |}.

(** A response with one message item holding one text part. *)
Definition answer (text : string) : Response :=
  {| output := Some
       [ {| item_type := "message";
            item_content := Some [ {| part_type := "output_text"; part_text := text;
                                      part_annotations := None |} ];
            item_summary := None; item_code := None; item_results := None |} ] |}.

Definition sample_question : AskArgs :=
  {| ask_prompt := "2+2?"; ask_model := None; ask_file_ids := None |}.

(** A rejected key whose message is the text of the timer: HTTP status
    401 on a failure that says [Request timeout]. *)
Definition timed_out_401 : Thrown :=
  {| message := Some "Request timeout"; status := Some 401; code := None;
     repr := "Error: Request timeout" |}.

(** A rejected key reported with a message that mentions [fetch]. *)
Definition fetch_failed_403 : Thrown :=
  {| message := Some "fetch failed: forbidden"; status := Some 403; code := None;
     repr := "Error: fetch failed: forbidden" |}.

(** Three annotated citations, two of them for the same URL, spread over
    two message items. *)
Definition two_messages_three_citations : Response :=
  let cite t u := {| ann_type := "url_citation"; ann_title := t; ann_url := Some u |} in
  let msg parts :=
    {| item_type := "message"; item_content := Some parts; item_summary := None;
       item_code := None; item_results := None |} in
  {| output := Some
       [ msg [ {| part_type := "output_text"; part_text := "Rocq is ";
                  part_annotations :=
                    Some [cite (Some "Rocq") "https://rocq-prover.org";
                          cite None "https://example.org"] |} ];
         msg [ {| part_type := "output_text"; part_text := "a proof assistant.";
                  part_annotations :=
                    Some [cite (Some "Again") "https://rocq-prover.org"] |} ] ] |}.

(** A response that holds a reasoning item and a message without text. *)
Definition silent_response : Response :=
  {| output := Some
       [ {| item_type := "reasoning"; item_content := None;
            item_summary := Some [ {| summary_type := "summary_text";
                                      summary_text := "thinking" |} ];
            item_code := None; item_results := None |};
         {| item_type := "message";
            item_content := Some [ {| part_type := "refusal"; part_text := "no";
                                      part_annotations := None |} ];
            item_summary := None; item_code := None; item_results := None |} ] |}.

(** The credential is set and the time-out is not a number. *)
Definition unparsable_timeout_env : ProcessEnv :=
  {| OPENAI_API_KEY := Some "sk-test"; OPENAI_DEFAULT_MODEL := None;
     OPENAI_OUTPUT_DIR := None; OPENAI_TIMEOUT := Some "abc" |}.

Definition two_images : ImagesResponse :=
  {| data := Some [ {| b64_json := Some "aGVsbG8="; revised_prompt := None |};
                    {| b64_json := Some "d29ybGQ="; revised_prompt := None |} ] |}.

Definition no_payload : ImagesResponse :=
  {| data := Some [ {| b64_json := None; revised_prompt := Some "a lighthouse" |} ] |}.

(** A request for one image, and a provider that answers with no payload. *)
Definition one_image_args : GenerateImageArgs :=
  {| gen_prompt := "a lighthouse at dusk"; gen_size := None; gen_quality := None;
     gen_n := None; gen_save_path := None |}.

Definition extensionless_args : GenerateImageArgs :=
  {| gen_prompt := "a lighthouse at dusk"; gen_size := None; gen_quality := None;
     gen_n := Some 2; gen_save_path := Some "out/image" |}.



(** Two interpreter calls: the first logs nothing and then [1], the
    second has no code and logs [2]. *)
Definition two_interpreter_calls : list OutputItem :=
  [ {| item_type := "code_interpreter_call"; item_content := None; item_summary := None;
       item_code := Some "print(1)";
       item_results := Some [ {| result_type := "logs"; result_logs := "" |};
                              {| result_type := "logs"; result_logs := "1" |} ] |};
    {| item_type := "code_interpreter_call"; item_content := None; item_summary := None;
       item_code := None;
       item_results := Some [ {| result_type := "logs"; result_logs := "2" |} ] |} ].

(** Two images and no explicit save path. *)
Definition two_images_unnamed : GenerateImageArgs :=
  {| gen_prompt := "a lighthouse at dusk"; gen_size := None; gen_quality := None;
     gen_n := Some 2; gen_save_path := None |}.




(** Eleven images are asked for, one more than the schema allows. *)
Definition eleven_images : GenerateImageArgs :=
  {| gen_prompt := "a lighthouse at dusk"; gen_size := None; gen_quality := None;
     gen_n := Some 11; gen_save_path := None |}.

(** * Properties *)

(** ** Strings *)

Lemma substring_all (s : string) :
  String.substring 0 (String.length s) s = s.
Proof. induction s as [|c s IH]; simpl; [done | by rewrite IH]. Qed.

Lemma sliceFrom_tail (c : ascii) (t : string) :
  Js.sliceFrom (String c t) 1 = t.
Proof.
  unfold Js.sliceFrom, Js.slice, Js.sliceIndex, Js.strlen. simpl String.length.
  replace (1 <? 0) with false by done.
  replace (Z.of_nat (S (String.length t)) <? 0) with false
    by (symmetry; apply Z.ltb_ge; lia).
  rewrite Z.min_id.
  replace (Z.min 1 (Z.of_nat (S (String.length t)))) with 1 by lia.
  replace (Z.to_nat 1) with 1%nat by done.
  replace (Z.to_nat (Z.of_nat (S (String.length t)) - 1)) with (String.length t) by lia.
  simpl. apply substring_all.
Qed.

Lemma append_cons (c : ascii) (s t : string) : String c s +:+ t = String c (s +:+ t).
Proof. reflexivity. Qed.

Lemma append_empty_l (t : string) : "" +:+ t = t.
Proof. reflexivity. Qed.

Lemma append_length (a b : string) :
  String.length (a +:+ b) = (String.length a + String.length b)%nat.
Proof.
  induction a as [|x a IH]; [done |].
  rewrite append_cons. simpl. by rewrite IH.
Qed.

(** Appending on the right can be cancelled. *)
Lemma append_cancel_r (a b e : string) : a +:+ e = b +:+ e → a = b.
Proof.
  revert b. induction a as [|x a IH]; intros [|y b] H.
  - done.
  - apply (f_equal String.length) in H. rewrite !append_length in H. simpl in H. lia.
  - apply (f_equal String.length) in H. rewrite !append_length in H. simpl in H. lia.
  - rewrite !append_cons in H. injection H as -> H. f_equal. by apply IH.
Qed.

(** ** The error classifier *)

Lemma newError_inj (a b : string) : newError a = newError b → a = b.
Proof. unfold newError. intros H. by injection H. Qed.

(** The templates of distinct categories are distinct texts. *)
Lemma categoryMessage_inj (c c' : ErrorCategory) :
  categoryMessage c = categoryMessage c' → c = c'.
Proof.
  destruct c, c'; intros H; try reflexivity;
    try (exfalso; cbv in H; congruence);
    cbv [categoryMessage] in H; apply String.app_inj in H; by subst.
Qed.

Global Instance isTimeoutSentinel_dec (e : Thrown) : Decision (isTimeoutSentinel e).
Proof. unfold isTimeoutSentinel. apply _. Defined.
Global Instance isAuthStatus_dec (e : Thrown) : Decision (isAuthStatus e).
Proof. unfold isAuthStatus. apply _. Defined.
Global Instance isRateStatus_dec (e : Thrown) : Decision (isRateStatus e).
Proof. unfold isRateStatus. apply _. Defined.
Global Instance isSafetyRejection_dec (e : Thrown) : Decision (isSafetyRejection e).
Proof. unfold isSafetyRejection. apply _. Defined.
Global Instance isNetworkFailure_dec (e : Thrown) : Decision (isNetworkFailure e).
Proof. unfold isNetworkFailure. apply _. Defined.

Lemma bool_is_decide (b : bool) (P : Prop) `{!Decision P} :
  (b = true ↔ P) → b = bool_decide P.
Proof. intros H. destruct b; case_bool_decide; intuition congruence. Qed.

(** The tests of [handleError] decide the conditions of the rules. *)
Lemma auth_test (e : Thrown) :
  statusIs e 401 || statusIs e 403 = bool_decide (isAuthStatus e).
Proof.
  apply bool_is_decide. unfold statusIs, isAuthStatus.
  by rewrite orb_true_iff, !bool_decide_eq_true.
Qed.

Lemma rate_test (e : Thrown) : statusIs e 429 = bool_decide (isRateStatus e).
Proof.
  apply bool_is_decide. unfold statusIs, isRateStatus. by rewrite bool_decide_eq_true.
Qed.

Lemma safety_test (e : Thrown) :
  statusIs e 400 && Js.optIncludes (message e) "safety"
  = bool_decide (isSafetyRejection e).
Proof.
  apply bool_is_decide. unfold statusIs, isSafetyRejection.
  by rewrite andb_true_iff, bool_decide_eq_true.
Qed.

Lemma network_test (e : Thrown) :
  codeIs e "ENOTFOUND" || codeIs e "ECONNREFUSED" || Js.optIncludes (message e) "fetch"
  = bool_decide (isNetworkFailure e).
Proof.
  apply bool_is_decide. unfold codeIs, isNetworkFailure.
  rewrite !orb_true_iff, !bool_decide_eq_true. tauto.
Qed.

Lemma handleError_tests (e : Thrown) :
  handleError e =
    if bool_decide (isTimeoutSentinel e) then newError (categoryMessage Timeout)
    else if bool_decide (isAuthStatus e) then newError (categoryMessage AuthInvalid)
    else if bool_decide (isRateStatus e) then newError (categoryMessage RateLimited)
    else if bool_decide (isSafetyRejection e)
         then newError (categoryMessage ContentPolicyBlocked)
    else if bool_decide (isNetworkFailure e)
         then newError (categoryMessage (NetworkUnreachable (Js.interpolate (message e))))
    else newError (categoryMessage (Unknown (Js.orElse (message e) (repr e)))).
Proof.
  unfold handleError. by rewrite auth_test, rate_test, safety_test, network_test.
Qed.

(** Each of the six rules, read on the code. *)
Lemma handleError_of_Classified (e : Thrown) (c : ErrorCategory) :
  Classified e c → handleError e = newError (categoryMessage c).
Proof.
  rewrite handleError_tests.
  destruct 1;
    repeat first [ rewrite bool_decide_eq_true_2 by assumption
                 | rewrite bool_decide_eq_false_2 by assumption ];
    reflexivity.
Qed.

(** Some rule applies to every failure. *)
Lemma Classified_total (e : Thrown) : ∃ c, Classified e c.
Proof.
  destruct (decide (isTimeoutSentinel e)); [eexists; by apply classified_timeout |].
  destruct (decide (isAuthStatus e)); [eexists; by apply classified_auth |].
  destruct (decide (isRateStatus e)); [eexists; by apply classified_rate |].
  destruct (decide (isSafetyRejection e)); [eexists; by apply classified_policy |].
  destruct (decide (isNetworkFailure e)); [eexists; by apply classified_network |].
  eexists; by apply classified_unknown.
Qed.

Lemma Classified_of_handleError (e : Thrown) (c : ErrorCategory) :
  handleError e = newError (categoryMessage c) → Classified e c.
Proof.
  intros H. destruct (Classified_total e) as [c0 Hc0].
  pose proof (handleError_of_Classified e c0 Hc0) as H0.
  rewrite H in H0. apply newError_inj, categoryMessage_inj in H0. by subst.
Qed.

(** C1, as stated, fails: a failure with HTTP status 401 whose message is
    the time-out sentinel is classified Timeout, not AuthInvalid. *)
Lemma handleError_status_401_not_always_auth :
  isAuthStatus timed_out_401
  ∧ handleError timed_out_401 = newError (categoryMessage Timeout)
  ∧ handleError timed_out_401 ≠ newError (categoryMessage AuthInvalid)
  ∧ ¬ Classified timed_out_401 AuthInvalid.
Proof.
  split; [by left |]. split; [reflexivity |]. split; [discriminate |].
  intros H. apply handleError_of_Classified in H. discriminate H.
Qed.

(** C1, amended: [handleError] maps every failure to exactly one of the
    six categories, by first-match precedence over the rules (1) sentinel
    message, (2) status 401 or 403, (3) status 429, (4) status 400 with a
    safety marker, (5) connection code or fetch marker, (6) otherwise
    Unknown with the raw message (the text of the failure itself when the
    message is empty or absent); and a failure with status 401 or 403
    whose message is not the time-out sentinel is AuthInvalid, also when
    its message or code matches the network rule. *)
Theorem handleError_first_match (e : Thrown) :
  (∃ c, Classified e c)
  ∧ (∀ c, Classified e c ↔ handleError e = newError (categoryMessage c))
  ∧ (∀ c c', Classified e c → Classified e c' → c = c')
  ∧ (isAuthStatus e → ¬ isTimeoutSentinel e →
     Classified e AuthInvalid
     ∧ handleError e = newError (categoryMessage AuthInvalid)).
Proof.
  split; [apply Classified_total |].
  split.
  { intros c. split; [apply handleError_of_Classified | apply Classified_of_handleError]. }
  split.
  { intros c c' Hc Hc'. apply handleError_of_Classified in Hc, Hc'.
    rewrite Hc in Hc'. by apply newError_inj, categoryMessage_inj in Hc'. }
  intros Hauth Hnot.
  pose proof (classified_auth e Hnot Hauth) as H.
  split; [exact H | by apply handleError_of_Classified].
Qed.

Lemma handleError_first_match_witness :
  isAuthStatus fetch_failed_403
  ∧ isNetworkFailure fetch_failed_403
  ∧ ¬ isTimeoutSentinel fetch_failed_403
  ∧ Classified fetch_failed_403 AuthInvalid
  ∧ handleError fetch_failed_403 = newError (categoryMessage AuthInvalid).
Proof.
  assert (Ha : isAuthStatus fetch_failed_403) by (by right).
  assert (Hn : ¬ isTimeoutSentinel fetch_failed_403) by discriminate.
  split; [exact Ha |].
  split; [right; right; reflexivity |].
  split; [exact Hn |].
  exact (proj2 (proj2 (proj2 (handleError_first_match fetch_failed_403))) Ha Hn).
Defined.

(** ** Citations *)

Section FilterUnseen.

Implicit Types (seen : gset string) (cs : list Citation) (c : Citation).

Lemma filterUnseen_urls seen cs :
  url <$> filterUnseen seen cs = filter (λ u, u ∉ seen) (firstSeen (url <$> cs)).
Proof.
  revert seen. induction cs as [|c cs IH]; intros seen; [done |].
  cbn [filterUnseen fmap list_fmap firstSeen]. destruct (decide (url c ∈ seen)) as [Hin|Hout].
  - rewrite filter_cons_False by (intros H; by apply H).
    rewrite list_filter_filter, IH. apply list_filter_iff. intros u. set_solver.
  - rewrite filter_cons_True by done. cbn [fmap list_fmap]. f_equal.
    rewrite list_filter_filter, IH. apply list_filter_iff. intros u. set_solver.
Qed.

Lemma filterUnseen_sublist seen cs : filterUnseen seen cs `sublist_of` cs.
Proof.
  revert seen. induction cs as [|c cs IH]; intros seen; simpl; [done |].
  destruct (decide (url c ∈ seen)); [by apply sublist_cons | by apply sublist_skip].
Qed.

Lemma filterUnseen_fresh seen cs c : c ∈ filterUnseen seen cs → url c ∉ seen.
Proof.
  revert seen. induction cs as [|c0 cs IH]; intros seen; simpl; [by intros ?%elem_of_nil |].
  destruct (decide (url c0 ∈ seen)); [by apply IH |].
  intros [->|H]%elem_of_cons; [done |]. apply IH in H. set_solver.
Qed.

Lemma filterUnseen_NoDup seen cs : NoDup (url <$> filterUnseen seen cs).
Proof.
  revert seen. induction cs as [|c cs IH]; intros seen; simpl; [constructor |].
  destruct (decide (url c ∈ seen)); [by apply IH |].
  cbn [fmap list_fmap]. constructor; [| by apply IH].
  intros (c' & Heq & Hc')%list_elem_of_fmap. apply filterUnseen_fresh in Hc'.
  set_solver.
Qed.

Lemma filterUnseen_covers seen cs c :
  c ∈ cs → url c ∈ seen ∨ url c ∈ url <$> filterUnseen seen cs.
Proof.
  revert seen. induction cs as [|c0 cs IH]; intros seen; [by intros ?%elem_of_nil |].
  intros [->|H]%elem_of_cons; simpl.
  - destruct (decide (url c0 ∈ seen)); [by left | right; cbn [fmap list_fmap]; set_solver].
  - destruct (decide (url c0 ∈ seen)); [by apply IH |].
    destruct (IH ({[url c0]} ∪ seen) H) as [Hs|Hs]; cbn [fmap list_fmap]; set_solver.
Qed.

Lemma filterUnseen_first seen cs c :
  c ∈ filterUnseen seen cs →
  ∃ before after, cs = before ++ c :: after ∧ ∀ a, a ∈ before → url a ≠ url c.
Proof.
  revert seen. induction cs as [|c0 cs IH]; intros seen; simpl; [by intros ?%elem_of_nil |].
  destruct (decide (url c0 ∈ seen)) as [Hin|Hout].
  - intros H. pose proof (filterUnseen_fresh _ _ _ H) as Hfresh.
    destruct (IH _ H) as (before & after & -> & Hb).
    exists (c0 :: before), after. split; [done |].
    intros a [->|Ha]%elem_of_cons; [congruence | by apply Hb].
  - intros [->|H]%elem_of_cons.
    + exists [], cs. split; [done |]. by intros a ?%elem_of_nil.
    + pose proof (filterUnseen_fresh _ _ _ H) as Hfresh.
      destruct (IH _ H) as (before & after & -> & Hb).
      exists (c0 :: before), after. split; [done |].
      intros a [->|Ha]%elem_of_cons; [set_solver | by apply Hb].
Qed.

Lemma filter_not_in_empty (l : list string)
    (dec : ∀ u : string, Decision (u ∉ (∅ : gset string))) :
  @filter string (list string) _ (λ u, u ∉ (∅ : gset string)) dec l = l.
Proof.
  induction l as [|u l IH]; [done |].
  rewrite filter_cons_True by set_solver. by f_equal.
Qed.

End FilterUnseen.

(** C3: the search-response extractor keeps, of the citations harvested
    from the response, exactly the first one for each URL, with the title
    of that first occurrence (["Untitled"] when the annotation has none),
    and in first-seen order. *)
Theorem extractSearchResponse_first_occurrence_wins (response : Response) :
  let anns := citedAnnotations response in
  let out := citations (extractSearchResponse response) in
  NoDup (url <$> out)
  ∧ (∀ ann, ann ∈ anns → url (citationOf ann) ∈ url <$> out)
  ∧ (∀ c, c ∈ out →
       ∃ before ann after,
         anns = before ++ ann :: after ∧ c = citationOf ann
         ∧ title c = Js.orElse (ann_title ann) "Untitled"
         ∧ ∀ a, a ∈ before → url (citationOf a) ≠ url c)
  ∧ (∀ ann, ann_title ann = None → title (citationOf ann) = "Untitled")
  ∧ out `sublist_of` (citationOf <$> anns)
  ∧ url <$> out = firstSeen (url <$> (citationOf <$> anns)).
Proof.
  intros anns out. subst out. unfold extractSearchResponse, harvestCitations.
  cbn [citations]. fold anns.
  split; [apply filterUnseen_NoDup |].
  split.
  { intros ann Hann.
    destruct (filterUnseen_covers ∅ (citationOf <$> anns) (citationOf ann)) as [H|H];
      [by apply list_elem_of_fmap_2 | set_solver | done]. }
  split.
  { intros c Hc. apply filterUnseen_first in Hc as (before & after & Heq & Hb).
    apply fmap_app_inv in Heq as (before' & rest & -> & Hrest & ->).
    symmetry in Hrest. apply fmap_cons_inv in Hrest as (ann & after' & -> & -> & ->).
    exists before', ann, after'. repeat split.
    intros a Ha. apply Hb. by apply list_elem_of_fmap_2. }
  split; [by intros ann; unfold citationOf; simpl; intros -> |].
  split; [apply filterUnseen_sublist |].
  rewrite filterUnseen_urls. apply filter_not_in_empty.
Qed.

Example extractSearchResponse_two_messages :
  extractSearchResponse two_messages_three_citations =
    {| search_text := "Rocq is a proof assistant.";
       citations := [ {| title := "Rocq"; url := "https://rocq-prover.org" |};
                      {| title := "Untitled"; url := "https://example.org" |} ] |}.
Proof. vm_compute. reflexivity. Qed.

(** ** File upload *)

Lemma uploadFile_unsupported timeout w model filePath query upFile up :
  Js.toLowerCase (Path.extname (Path.resolve (cwd w) [filePath]))
    ∉ OpenAIClient.UPLOAD_SUPPORTED_EXTENSIONS →
  OpenAIClient.uploadFile timeout w model filePath query upFile up =
  OpenAIClient.uploadViaInlineText timeout w model (Path.resolve (cwd w) [filePath])
    (Path.basename (Path.resolve (cwd w) [filePath])) query up.
Proof. intros H. unfold OpenAIClient.uploadFile. by rewrite decide_False. Qed.

Lemma uploadFile_supported timeout w model filePath query upFile up :
  Js.toLowerCase (Path.extname (Path.resolve (cwd w) [filePath]))
    ∈ OpenAIClient.UPLOAD_SUPPORTED_EXTENSIONS →
  OpenAIClient.uploadFile timeout w model filePath query upFile up =
  OpenAIClient.uploadViaFilesApi timeout model (Path.resolve (cwd w) [filePath])
    (Path.basename (Path.resolve (cwd w) [filePath])) query upFile up.
Proof. intros H. unfold OpenAIClient.uploadFile. by rewrite decide_True. Qed.

Lemma inlineFenceTag_of_extension absolutePath :
  OpenAIClient.inlineFenceTag absolutePath
  = fenceTag (Js.toLowerCase (Path.extname absolutePath)).
Proof.
  unfold OpenAIClient.inlineFenceTag.
  destruct (Js.toLowerCase (Path.extname absolutePath)) as [|c t]; [done |].
  by rewrite sliceFrom_tail.
Qed.

(** C4: the upload operation selects its strategy by the lower-cased
    extension of the resolved path.  Outside the allow-list it never calls
    the Files API: it reads the file and sends one request, whose single
    block has the role [user] and is the text made of the line
    [File: name], an empty line, a fenced block opened by three backquotes
    and the extension without its dot ([text] when nothing is left of it)
    that holds the content of the file, an empty line and the question
    (or the default instruction); every result it returns has the file id
    ["inline"].  Inside the allow-list it first calls the Files API, and
    every result it returns carries the file id the provider gave. *)
Theorem uploadFile_strategy_by_extension
    (timeout : Js.number) (w : World) (model filePath : string)
    (query : option string) (upFile : Completion FileObject) (up : Settle Response) :
  let absolutePath := Path.resolve (cwd w) [filePath] in
  let name := Path.basename absolutePath in
  let ext := Js.toLowerCase (Path.extname absolutePath) in
  let outcome := run (OpenAIClient.uploadFile timeout w model filePath query upFile up) in
  (ext ∉ OpenAIClient.UPLOAD_SUPPORTED_EXTENSIONS →
     (∀ path purpose deadline,
        Upstream (files_create path purpose) deadline ∉ outcome.2)
     ∧ (∀ result, outcome.1 = Returned result → fileId result = "inline")
     ∧ (∀ fileContent, files w !! absolutePath = Some fileContent →
          outcome.2 =
            [Upstream
               (responses_create model
                  [{| role := "user";
                      content :=
                        Plain ("File: " +:+ name +:+ Js.LF +:+ Js.LF
                               +:+ "```" +:+ fenceTag ext +:+ Js.LF
                               +:+ fileContent +:+ Js.LF
                               +:+ "```" +:+ Js.LF +:+ Js.LF
                               +:+ match query with
                                   | Some question =>
                                       if decide (question = "")
                                       then "Analyze this file and provide a detailed summary."
                                       else question
                                   | None =>
                                       "Analyze this file and provide a detailed summary."
                                   end) |}]
                  [] None)
               (Some (Js.mul timeout (Js.Num 3)))]
          ∧ ∀ response, up = Fulfilled response →
              outcome.1 = Returned {| upload_text := extractText response;
                                      fileName := name; fileId := "inline" |})
     ∧ (∀ t, ext = String "." t → t ≠ "" → fenceTag ext = t))
  ∧ (ext ∈ OpenAIClient.UPLOAD_SUPPORTED_EXTENSIONS →
     (∃ later,
        outcome.2 = Upstream (files_create absolutePath "assistants") None :: later)
     ∧ (∀ result, outcome.1 = Returned result →
          ∃ file, upFile = Returned file ∧ fileId result = file_id file
                  ∧ fileName result = name)
     ∧ (∀ file, upFile = Returned file → Js.truthy query = false →
          ∃ text, outcome.1 = Returned {| upload_text := text; fileName := name;
                                          fileId := file_id file |})
     ∧ (∀ file response, upFile = Returned file → Js.truthy query = true →
          up = Fulfilled response →
          outcome.1 = Returned {| upload_text := extractText response;
                                  fileName := name; fileId := file_id file |})).
Proof.
  intros absolutePath name ext outcome. split; intros Hext.
  - assert (Htag : ∀ t, ext = String "." t → t ≠ "" → fenceTag ext = t).
    { intros t -> Ht. cbn. by rewrite decide_False. }
    subst outcome. rewrite uploadFile_unsupported by exact Hext.
    fold absolutePath name.
    unfold run, OpenAIClient.uploadViaInlineText, bind, readFileSync.
    destruct (files w !! absolutePath) as [fileContent|] eqn:Hfile.
    + unfold ret, awaitRace. cbn [app].
      split; [destruct up; cbn [fst snd];
              intros path purpose deadline [H|H%elem_of_nil]%elem_of_cons; done |].
      split; [destruct up; cbn [fst snd]; intros result H; by simplify_eq |].
      split; [| exact Htag].
      intros ? [= <-]. split; [| by intros response ->].
      rewrite inlineFenceTag_of_extension. fold ext. by destruct up.
    + split.
      { intros path purpose deadline. destruct (decide _); cbn; by intros ?%elem_of_nil. }
      split; [destruct (decide _); cbn; by intros result H |].
      split; [by intros ? [=] | exact Htag].
  - subst outcome. rewrite uploadFile_supported by exact Hext.
    fold absolutePath name.
    unfold run, OpenAIClient.uploadViaFilesApi, bind, awaitBare.
    cbn [app].
    destruct upFile as [file| |]; cbn [fst snd].
    + destruct (Js.truthy query) eqn:Hq; cbn [negb].
      * unfold ret, awaitRace. cbn [app].
        split; [destruct up; by eexists |].
        split; [destruct up; cbn [fst snd]; intros result H; simplify_eq;
                by exists file |].
        split; [by intros ? _ [=] |].
        intros ? response [= <-] _ ->. done.
      * unfold ret. cbn [fst snd].
        split; [by eexists |].
        split; [intros result [= <-]; by exists file |].
        split; [intros ? [= <-] _; by eexists |].
        by intros ? response _ [=].
    + split; [by eexists |]. split; [by intros result [=] |].
      split; [by intros ? [=] | by intros ? ? [=]].
    + split; [by eexists |]. split; [by intros result [=] |].
      split; [by intros ? [=] | by intros ? ? [=]].
Qed.

Lemma uploadFile_strategy_by_extension_witness :
  (Js.toLowerCase (Path.extname (Path.resolve (cwd sample_world) ["main.ts"]))
     ∉ OpenAIClient.UPLOAD_SUPPORTED_EXTENSIONS)
  ∧ run (OpenAIClient.uploadFile (Js.Num 60000) sample_world "gpt-4.1" "main.ts"
           None Hung (Fulfilled (answer "A constant.")))
    = (Returned {| upload_text := "A constant."; fileName := "main.ts";
                   fileId := "inline" |},
       [Upstream
          (responses_create "gpt-4.1"
             [{| role := "user";
                 content := Plain "File: main.ts

```ts
let x = 1
```

Analyze this file and provide a detailed summary." |}]
             [] None)
          (Some (Js.Num 180000))])
  ∧ Js.toLowerCase (Path.extname (Path.resolve (cwd sample_world) ["notes.TXT"]))
      ∈ OpenAIClient.UPLOAD_SUPPORTED_EXTENSIONS
  ∧ fst (run (OpenAIClient.uploadFile (Js.Num 60000) sample_world "gpt-4.1" "notes.TXT"
                (Some "What is on the list?") (Returned {| file_id := "file-7" |})
                (Fulfilled (answer "Milk."))))
    = Returned {| upload_text := "Milk."; fileName := "notes.TXT";
                  fileId := "file-7" |}.
Proof.
  assert (Hout : Js.toLowerCase (Path.extname (Path.resolve (cwd sample_world) ["main.ts"]))
                   ∉ OpenAIClient.UPLOAD_SUPPORTED_EXTENSIONS)
    by (apply (bool_decide_unpack _); vm_compute; exact I).
  assert (Hin : Js.toLowerCase (Path.extname (Path.resolve (cwd sample_world) ["notes.TXT"]))
                  ∈ OpenAIClient.UPLOAD_SUPPORTED_EXTENSIONS)
    by (apply (bool_decide_unpack _); vm_compute; exact I).
  split; [exact Hout |]. split; [| split; [exact Hin |]].
  - pose proof (proj1 (uploadFile_strategy_by_extension (Js.Num 60000) sample_world
                         "gpt-4.1" "main.ts" None Hung (Fulfilled (answer "A constant.")))
                  Hout) as (_ & _ & Hinline & _).
    destruct (Hinline "let x = 1") as [Htrace Hres]; [vm_compute; reflexivity |].
    apply injective_projections; [exact (Hres (answer "A constant.") eq_refl) |].
    etransitivity; [exact Htrace |]. vm_compute. reflexivity.
  - pose proof (proj2 (uploadFile_strategy_by_extension (Js.Num 60000) sample_world
                         "gpt-4.1" "notes.TXT" (Some "What is on the list?")
                         (Returned {| file_id := "file-7" |}) (Fulfilled (answer "Milk.")))
                  Hin) as (_ & _ & _ & Hasked).
    exact (Hasked {| file_id := "file-7" |} (answer "Milk.") eq_refl eq_refl eq_refl).
Defined.

(** ** Deadlines *)

Lemma racedAgainst_nil ms : racedAgainst ms [].
Proof. by intros req d ?%elem_of_nil. Qed.

Lemma racedAgainst_singleton ms req : racedAgainst ms [Upstream req (Some ms)].
Proof. intros req' d [H|H%elem_of_nil]%elem_of_cons; [by simplify_eq | done]. Qed.

Create HintDb deadlines.
Local Hint Resolve racedAgainst_nil racedAgainst_singleton : deadlines.

Local Ltac one_race up :=
  unfold run, rethrowing, bind, awaitRace, ret; cbn [app];
  destruct up; cbn [snd]; auto with deadlines.

(** The multiplier of each operation whose every upstream call is raced
    against the timer: 1 for plain generation, 2 for vision analysis and
    speech synthesis, 3 for web search, code execution, URL fetch, inline
    upload, image generation, image edit and transcription, 5 for
    reasoning. *)
Lemma deadline_multipliers (timeout : Js.number) (w : World) :
  (∀ model prompt sys up,
     racedAgainst timeout (run (OpenAIClient.generate timeout model prompt sys up)).2)
  ∧ (∀ model prompt image mime up,
       racedAgainst (Js.mul timeout (Js.Num 2))
         (run (OpenAIClient.analyzeImage timeout model prompt image mime up)).2)
  ∧ (∀ text model voice speed format up,
       racedAgainst (Js.mul timeout (Js.Num 2))
         (run (OpenAIClient.textToSpeech timeout text model voice speed format up)).2)
  ∧ (∀ model query sys up,
       racedAgainst (Js.mul timeout (Js.Num 3))
         (run (OpenAIClient.searchWeb timeout model query sys up)).2)
  ∧ (∀ model prompt sys up,
       racedAgainst (Js.mul timeout (Js.Num 3))
         (run (OpenAIClient.executeCode timeout model prompt sys up)).2)
  ∧ (∀ model prompt urls sys up,
       racedAgainst (Js.mul timeout (Js.Num 3))
         (run (OpenAIClient.fetchUrl timeout model prompt urls sys up)).2)
  ∧ (∀ audioPath model language prompt up,
       racedAgainst (Js.mul timeout (Js.Num 3))
         (run (OpenAIClient.transcribe timeout w audioPath model language prompt up)).2)
  ∧ (∀ prompt size quality n up,
       racedAgainst (Js.mul timeout (Js.Num 3))
         (run (OpenAIClient.generateImage timeout prompt size quality n up)).2)
  ∧ (∀ model absolutePath name query up,
       racedAgainst (Js.mul timeout (Js.Num 3))
         (run (OpenAIClient.uploadViaInlineText timeout w model absolutePath name
                 query up)).2)
  ∧ (∀ prompt imagePath maskPath size quality up,
       racedAgainst (Js.mul timeout (Js.Num 3))
         (run (OpenAIClient.editImage timeout w prompt imagePath maskPath size
                 quality up)).2)
  ∧ (∀ model prompt effort up,
       racedAgainst (Js.mul timeout (Js.Num 5))
         (run (OpenAIClient.generateWithReasoning timeout model prompt effort up)).2).
Proof.
  repeat split; intros.
  - unfold OpenAIClient.generate. one_race up.
  - unfold OpenAIClient.analyzeImage. one_race up.
  - unfold OpenAIClient.textToSpeech. one_race up.
  - unfold OpenAIClient.searchWeb. one_race up.
  - unfold OpenAIClient.executeCode. one_race up.
  - unfold OpenAIClient.fetchUrl. one_race up.
  - unfold OpenAIClient.transcribe. one_race up.
  - unfold OpenAIClient.generateImage. one_race up.
  - unfold OpenAIClient.uploadViaInlineText, readFileSync.
    destruct (files w !! absolutePath); [one_race up |].
    destruct (decide _); unfold run, bind, throw; cbn; auto with deadlines.
  - unfold OpenAIClient.editImage, OpenAIClient.loadImageFile, readFileSync.
    unfold run, rethrowing, bind, awaitRace, ret, throw.
    repeat (case_match; simplify_eq; cbn [app snd]); auto with deadlines.
  - unfold OpenAIClient.generateWithReasoning. one_race up.
Qed.

(** When the timer wins the race the caller sees the Timeout category,
    and so does every failure that carries the sentinel message, whatever
    its HTTP status. *)
Lemma timeout_sentinel_is_Timeout (e : Thrown) :
  isTimeoutSentinel e → handleError e = newError (categoryMessage Timeout).
Proof. intros H. by apply handleError_of_Classified, classified_timeout. Qed.

Lemma timer_first_is_Timeout timeout model prompt sys :
  (run (OpenAIClient.generate timeout model prompt sys TimerFirst)).1
  = Threw (newError (categoryMessage Timeout)).
Proof. reflexivity. Qed.

(** C2: the request that uploads a file to the Files API is awaited
    without a deadline.  With the base time-out of 60000 ms and a provider
    that never answers, uploading [notes.txt] issues the request with no
    timer and never completes, where the claim has a deadline of three
    times the base. *)
Theorem uploadFile_files_api_request_has_no_deadline :
  run (OpenAIClient.uploadFile (Js.Num 60000) sample_world "gpt-4.1" "notes.txt"
         None Hung TimerFirst)
  = (Hung, [Upstream (files_create "/srv/notes.txt" "assistants") None])
  ∧ ¬ racedAgainst (Js.mul (Js.Num 60000) (Js.Num 3))
        (run (OpenAIClient.uploadFile (Js.Num 60000) sample_world "gpt-4.1" "notes.txt"
                None Hung TimerFirst)).2.
Proof.
  assert (Hrun : run (OpenAIClient.uploadFile (Js.Num 60000) sample_world "gpt-4.1"
                        "notes.txt" None Hung TimerFirst)
                 = (Hung, [Upstream (files_create "/srv/notes.txt" "assistants") None]))
    by (vm_compute; reflexivity).
  split; [exact Hrun |].
  rewrite Hrun. intros H.
  specialize (H (files_create "/srv/notes.txt" "assistants") None).
  discriminate H. cbn. apply list_elem_of_here.
Qed.

(** ** Start-up configuration *)

(** What the two guards of [loadConfig] do establish: without a
    credential, and with a time-out that parses to a number that is not
    positive, start-up is fatal; a configuration that is returned has a
    time-out that is positive or is not a number at all. *)
Lemma loadConfig_guards (env : ProcessEnv) :
  (Js.truthy (OPENAI_API_KEY env) = false →
     ∃ e log, loadConfig env = inl e ∧ Server.main env = Server.Exited 1 log)
  ∧ (∀ s z, OPENAI_TIMEOUT env = Some s → s ≠ "" → Js.parseInt s = Js.Num z → z ≤ 0 →
       ∃ e log, loadConfig env = inl e ∧ Server.main env = Server.Exited 1 log)
  ∧ (∀ config, loadConfig env = inr config →
       timeout config = Js.NaN ∨ positiveInteger (timeout config)).
Proof.
  unfold Server.main, loadConfig. split; [| split].
  - intros ->. cbn. by do 2 eexists.
  - intros s z Hs Hne Hparse Hz.
    destruct (Js.truthy (OPENAI_API_KEY env)); cbn [negb]; [| by do 2 eexists].
    rewrite Hs. cbn [Js.truthy Js.interpolate from_option id].
    rewrite decide_False by done. rewrite Hparse.
    cbn [Js.le]. replace (z <=? 0) with true by (symmetry; by apply Z.leb_le).
    by do 2 eexists.
  - intros config.
    destruct (Js.truthy (OPENAI_API_KEY env)); cbn [negb]; [| done].
    destruct (Js.truthy (OPENAI_TIMEOUT env)).
    + destruct (Js.parseInt _) as [|z]; cbn [Js.le].
      * intros [= <-]. by left.
      * destruct (z <=? 0) eqn:Hz; [done |]. intros [= <-]. right.
        cbn. apply Z.leb_gt in Hz. lia.
    + cbn. intros [= <-]. right. cbn. lia.
Qed.

(** C8: with the credential set and [OPENAI_TIMEOUT=abc], [loadConfig]
    returns a configuration whose time-out is [NaN], and the server starts
    serving, where the claim has a fatal configuration error. *)
Theorem loadConfig_accepts_unparsable_timeout :
  loadConfig unparsable_timeout_env
  = inr {| apiKey := "sk-test"; defaultModel := "gpt-4.1"; timeout := Js.NaN;
           outputDir := "./generated-media" |}
  ∧ ¬ positiveInteger Js.NaN
  ∧ Server.main unparsable_timeout_env
    = Server.Serving {| apiKey := "sk-test"; defaultModel := "gpt-4.1";
                        timeout := Js.NaN; outputDir := "./generated-media" |}.
Proof. split; [reflexivity |]. split; [by intros [] | reflexivity]. Qed.

(** ** Save paths of generated images *)

Lemma substring_prefix (base rest : string) :
  String.substring 0 (String.length base) (base +:+ rest) = base.
Proof.
  induction base as [|c base IH]; [by destruct rest |].
  rewrite append_cons. simpl. by rewrite IH.
Qed.

Lemma slice_off_suffix (base ext : string) :
  ext ≠ "" → Js.slice (base +:+ ext) 0 (- Js.strlen ext) = base.
Proof.
  intros Hext. unfold Js.slice, Js.sliceIndex, Js.strlen. rewrite append_length.
  assert (0 < String.length ext)%nat by (destruct ext; [done | simpl; lia]).
  replace (0 <? 0) with false by done.
  replace (- Z.of_nat (String.length ext) <? 0) with true
    by (symmetry; apply Z.ltb_lt; lia).
  replace (Z.min 0 _) with 0 by lia.
  replace (Z.to_nat 0) with 0%nat by done.
  replace (Z.to_nat _) with (String.length base) by lia.
  apply substring_prefix.
Qed.

Section SavePaths.

Variables (config : Config) (w : World).

(** With one image the explicit path is used as it is. *)
Lemma chooseSavePath_single (save_path : string) (i : nat) :
  save_path ≠ "" →
  Server.chooseSavePath config w (Some save_path) 1 i = save_path.
Proof.
  intros H. unfold Server.chooseSavePath. cbn [Js.truthy].
  by rewrite decide_False.
Qed.

(** With several images and a path that ends with the extension that
    [path.extname] finds in it, the index goes before the extension. *)
Lemma chooseSavePath_indexed (base ext : string) (count i : nat) :
  Path.extname (base +:+ ext) = ext → ext ≠ "" → count ≠ 1%nat →
  Server.chooseSavePath config w (Some (base +:+ ext)) count i
  = base +:+ "_" +:+ pretty i +:+ ext.
Proof.
  intros Hext Hne Hcount. unfold Server.chooseSavePath. cbn [Js.truthy].
  assert (base +:+ ext ≠ "") by (destruct base; [by destruct ext | done]).
  rewrite decide_False by done. rewrite bool_decide_eq_false_2 by done.
  cbn [andb Js.interpolate from_option id]. rewrite Hext.
  by rewrite slice_off_suffix.
Qed.

(** With several images the paths computed from an explicit path differ
    from one index to the other. *)
Lemma chooseSavePath_distinct (save_path : string) (count i j : nat) :
  save_path ≠ "" → count ≠ 1%nat → i ≠ j →
  Server.chooseSavePath config w (Some save_path) count i
  ≠ Server.chooseSavePath config w (Some save_path) count j.
Proof.
  intros Hne Hcount Hij. unfold Server.chooseSavePath. cbn [Js.truthy].
  rewrite decide_False by done. rewrite bool_decide_eq_false_2 by done.
  cbn [andb]. intros H.
  apply String.app_inj, String.app_inj, append_cancel_r in H.
  by apply (inj pretty) in H.
Qed.

(** Without an explicit path every image gets the generated one. *)
Lemma chooseSavePath_auto (count i : nat) :
  Server.chooseSavePath config w None count i
  = Path.resolve (cwd w)
      [outputDir config;
       "generated" +:+ "-" +:+ Js.replaceColonDot (isoTime w i) +:+ "." +:+ "png"].
Proof. reflexivity. Qed.

End SavePaths.

(** C6: with the explicit save path [out/image], which has no extension,
    and two images, the computed paths are [_0] and [_1]: the explicit
    path is dropped, where the claim has [out/image_0] and [out/image_1]. *)
Theorem generate_image_extensionless_save_path :
  Path.extname "out/image" = ""
  ∧ Js.slice "out/image" 0 (- Js.strlen "") = ""
  ∧ Server.chooseSavePath sample_config sample_world (Some "out/image") 2 0 = "_0"
  ∧ Server.chooseSavePath sample_config sample_world (Some "out/image") 2 1 = "_1"
  ∧ run (Server.generate_image sample_config sample_world extensionless_args
           (Fulfilled two_images))
    = (Returned (success [image_part "aGVsbG8=" "image/png";
                          text_part "Image 1 saved to: _0";
                          image_part "d29ybGQ=" "image/png";
                          text_part "Image 2 saved to: _1"]),
       [Upstream (images_generate "gpt-image-1.5" "a lighthouse at dusk"
                    "auto" "auto" 2 "png")
          (Some (Js.Num 180000));
        WriteFile "_0" (fromBase64 "aGVsbG8=");
        WriteFile "_1" (fromBase64 "d29ybGQ=")]).
Proof. repeat split; vm_compute; reflexivity. Qed.

(** The same request with [out/image.png] gets the two indexed paths. *)
Example generate_image_indexed_paths :
  Server.chooseSavePath sample_config sample_world (Some "out/image.png") 2 0
  = "out/image_0.png"
  ∧ Server.chooseSavePath sample_config sample_world (Some "out/image.png") 2 1
    = "out/image_1.png".
Proof. split; vm_compute; reflexivity. Qed.

(** ** Reasoning about tasks *)

Section TaskLaws.

Context {A B : Type}.
Implicit Types (m : Task A) (k : A → Task B) (tr : list Effect).

Lemma bind_Returned m k tr a tr' :
  m tr = (Returned a, tr') → bind m k tr = k a tr'.
Proof. unfold bind. by intros ->. Qed.

Lemma bind_Threw m k tr e tr' :
  m tr = (Threw e, tr') → bind m k tr = (Threw e, tr').
Proof. unfold bind. by intros ->. Qed.

Lemma bind_Returned_inv m k tr b tr'' :
  bind m k tr = (Returned b, tr'') →
  ∃ a tr', m tr = (Returned a, tr') ∧ k a tr' = (Returned b, tr'').
Proof.
  unfold bind. destruct (m tr) as [[a|e|] tr']; [by eauto | done | done].
Qed.

End TaskLaws.

Lemma rethrowing_Returned {A} h (body : Task A) tr a tr' :
  rethrowing h body tr = (Returned a, tr') ↔ body tr = (Returned a, tr').
Proof.
  unfold rethrowing. by destruct (body tr) as [[a'|e|] tr''].
Qed.

Lemma catchAll_Returned body tr reply tr' :
  body tr = (Returned reply, tr') → catchAll body tr = (Returned reply, tr').
Proof. unfold catchAll. by intros ->. Qed.

Lemma catchAll_success body tr reply tr' :
  catchAll body tr = (Returned reply, tr') → isError reply = false →
  body tr = (Returned reply, tr').
Proof.
  unfold catchAll. destruct (body tr) as [[r|e|] tr'']; [done | | done].
  intros ?. by simplify_eq.
Qed.

Lemma parseGenerateImage_Returned args tr a tr' :
  parseGenerateImage args tr = (Returned a, tr') → a = args ∧ tr' = tr.
Proof.
  unfold parseGenerateImage, throw, ret.
  repeat (case_match; try done). intros ?. by simplify_eq.
Qed.

Lemma parseEditImage_Returned args tr a tr' :
  parseEditImage args tr = (Returned a, tr') → a = args ∧ tr' = tr.
Proof.
  unfold parseEditImage, throw, ret.
  repeat (case_match; try done). intros ?. by simplify_eq.
Qed.

(** ** Saving images *)

Section Saving.

Variables (config : Config) (w : World).

Lemma mkdirSync_run (path : string) (tr : list Effect) :
  mkdirSync w path tr = (Returned (), tr ++ [MakeDir path])
  ∨ ∃ e, mkdirSync w path tr = (Threw e, tr).
Proof. unfold mkdirSync. repeat case_match; eauto. Qed.

Lemma writeFileSync_run (path : string) (contents : Buffer) (tr : list Effect) :
  writeFileSync w path contents tr = (Returned (), tr ++ [WriteFile path contents])
  ∨ ∃ e, writeFileSync w path contents tr = (Threw e, tr).
Proof. unfold writeFileSync. repeat case_match; eauto. Qed.

(** [saveImage] creates the directory at most once and then writes the
    file, or throws what one of the two calls throws. *)
Lemma saveImage_run (payload savePath : string) (tr : list Effect) :
  ∃ made,
    (made = [] ∨ made = [MakeDir (Path.dirname savePath)])
    ∧ (Server.saveImage w payload savePath tr
       = (Returned savePath, tr ++ made ++ [WriteFile savePath (fromBase64 payload)])
       ∨ ∃ e, Server.saveImage w payload savePath tr = (Threw e, tr ++ made)).
Proof.
  unfold Server.saveImage, Server.saveFile, bind, existsSyncNow.
  destruct (isFile w tr _ || isDirectory w tr _); cbn [negb].
  - exists []. split; [by left |]. unfold ret. rewrite app_nil_l, app_nil_r.
    destruct (writeFileSync_run savePath (fromBase64 payload) tr) as [-> | [e ->]];
      [by left | right; by exists e].
  - destruct (mkdirSync_run (Path.dirname savePath) tr) as [-> | [e ->]].
    + exists [MakeDir (Path.dirname savePath)]. split; [by right |].
      destruct (writeFileSync_run savePath (fromBase64 payload)
                  (tr ++ [MakeDir (Path.dirname savePath)])) as [-> | [e ->]].
      * left. unfold ret. by rewrite <- app_assoc.
      * right. by exists e.
    + exists []. split; [by left |]. right. exists e. by rewrite app_nil_r.
Qed.

Lemma writesOf_app (a b : list Effect) : writesOf (a ++ b) = writesOf a ++ writesOf b.
Proof. apply omap_app. Qed.

(** The loop of [generate_image] stops at the first image that cannot be
    saved; when it ends normally, for the image at offset [j] of its
    input it has pushed the inline binary and then the text with the
    path, and its writes are those of the payloads, in order, each to its
    path. *)
Lemma saveLoop_run (save_path : option string) (count : nat) (rest : list Image) :
  ∀ (i : nat) (tr : list Effect),
  ∃ effects,
    (∀ req deadline, Upstream req deadline ∉ effects)
    ∧ ((∃ e, Server.saveLoop config w save_path count i rest tr = (Threw e, tr ++ effects))
       ∨ ∃ parts,
           Server.saveLoop config w save_path count i rest tr
           = (Returned parts, tr ++ effects)
           ∧ length parts = (2 * length rest)%nat
           ∧ writesOf effects
             = imap (λ j img, (Server.chooseSavePath config w save_path count (i + j),
                               fromBase64 (b64 img))) rest
           ∧ ∀ j img, rest !! j = Some img →
               let savePath := Server.chooseSavePath config w save_path count (i + j) in
               parts !! (2 * j)%nat = Some (image_part (b64 img) "image/png")
               ∧ parts !! (2 * j + 1)%nat
                 = Some (text_part (Server.savedText ("Image " +:+ pretty (i + j + 1)%nat)
                                      savePath img))
               ∧ WriteFile savePath (fromBase64 (b64 img)) ∈ effects).
Proof.
  induction rest as [|img rest IH]; intros i tr.
  - exists []. split; [by intros ?? ?%elem_of_nil |]. right. exists [].
    cbn [Server.saveLoop]. unfold ret. rewrite app_nil_r.
    split; [done |]. split; [done |]. split; [done |]. by intros j img' ?.
  - cbn [Server.saveLoop].
    destruct (saveImage_run (b64 img) (Server.chooseSavePath config w save_path count i) tr)
      as (made & Hmade & [Hsave | [e Hsave]]).
    + rewrite (bind_Returned _ _ _ _ _ Hsave).
      destruct (IH (S i) (tr ++ made
                         ++ [WriteFile (Server.chooseSavePath config w save_path count i)
                               (fromBase64 (b64 img))]))
        as (effects & Hup & Hloop).
      exists (made ++ [WriteFile (Server.chooseSavePath config w save_path count i)
                         (fromBase64 (b64 img))] ++ effects).
      split.
      { intros req deadline [H|[H|H]%elem_of_app]%elem_of_app.
        - destruct Hmade as [-> | ->]; [by apply elem_of_nil in H |].
          by apply list_elem_of_singleton in H.
        - by apply list_elem_of_singleton in H.
        - by apply Hup in H. }
      destruct Hloop as [[e Hloop] | (parts & Hloop & Hlen & Hwrites & Hpoint)].
      * left. exists e. rewrite (bind_Threw _ _ _ _ _ Hloop). by rewrite <- !app_assoc.
      * right. rewrite (bind_Returned _ _ _ _ _ Hloop). unfold ret. eexists.
        split; [by rewrite <- !app_assoc |].
        split; [cbn [length app]; lia |].
        split.
        { rewrite !writesOf_app, Hwrites.
          replace (writesOf made) with (@nil (string * Buffer))
            by (by destruct Hmade as [-> | ->]).
          cbn [app writesOf omap list_omap imap]. replace (i + 0)%nat with i by lia.
          f_equal. apply imap_ext. intros j img' _. cbn.
          by replace (i + S j)%nat with (S i + j)%nat by lia. }
        intros [|j] img' Hj; cbv zeta.
        -- replace (i + 0)%nat with i by lia. injection Hj as <-.
           split; [done |]. split; [done |]. set_solver.
        -- cbn [lookup list_lookup] in Hj. destruct (Hpoint j img' Hj) as (H1 & H2 & H3).
           replace (i + S j)%nat with (S i + j)%nat by lia.
           replace (2 * S j)%nat with (S (S (2 * j))) by lia.
           replace (S (S (2 * j)) + 1)%nat with (S (S (2 * j + 1))) by lia.
           split; [exact H1 |]. split; [exact H2 |]. set_solver.
    + exists made. split.
      { intros req deadline H. destruct Hmade as [-> | ->]; [by apply elem_of_nil in H |].
        by apply list_elem_of_singleton in H. }
      left. exists e. by rewrite (bind_Threw _ _ _ _ _ Hsave).
Qed.

(** A write is what the file holds at the end when no later write goes
    to the same file. *)
Lemma overwrite_elsewhere (after : list (string * Buffer)) (absolute : string) :
  (∀ write, write ∈ after → Path.resolve (cwd w) [write.1] ≠ absolute) →
  ∀ disk, foldl (overwrite w) disk after !! absolute = disk !! absolute.
Proof.
  induction after as [|write after IH]; intros Hafter disk; [done |].
  cbn [foldl]. rewrite IH by (intros ??; apply Hafter; set_solver).
  apply lookup_insert_ne, Hafter. set_solver.
Qed.

Lemma written_lookup (tr : list Effect) (before after : list (string * Buffer))
    (path : string) (contents : Buffer) :
  writesOf tr = before ++ (path, contents) :: after →
  (∀ write, write ∈ after →
     Path.resolve (cwd w) [write.1] ≠ Path.resolve (cwd w) [path]) →
  written w tr !! Path.resolve (cwd w) [path] = Some contents.
Proof.
  unfold written. intros -> Hafter. rewrite foldl_app. cbn [foldl].
  rewrite overwrite_elsewhere by exact Hafter. apply lookup_insert_eq.
Qed.

End Saving.

(** ** Image results *)

Lemma collectImages_omap (response : ImagesResponse) :
  OpenAIClient.collectImages response = omap payloadOf (default [] (data response)).
Proof.
  unfold OpenAIClient.collectImages. destruct (data response) as [items|]; [| done].
  cbn [default from_option id]. induction items as [|item items IH]; [done |].
  rewrite bind_cons, IH. cbn [omap list_omap]. unfold payloadOf, Js.truthy.
  destruct (b64_json item) as [payload|]; [| done].
  by destruct (decide (payload = "")).
Qed.

Lemma collectImages_payloads (response : ImagesResponse) (img : Image) :
  img ∈ OpenAIClient.collectImages response → b64 img ≠ "".
Proof.
  rewrite collectImages_omap.
  intros (item & _ & Hitem)%list_elem_of_omap. unfold payloadOf in Hitem.
  destruct (b64_json item) as [payload|]; [| done].
  destruct (decide (payload = "")); [done |]. by simplify_eq.
Qed.

Lemma collectImages_nothing (response : ImagesResponse) :
  (∀ item, item ∈ default [] (data response) → Js.truthy (b64_json item) = false) →
  OpenAIClient.collectImages response = [].
Proof.
  rewrite collectImages_omap. induction (default [] (data response)) as [|item items IH];
    intros H; [done |].
  cbn [omap list_omap]. rewrite IH by (intros ??; apply H; set_solver).
  specialize (H item ltac:(set_solver)). unfold payloadOf, Js.truthy in *.
  destruct (b64_json item) as [payload|]; [| done].
  by destruct (decide (payload = "")).
Qed.

Lemma generateImage_run timeout prompt size quality n up tr :
  OpenAIClient.generateImage timeout prompt size quality n up tr
  = (match up with
     | Fulfilled response => Returned {| images := OpenAIClient.collectImages response |}
     | Rejected e => Threw (handleError e)
     | TimerFirst => Threw (handleError timeoutError)
     end,
     tr ++ [Upstream (images_generate "gpt-image-1.5" prompt (Js.orElse size "auto")
                        (Js.orElse quality "auto") (OpenAIClient.countOrOne n) "png")
              (Some (Js.mul timeout (Js.Num 3)))]).
Proof. unfold OpenAIClient.generateImage, rethrowing, bind, awaitRace. by destruct up. Qed.

Lemma editImage_Returned timeout w prompt imagePath maskPath size quality up tr result tr' :
  OpenAIClient.editImage timeout w prompt imagePath maskPath size quality up tr
  = (Returned result, tr') →
  ∃ response, up = Fulfilled response
              ∧ images result = OpenAIClient.collectImages response.
Proof.
  unfold OpenAIClient.editImage. rewrite rethrowing_Returned.
  intros (imageFile & tr1 & _ & H)%bind_Returned_inv.
  apply bind_Returned_inv in H as (mask & tr2 & _ & H).
  apply bind_Returned_inv in H as (response & tr3 & Hrace & H).
  unfold awaitRace in Hrace. unfold ret in H. destruct up; simplify_eq. by eexists.
Qed.

Lemma loadImageFile_run w p tr :
  readable w p → ∃ file, OpenAIClient.loadImageFile w p tr = (Returned file, tr).
Proof.
  intros [bytes Hbytes]. unfold OpenAIClient.loadImageFile, bind, readFileSync.
  rewrite Hbytes. unfold ret. by eexists.
Qed.

Lemma editImage_fulfilled timeout w prompt imagePath maskPath size quality response tr :
  readable w imagePath →
  (Js.truthy maskPath = true → readable w (Js.interpolate maskPath)) →
  ∃ tr',
    OpenAIClient.editImage timeout w prompt imagePath maskPath size quality
      (Fulfilled response) tr
    = (Returned {| images := OpenAIClient.collectImages response |}, tr').
Proof.
  intros Himage Hmask. unfold OpenAIClient.editImage.
  destruct (loadImageFile_run w imagePath tr Himage) as [imageFile Hload].
  destruct (Js.truthy maskPath).
  - destruct (loadImageFile_run w (Js.interpolate maskPath) tr (Hmask eq_refl))
      as [maskFile Hloadm].
    assert (Hmaybe : (m <~ OpenAIClient.loadImageFile w (Js.interpolate maskPath) ;;
                      ret (Some m)) tr = (Returned (Some maskFile), tr))
      by (by rewrite (bind_Returned _ _ _ _ _ Hloadm)).
    eexists. apply rethrowing_Returned. rewrite (bind_Returned _ _ _ _ _ Hload).
    rewrite (bind_Returned _ _ _ _ _ Hmaybe). reflexivity.
  - eexists. apply rethrowing_Returned. rewrite (bind_Returned _ _ _ _ _ Hload).
    reflexivity.
Qed.

(** ** The image tools *)

Section ImageTools.

Variables (config : Config) (w : World).

Lemma generate_image_zero args up result tr tr' :
  accepts parseGenerateImage args →
  OpenAIClient.generateImage (timeout config) (gen_prompt args) (gen_size args)
    (gen_quality args) (gen_n args) up tr = (Returned result, tr') →
  images result = [] →
  Server.generate_image config w args up tr = (Returned (failure NO_IMAGE_GENERATED), tr').
Proof.
  intros Hparse Hcall Hzero. unfold Server.generate_image.
  apply catchAll_Returned. rewrite Hparse. unfold bind at 1. unfold ret at 1.
  rewrite (bind_Returned _ _ _ _ _ Hcall). rewrite Hzero. reflexivity.
Qed.

Lemma edit_image_after_checks args up tr :
  accepts parseEditImage args → editFilesExist w args →
  Server.edit_image config w args up tr
  = catchAll (
      result <~ OpenAIClient.editImage (timeout config) w (edit_prompt args)
                  (Path.resolve (cwd w) [edit_image_path args])
                  (edit_mask_path args) (edit_size args) (edit_quality args) up ;;
      match images result with
      | [] => ret (failure NO_EDITED_IMAGE_GENERATED)
      | image :: _ =>
          let savePath :=
            if Js.truthy (edit_save_path args)
            then Js.interpolate (edit_save_path args)
            else Server.getAutoSavePath w 0 (outputDir config) "edited" "png" in
          savedTo <~ Server.saveImage w (b64 image) savePath ;;
          ret (success [image_part (b64 image) "image/png";
                        text_part (Server.savedText "Edited image" savedTo image)])
      end) tr.
Proof.
  intros Hparse [Himage Hmask]. unfold Server.edit_image, catchAll.
  rewrite Hparse. unfold bind at 1. unfold ret at 1.
  rewrite Himage. cbn [negb].
  destruct (Js.truthy (edit_mask_path args)); [| reflexivity].
  rewrite (Hmask eq_refl). reflexivity.
Qed.

Lemma edit_image_zero args up result tr tr' :
  accepts parseEditImage args → editFilesExist w args →
  OpenAIClient.editImage (timeout config) w (edit_prompt args)
    (Path.resolve (cwd w) [edit_image_path args])
    (edit_mask_path args) (edit_size args) (edit_quality args) up tr
  = (Returned result, tr') →
  images result = [] →
  Server.edit_image config w args up tr
  = (Returned (failure NO_EDITED_IMAGE_GENERATED), tr').
Proof.
  intros Hparse Hfiles Hcall Hzero. rewrite edit_image_after_checks by done.
  apply catchAll_Returned. rewrite (bind_Returned _ _ _ _ _ Hcall).
  by rewrite Hzero.
Qed.

End ImageTools.

(** ** Empty text *)

Lemma itemTexts_nothing (item : OutputItem) :
  (∀ parts part, item_type item = "message" → item_content item = Some parts →
                 part ∈ parts → part_type part ≠ "output_text") →
  itemTexts item = [].
Proof.
  intros H. unfold itemTexts. case_bool_decide as Hmsg; [| done].
  destruct (item_content item) as [parts|]; [| done].
  assert (Hparts : ∀ part, part ∈ parts → part_type part ≠ "output_text")
    by (intros part; by apply H).
  clear H. induction parts as [|part parts IH]; [done |].
  rewrite bind_cons, IH by (intros p ?; apply Hparts; set_solver).
  rewrite bool_decide_eq_false_2; [done |]. apply Hparts. set_solver.
Qed.

Lemma extractText_nothing (response : Response) :
  noOutputText response → extractText response = "".
Proof.
  intros H. unfold extractText. destruct (output response) as [items|] eqn:Hout; [| done].
  assert (Hitems : ∀ item parts part,
            item ∈ items → item_type item = "message" →
            item_content item = Some parts → part ∈ parts →
            part_type part ≠ "output_text")
    by (intros item parts part; by apply H).
  assert (Hnone : items ≫= itemTexts = []).
  { clear Hout H. induction items as [|item items IH]; [done |].
    rewrite bind_cons, IH by (intros i ps p ?; apply Hitems; set_solver).
    rewrite itemTexts_nothing; [done |].
    intros parts part. apply Hitems. set_solver. }
  by rewrite Hnone.
Qed.

(** C9: when no message item of the response has an [output_text] part,
    the text extractor returns the empty string, [generate] returns it,
    and the [ask] tool replies with one empty text part and no error
    flag. *)
Theorem empty_text_is_a_success (response : Response) :
  noOutputText response →
  extractText response = ""
  ∧ (∀ timeout model prompt systemPrompt tr,
       ∃ tr', OpenAIClient.generate timeout model prompt systemPrompt
                (Fulfilled response) tr = (Returned "", tr'))
  ∧ (∀ config args tr,
       accepts parseAsk args →
       ∃ reply tr',
         Server.ask config args (Fulfilled response) tr = (Returned reply, tr')
         ∧ reply_content reply = [text_part ""] ∧ isError reply = false).
Proof.
  intros H. pose proof (extractText_nothing response H) as Htext.
  split; [exact Htext |].
  assert (Hgen : ∀ timeout model prompt systemPrompt tr,
            ∃ tr', OpenAIClient.generate timeout model prompt systemPrompt
                     (Fulfilled response) tr = (Returned "", tr')).
  { intros. eexists. unfold OpenAIClient.generate. apply rethrowing_Returned.
    unfold bind, awaitRace, ret. by rewrite Htext. }
  split; [exact Hgen |].
  intros config args tr Hparse.
  destruct (Hgen (timeout config) (Js.orElse (ask_model args) (defaultModel config))
              (ask_prompt args) None tr) as [tr' Hcall].
  exists (success [text_part ""]), tr'. split; [| done].
  unfold Server.ask. apply catchAll_Returned. rewrite Hparse.
  unfold bind at 1. unfold ret at 1. by rewrite (bind_Returned _ _ _ _ _ Hcall).
Qed.

Lemma empty_text_is_a_success_witness :
  noOutputText silent_response
  ∧ extractText silent_response = ""
  ∧ ∃ reply tr',
      Server.ask sample_config sample_question (Fulfilled silent_response) []
      = (Returned reply, tr')
      ∧ reply_content reply = [text_part ""] ∧ isError reply = false.
Proof.
  assert (H : noOutputText silent_response).
  { intros items item parts part [= <-] Hitem Hmsg Hparts Hpart.
    apply elem_of_cons in Hitem as [-> | Hitem]; [discriminate Hmsg |].
    apply list_elem_of_singleton in Hitem as ->. injection Hparts as <-.
    apply list_elem_of_singleton in Hpart as ->. discriminate. }
  split; [exact H |].
  destruct (empty_text_is_a_success silent_response H) as (Htext & _ & Hask).
  split; [exact Htext |].
  exact (Hask sample_config sample_question [] eq_refl).
Defined.

(** ** Replies of the image tools *)

Lemma append_assoc (a b c : string) : (a +:+ b) +:+ c = a +:+ b +:+ c.
Proof.
  induction a as [|x a IH]; [done |]. rewrite !append_cons. by rewrite IH.
Qed.

Lemma append_empty_r (a : string) : a +:+ "" = a.
Proof. induction a as [|x a IH]; [done |]. rewrite append_cons. by rewrite IH. Qed.

(** The text that goes with a saved image names the path it was saved to. *)
Lemma savedText_names_path (label savedTo : string) (img : Image) :
  ∃ revised, Server.savedText label savedTo img
             = label +:+ " saved to: " +:+ savedTo +:+ revised.
Proof.
  unfold Server.savedText. destruct (Js.truthy (revisedPrompt img)).
  - eexists. cbn [app Js.join]. rewrite !append_assoc. reflexivity.
  - exists "". cbn [app Js.join]. by rewrite append_empty_r.
Qed.

Section ImageReplies.

Variables (config : Config) (w : World).

Lemma generate_image_success args up tr reply tr' :
  Server.generate_image config w args up tr = (Returned reply, tr') →
  isError reply = false → reply_content reply ≠ [].
Proof.
  intros Hrun Hok. apply catchAll_success in Hrun; [| done].
  unfold Server.generate_image in Hrun.
  apply bind_Returned_inv in Hrun as (input & tr1 & Hparse & Hrun).
  apply parseGenerateImage_Returned in Hparse as [-> ->].
  apply bind_Returned_inv in Hrun as (result & tr2 & _ & Hrun).
  destruct (decide (length (images result) = 0%nat)) as [|Hlen].
  - unfold ret in Hrun. by simplify_eq.
  - apply bind_Returned_inv in Hrun as (content & tr3 & Hloop & Hrun).
    unfold ret in Hrun. simplify_eq. cbn.
    destruct (saveLoop_run config w (gen_save_path args) (length (images result))
                (images result) 0 tr2)
      as (effects & _ & [[e Hloop'] | (parts & Hloop' & Hparts & _)]);
      rewrite Hloop in Hloop'; simplify_eq. intros ->. cbn in Hparts. lia.
Qed.

Lemma edit_image_success args up tr reply tr' :
  Server.edit_image config w args up tr = (Returned reply, tr') →
  isError reply = false → reply_content reply ≠ [].
Proof.
  intros Hrun Hok. apply catchAll_success in Hrun; [| done].
  unfold Server.edit_image in Hrun.
  apply bind_Returned_inv in Hrun as (input & tr1 & Hparse & Hrun).
  apply parseEditImage_Returned in Hparse as [-> ->].
  destruct (existsSync w _); cbn [negb] in Hrun;
    [| unfold ret in Hrun; by simplify_eq].
  destruct (Js.truthy (edit_mask_path args) && _);
    [unfold ret in Hrun; by simplify_eq |].
  apply bind_Returned_inv in Hrun as (result & tr2 & _ & Hrun).
  destruct (images result) as [|image others];
    [unfold ret in Hrun; by simplify_eq |].
  apply bind_Returned_inv in Hrun as (savedTo & tr3 & _ & Hrun).
  unfold ret in Hrun. by simplify_eq.
Qed.

End ImageReplies.

(** C5: when the result of image generation or of image edit holds no
    image, the tool replies with [isError = true] and one text that
    mentions the safety filter; and no reply of these tools without the
    error flag has an empty content. *)
Theorem zero_images_is_an_error (config : Config) (w : World) :
  (∀ args up result tr tr',
     accepts parseGenerateImage args →
     OpenAIClient.generateImage (timeout config) (gen_prompt args) (gen_size args)
       (gen_quality args) (gen_n args) up tr = (Returned result, tr') →
     images result = [] →
     ∃ text,
       Server.generate_image config w args up tr
       = (Returned {| reply_content := [text_part text]; isError := true |}, tr')
       ∧ Js.includes text "safety filter" = true)
  ∧ (∀ args up result tr tr',
       accepts parseEditImage args → editFilesExist w args →
       OpenAIClient.editImage (timeout config) w (edit_prompt args)
         (Path.resolve (cwd w) [edit_image_path args])
         (edit_mask_path args) (edit_size args) (edit_quality args) up tr
       = (Returned result, tr') →
       images result = [] →
       ∃ text,
         Server.edit_image config w args up tr
         = (Returned {| reply_content := [text_part text]; isError := true |}, tr')
         ∧ Js.includes text "safety filter" = true)
  ∧ (∀ args up tr reply tr',
       Server.generate_image config w args up tr = (Returned reply, tr') →
       isError reply = false → reply_content reply ≠ [])
  ∧ (∀ args up tr reply tr',
       Server.edit_image config w args up tr = (Returned reply, tr') →
       isError reply = false → reply_content reply ≠ []).
Proof.
  split; [| split; [| split]].
  - intros args up result tr tr' Hparse Hcall Hzero. exists NO_IMAGE_GENERATED.
    split; [by eapply generate_image_zero | by vm_compute].
  - intros args up result tr tr' Hparse Hfiles Hcall Hzero.
    exists NO_EDITED_IMAGE_GENERATED.
    split; [by eapply edit_image_zero | by vm_compute].
  - apply generate_image_success.
  - apply edit_image_success.
Qed.

Lemma zero_images_is_an_error_witness :
  accepts parseGenerateImage one_image_args
  ∧ ∃ text tr',
      Server.generate_image sample_config sample_world one_image_args
        (Fulfilled no_payload) []
      = (Returned {| reply_content := [text_part text]; isError := true |}, tr')
      ∧ Js.includes text "safety filter" = true.
Proof.
  split; [reflexivity |].
  destruct (proj1 (zero_images_is_an_error sample_config sample_world)
              one_image_args (Fulfilled no_payload)
              {| images := [] |} []
              [Upstream (images_generate "gpt-image-1.5" "a lighthouse at dusk"
                           "auto" "auto" 1 "png") (Some (Js.Num 180000))]
              eq_refl eq_refl eq_refl) as (text & Hrun & Htext).
  exists text. eexists. split; [exact Hrun | exact Htext].
Defined.

(** ** Persisting media *)

Global Instance writableInPlace_dec (w : World) (path : string) :
  Decision (writableInPlace w path).
Proof. unfold writableInPlace. apply _. Defined.

Section Persisting.

Variables (config : Config) (w : World).






(** With a result that holds images, [generate_image] goes on with its
    loop. *)
Lemma generate_image_loop args up result tr tr1 :
  accepts parseGenerateImage args →
  OpenAIClient.generateImage (timeout config) (gen_prompt args) (gen_size args)
    (gen_quality args) (gen_n args) up tr = (Returned result, tr1) →
  images result ≠ [] →
  Server.generate_image config w args up tr
  = catchAll (content <~ Server.saveLoop config w (gen_save_path args)
                           (length (images result)) 0 (images result) ;;
              ret (success content)) tr1.
Proof.
  intros Hparse Hcall Hsome. unfold Server.generate_image, catchAll. rewrite Hparse.
  unfold bind at 1. unfold ret at 1. rewrite (bind_Returned _ _ _ _ _ Hcall).
  by rewrite decide_False by (by destruct (images result)).
Qed.

(** What [generate_image] does with a result that holds images: a save
    fails and the reply is an error, or every payload was written and is
    part of the reply. *)
Lemma generate_image_saved args up result tr tr1 :
  accepts parseGenerateImage args →
  OpenAIClient.generateImage (timeout config) (gen_prompt args) (gen_size args)
    (gen_quality args) (gen_n args) up tr = (Returned result, tr1) →
  images result ≠ [] →
  ∃ effects,
    (∀ req deadline, Upstream req deadline ∉ effects)
    ∧ ((∃ text, Server.generate_image config w args up tr
                = (Returned (failure text), tr1 ++ effects))
       ∨ ∃ parts,
           Server.generate_image config w args up tr
           = (Returned (success parts), tr1 ++ effects)
           ∧ length parts = (2 * length (images result))%nat
           ∧ writesOf effects
             = imap (λ j img,
                       (Server.chooseSavePath config w (gen_save_path args)
                          (length (images result)) j, fromBase64 (b64 img)))
                    (images result)
           ∧ ∀ j img, images result !! j = Some img →
               let savePath :=
                 Server.chooseSavePath config w (gen_save_path args)
                   (length (images result)) j in
               parts !! (2 * j)%nat = Some (image_part (b64 img) "image/png")
               ∧ parts !! (2 * j + 1)%nat
                 = Some (text_part (Server.savedText ("Image " +:+ pretty (j + 1)%nat)
                                      savePath img))
               ∧ WriteFile savePath (fromBase64 (b64 img)) ∈ effects).
Proof.
  intros Hparse Hcall Hsome.
  destruct (saveLoop_run config w (gen_save_path args) (length (images result))
              (images result) 0 tr1) as (effects & Hup & Hloop).
  exists effects. split; [exact Hup |].
  rewrite (generate_image_loop args up result tr tr1) by done.
  destruct Hloop as [[e Hloop] | (parts & Hloop & Hlen & Hwrites & Hpoint)].
  - left. eexists. unfold catchAll. by rewrite (bind_Threw _ _ _ _ _ Hloop).
  - right. exists parts. split; [| done].
    unfold catchAll. by rewrite (bind_Returned _ _ _ _ _ Hloop).
Qed.

(** A payload that the loop has written is what its file holds in the
    end unless a later image of the call went to the same file. *)
Lemma persisted_unless_overwritten (imgs : list Image) (pathOf : nat → string)
    (tr effects : list Effect) (j : nat) (img : Image) :
  writesOf effects = imap (λ j img, (pathOf j, fromBase64 (b64 img))) imgs →
  imgs !! j = Some img →
  (∀ k, (j < k < length imgs)%nat →
     Path.resolve (cwd w) [pathOf k] ≠ Path.resolve (cwd w) [pathOf j]) →
  persisted w (tr ++ effects) (pathOf j) (b64 img).
Proof.
  intros Hwrites Hj Hlater. unfold persisted.
  set (l := imap (λ j img, (pathOf j, fromBase64 (b64 img))) imgs) in *.
  assert (Hl : l !! j = Some (pathOf j, fromBase64 (b64 img)))
    by (unfold l; by rewrite list_lookup_imap, Hj).
  apply (written_lookup w _ (writesOf tr ++ take j l) (drop (S j) l)).
  - rewrite writesOf_app, Hwrites, <- app_assoc. by rewrite take_drop_middle.
  - intros write (k & Hk)%list_elem_of_lookup. rewrite lookup_drop in Hk.
    unfold l in Hk. rewrite list_lookup_imap in Hk.
    destruct (imgs !! (S j + k)%nat) as [img'|] eqn:Himg; [| done].
    injection Hk as <-. cbn [fst]. apply Hlater.
    apply lookup_lt_Some in Himg. lia.
Qed.


End Persisting.




(** C10: the result of image generation and of image edit holds, in the
    order of the response, the images of exactly those data items whose
    [b64_json] is a non-empty payload; every image of the result has a
    payload; and when no data item has one the result is empty and the
    tools reply with the zero-image error. *)
Theorem images_are_the_items_with_a_payload
    (config : Config) (w : World) (response : ImagesResponse) :
  let items := default [] (data response) in
  OpenAIClient.collectImages response = omap payloadOf items
  ∧ (∀ prompt size quality n tr,
       ∃ tr', OpenAIClient.generateImage (timeout config) prompt size quality n
                (Fulfilled response) tr
              = (Returned {| images := OpenAIClient.collectImages response |}, tr'))
  ∧ (∀ prompt imagePath maskPath size quality tr,
       readable w imagePath →
       (Js.truthy maskPath = true → readable w (Js.interpolate maskPath)) →
       ∃ tr', OpenAIClient.editImage (timeout config) w prompt imagePath maskPath
                size quality (Fulfilled response) tr
              = (Returned {| images := OpenAIClient.collectImages response |}, tr'))
  ∧ (∀ img, img ∈ OpenAIClient.collectImages response ↔
            b64 img ≠ ""
            ∧ ∃ item, item ∈ items ∧ b64_json item = Some (b64 img)
                      ∧ revised_prompt item = revisedPrompt img)
  ∧ ((∀ item, item ∈ items → Js.truthy (b64_json item) = false) →
     OpenAIClient.collectImages response = []
     ∧ (∀ args tr,
          accepts parseGenerateImage args →
          ∃ tr', Server.generate_image config w args (Fulfilled response) tr
                 = (Returned (failure NO_IMAGE_GENERATED), tr'))
     ∧ (∀ args tr,
          accepts parseEditImage args → editFilesExist w args →
          readable w (Path.resolve (cwd w) [edit_image_path args]) →
          (Js.truthy (edit_mask_path args) = true →
           readable w (Js.interpolate (edit_mask_path args))) →
          ∃ tr', Server.edit_image config w args (Fulfilled response) tr
                 = (Returned (failure NO_EDITED_IMAGE_GENERATED), tr'))).
Proof.
  intros items. split; [apply collectImages_omap |].
  split; [intros; eexists; by rewrite generateImage_run |].
  split; [intros; by apply editImage_fulfilled |].
  split.
  { intros [payload revised]. rewrite collectImages_omap. fold items.
    rewrite list_elem_of_omap. cbn [b64 revisedPrompt]. split.
    - intros (item & Hitem & Hpay). unfold payloadOf in Hpay.
      destruct (b64_json item) as [p|] eqn:Hb; [| done].
      destruct (decide (p = "")); [done |]. simplify_eq. split; [done |].
      by exists item.
    - intros (Hne & item & Hitem & Hb & Hrev). exists item. split; [done |].
      unfold payloadOf. rewrite Hb, decide_False by done. by rewrite Hrev. }
  intros Hnone. pose proof (collectImages_nothing response Hnone) as Hzero.
  split; [exact Hzero |]. split.
  - intros args tr Hparse. eexists.
    apply (generate_image_zero config w args (Fulfilled response)
             {| images := OpenAIClient.collectImages response |} tr);
      [done | apply generateImage_run | exact Hzero].
  - intros args tr Hparse Hfiles Himage Hmask.
    destruct (editImage_fulfilled (timeout config) w (edit_prompt args)
                (Path.resolve (cwd w) [edit_image_path args]) (edit_mask_path args)
                (edit_size args) (edit_quality args) response tr Himage Hmask)
      as [tr' Hcall].
    exists tr'.
    apply (edit_image_zero config w args (Fulfilled response)
             {| images := OpenAIClient.collectImages response |} tr);
      [done | done | exact Hcall | exact Hzero].
Qed.

Lemma images_are_the_items_with_a_payload_witness :
  (∀ item, item ∈ default [] (data no_payload) → Js.truthy (b64_json item) = false)
  ∧ OpenAIClient.collectImages no_payload = []
  ∧ ∃ tr', Server.generate_image sample_config sample_world one_image_args
             (Fulfilled no_payload) []
           = (Returned (failure NO_IMAGE_GENERATED), tr').
Proof.
  assert (H : ∀ item, item ∈ default [] (data no_payload) →
                      Js.truthy (b64_json item) = false)
    by (by intros item ->%list_elem_of_singleton).
  split; [exact H |].
  destruct (proj2 (proj2 (proj2 (proj2
              (images_are_the_items_with_a_payload sample_config sample_world
                 no_payload)))) H) as (Hzero & Hgen & _).
  split; [exact Hzero |]. exact (Hgen one_image_args [] eq_refl).
Defined.

(** * Further properties of the adapter and of the tools *)

(** ** The extractors *)

Lemma join_empty_cons (x : string) (l : list string) :
  Js.join "" (x :: l) = x +:+ Js.join "" l.
Proof.
  destruct l as [|y l]; cbn [Js.join]; [by rewrite append_empty_r |].
  by rewrite append_empty_l.
Qed.

Lemma join_empty_app (a b : list string) :
  Js.join "" (a ++ b) = Js.join "" a +:+ Js.join "" b.
Proof.
  induction a as [|x a IH]; [done |].
  cbn [app]. by rewrite !join_empty_cons, IH, append_assoc.
Qed.

Lemma extractText_join (items : list OutputItem) :
  extractText {| output := Some items |} = Js.join "" (items ≫= itemTexts).
Proof.
  unfold extractText. cbn [output]. by destruct (items ≫= itemTexts).
Qed.

(** The inner loop over the parts of an item appends what [extractText]
    collects for the item. *)
Lemma appendOutputTexts_join (text : string) (item : OutputItem) :
  appendOutputTexts text item = text +:+ Js.join "" (itemTexts item).
Proof.
  unfold appendOutputTexts, itemTexts.
  case_bool_decide; [| by rewrite append_empty_r].
  destruct (item_content item) as [parts|]; [| by rewrite append_empty_r].
  revert text. induction parts as [|part parts IH]; intros text.
  - by rewrite append_empty_r.
  - cbn [foldl]. rewrite IH, bind_cons. case_bool_decide; [| done].
    cbn [app]. by rewrite join_empty_cons, append_assoc.
Qed.

Lemma appendSummaries_join (reasoning : string) (parts : list SummaryPart) :
  foldl (λ reasoning s,
           if bool_decide (summary_type s = "summary_text")
           then reasoning +:+ summary_text s else reasoning)
        reasoning parts
  = reasoning
    +:+ Js.join "" (parts ≫= (λ s, if bool_decide (summary_type s = "summary_text")
                                    then [summary_text s] else [])).
Proof.
  revert reasoning. induction parts as [|part parts IH]; intros reasoning.
  - by rewrite append_empty_r.
  - cbn [foldl]. rewrite IH, bind_cons. case_bool_decide; [| done].
    cbn [app]. by rewrite join_empty_cons, append_assoc.
Qed.

(** The variables of the loop of [extractReasoningResponse] when the loop
    is over. *)
Lemma reasoning_loop (items : list OutputItem) (reasoning text : string) :
  foldl reasoningStep (reasoning, text) items
  = (reasoning +:+ Js.join "" (items ≫= itemSummary),
     text +:+ Js.join "" (items ≫= itemTexts)).
Proof.
  revert reasoning text. induction items as [|item items IH]; intros reasoning text.
  - by rewrite !append_empty_r.
  - cbn [foldl]. unfold reasoningStep at 2. rewrite IH, appendOutputTexts_join.
    rewrite !bind_cons, !join_empty_app, !append_assoc. f_equal.
    rewrite <- (append_assoc reasoning). f_equal.
    unfold itemSummary. case_bool_decide; [| by rewrite append_empty_r].
    destruct (item_summary item) as [parts|]; [| by rewrite append_empty_r].
    apply appendSummaries_join.
Qed.

Lemma extractReasoningResponse_eq (response : Response) :
  extractReasoningResponse response
  = {| reasoning_text := Js.join "" (output_items response ≫= itemTexts);
       reasoning := Js.join "" (output_items response ≫= itemSummary) |}.
Proof.
  unfold extractReasoningResponse, output_items.
  destruct (output response) as [items|]; [| done].
  by rewrite reasoning_loop.
Qed.

Lemma appendLogs_fold (output : string) (results : list ToolResult) :
  foldl (λ output result,
           if bool_decide (result_type result = "logs")
           then appendLine output (result_logs result) else output)
        output results
  = foldl appendLine output
      (results ≫= (λ r, if bool_decide (result_type r = "logs") then [result_logs r] else [])).
Proof.
  revert output. induction results as [|r results IH]; intros output; [done |].
  cbn [foldl]. rewrite IH, bind_cons. by case_bool_decide.
Qed.

(** The variables of the loop of [extractCodeExecutionResponse] when the
    loop is over. *)
Lemma codeExecution_loop (items : list OutputItem) (text code output : string) :
  let calls := filter (λ item, item_type item = "code_interpreter_call") items in
  foldl codeExecutionStep (text, code, output) items
  = (text +:+ Js.join "" (items ≫= itemTexts),
     foldl (λ acc item,
              if Js.truthy (item_code item)
              then appendLine acc (Js.interpolate (item_code item)) else acc)
           code calls,
     foldl appendLine output (calls ≫= itemLogs)).
Proof.
  cbv zeta. revert text code output.
  induction items as [|item items IH]; intros text code output.
  - by rewrite append_empty_r.
  - cbn [foldl]. unfold codeExecutionStep at 2. rewrite filter_cons.
    case_bool_decide as Hcall.
    + rewrite decide_True by done. rewrite IH, appendOutputTexts_join.
      rewrite !bind_cons, join_empty_app, append_assoc, foldl_app. cbn [foldl].
      f_equal. f_equal. unfold itemLogs.
      destruct (item_results item) as [results|]; [| done].
      by rewrite appendLogs_fold.
    + rewrite decide_False by done. rewrite IH, appendOutputTexts_join.
      by rewrite bind_cons, join_empty_app, append_assoc.
Qed.

Lemma extractCodeExecutionResponse_eq (response : Response) :
  let calls :=
    filter (λ item, item_type item = "code_interpreter_call") (output_items response) in
  extractCodeExecutionResponse response
  = {| exec_text := Js.join "" (output_items response ≫= itemTexts);
       exec_code :=
         foldl (λ acc item,
                  if Js.truthy (item_code item)
                  then appendLine acc (Js.interpolate (item_code item)) else acc)
               "" calls;
       exec_output := foldl appendLine "" (calls ≫= itemLogs) |}.
Proof.
  unfold extractCodeExecutionResponse, output_items.
  destruct (output response) as [items|]; [| done].
  cbn [default from_option id]. by rewrite codeExecution_loop.
Qed.

Lemma extractText_items (response : Response) :
  extractText response = Js.join "" (output_items response ≫= itemTexts).
Proof.
  destruct response as [[items|]]; [| done]. apply extractText_join.
Qed.

(** X1: the reasoning and the code-execution extractors, which walk the
    output in loops of their own and grow the answer text by [+=], return
    the answer text of [extractText], which collects the texts and joins
    them. *)
Theorem extractors_agree_on_text (response : Response) :
  reasoning_text (extractReasoningResponse response) = extractText response
  ∧ exec_text (extractCodeExecutionResponse response) = extractText response.
Proof.
  rewrite extractReasoningResponse_eq, extractCodeExecutionResponse_eq, extractText_items.
  by split.
Qed.

(** X2: the answer text is the concatenation, in the order received, of
    what the output items contribute: the text of a sequence of items is
    the text of its first part followed by the text of the rest, and an
    item that is not a message contributes nothing wherever it stands. *)
Theorem extractText_concatenates_in_order (before after : list OutputItem) :
  extractText {| output := Some (before ++ after) |}
  = extractText {| output := Some before |} +:+ extractText {| output := Some after |}
  ∧ ∀ item, item_type item ≠ "message" →
      extractText {| output := Some (before ++ item :: after) |}
      = extractText {| output := Some (before ++ after) |}.
Proof.
  rewrite !extractText_join. split; [by rewrite bind_app, join_empty_app |].
  intros item Hitem. rewrite !extractText_join, !bind_app, bind_cons.
  unfold itemTexts at 2. by rewrite bool_decide_eq_false_2.
Qed.

Lemma join_LF_cons (x : string) (l : list string) :
  Js.join Js.LF (x :: l) = x +:+ furtherLines l.
Proof.
  revert x. induction l as [|y l IH]; intros x; cbn [Js.join furtherLines foldr].
  - by rewrite append_empty_r.
  - f_equal. f_equal. apply IH.
Qed.

Lemma appendLine_nonempty (acc s : string) : acc ≠ "" → appendLine acc s ≠ "".
Proof. unfold appendLine. by destruct acc. Qed.

Lemma foldl_appendLine_nonempty (acc : string) (l : list string) :
  acc ≠ "" → foldl appendLine acc l = acc +:+ furtherLines l.
Proof.
  revert acc. induction l as [|s l IH]; intros acc Hacc; cbn [foldl furtherLines foldr].
  - by rewrite append_empty_r.
  - rewrite IH by (by apply appendLine_nonempty). unfold appendLine.
    rewrite decide_False by done. by rewrite !append_assoc.
Qed.

Lemma foldl_appendLine (l : list string) :
  foldl appendLine "" l = Js.join Js.LF (dropLeadingEmpty l).
Proof.
  induction l as [|s l IH]; [done |].
  cbn [foldl dropLeadingEmpty]. destruct (decide (s = "")) as [-> | Hs].
  - exact IH.
  - replace (appendLine "" s) with s by done.
    by rewrite foldl_appendLine_nonempty, join_LF_cons.
Qed.

Lemma dropLeadingEmpty_nonempty (l : list string) :
  (∀ s, s ∈ l → s ≠ "") → dropLeadingEmpty l = l.
Proof.
  destruct l as [|s l]; [done |]. intros H. cbn.
  rewrite decide_False; [done |]. apply H. set_solver.
Qed.

Lemma foldl_codes (acc : string) (calls : list OutputItem) :
  foldl (λ acc item,
           if Js.truthy (item_code item)
           then appendLine acc (Js.interpolate (item_code item)) else acc)
        acc calls
  = foldl appendLine acc (omap codeOf calls).
Proof.
  revert acc. induction calls as [|item calls IH]; intros acc; [done |].
  cbn [foldl omap list_omap]. rewrite IH. unfold codeOf, Js.truthy.
  destruct (item_code item) as [c|]; [| done]. by destruct (decide (c = "")).
Qed.

(** X3: the code-execution extractor joins with newlines the code of the
    interpreter calls that have some, and the logs of their results; logs
    that are empty and come before the first non-empty one leave no line. *)
Theorem extractCodeExecutionResponse_joins_lines (items : list OutputItem) :
  let calls := filter (λ item, item_type item = "code_interpreter_call") items in
  let result := extractCodeExecutionResponse {| output := Some items |} in
  exec_code result = Js.join Js.LF (omap codeOf calls)
  ∧ exec_output result = Js.join Js.LF (dropLeadingEmpty (calls ≫= itemLogs))
  ∧ ((∀ s, s ∈ calls ≫= itemLogs → s ≠ "") →
     exec_output result = Js.join Js.LF (calls ≫= itemLogs)).
Proof.
  intros calls result. subst result. rewrite extractCodeExecutionResponse_eq.
  cbn [output output_items default from_option id exec_code exec_output]. fold calls.
  split; [| split].
  - rewrite foldl_codes, foldl_appendLine. f_equal. apply dropLeadingEmpty_nonempty.
    intros s (item & _ & Hcode)%list_elem_of_omap. unfold codeOf in Hcode.
    destruct (item_code item) as [c|]; [| done].
    destruct (decide (c = "")); [done |]. by simplify_eq.
  - apply foldl_appendLine.
  - intros H. by rewrite foldl_appendLine, dropLeadingEmpty_nonempty.
Qed.

Lemma extractCodeExecutionResponse_joins_lines_witness :
  exec_code (extractCodeExecutionResponse {| output := Some two_interpreter_calls |})
  = "print(1)"
  ∧ exec_output (extractCodeExecutionResponse {| output := Some two_interpreter_calls |})
    = "1" +:+ Js.LF +:+ "2".
Proof.
  destruct (extractCodeExecutionResponse_joins_lines two_interpreter_calls)
    as (Hcode & Hout & _).
  split; [exact Hcode | exact Hout].
Defined.

(** ** Replies of the text tools *)

Lemma raced_call_run {A B} (req : Request) (ms : Js.number) (f : A → B)
    (up : Settle A) (tr : list Effect) :
  rethrowing handleError (a <~ awaitRace req ms up ;; ret (f a)) tr
  = (settled f up, tr ++ [Upstream req (Some ms)]).
Proof. unfold rethrowing, bind, awaitRace, ret, settled. by destruct up. Qed.

Lemma raced_call_fulfilled {A B} (req : Request) (ms : Js.number) (f : A → B)
    (a : A) (tr : list Effect) :
  rethrowing handleError (x <~ awaitRace req ms (Fulfilled a) ;; ret (f x)) tr
  = (Returned (f a), tr ++ [Upstream req (Some ms)]).
Proof. apply (raced_call_run req ms f (Fulfilled a)). Qed.

Lemma catchAll_accepts {A} (parse : A → Task A) (args : A) (k : A → Task ToolReply) tr :
  accepts parse args →
  catchAll (input <~ parse args ;; k input) tr = catchAll (k args) tr.
Proof. intros H. unfold catchAll, bind. rewrite H. reflexivity. Qed.

Lemma foldl_sourceLines (init : string) (cs : list Citation) :
  foldl (λ acc citation, acc +:+ Tools.sourceLine citation) init cs
  = init +:+ Js.join "" (Tools.sourceLine <$> cs).
Proof.
  revert init. induction cs as [|c cs IH]; intros init; cbn [foldl fmap list_fmap].
  - by rewrite append_empty_r.
  - by rewrite IH, join_empty_cons, append_assoc.
Qed.

Lemma withSources_section (result : SearchWebResponse) :
  Tools.withSources result = search_text result +:+ sourcesSection (citations result).
Proof.
  unfold Tools.withSources, sourcesSection.
  destruct (citations result) as [|c cs]; cbn [length Nat.ltb Nat.leb].
  - by rewrite append_empty_r.
  - by rewrite foldl_sourceLines, !append_assoc.
Qed.

Lemma filterUnseen_empty_nil (cs : list Citation) :
  filterUnseen ∅ cs = [] ↔ cs = [].
Proof.
  split; [| by intros ->]. destruct cs as [|c cs]; [done |].
  cbn [filterUnseen]. by rewrite decide_False by set_solver.
Qed.

(** X4: on success the reply of [search_web] and of [fetch_url] is the
    answer text followed by the list of sources; the list is absent when
    the response cites nothing, and otherwise has one link per distinct
    URL, in first-seen order. *)
Theorem search_replies_list_each_source_once (config : Config) (response : Response) :
  let cs := citations (extractSearchResponse response) in
  let text := extractText response +:+ sourcesSection cs in
  (∀ args tr, accepts parseSearchWeb args →
     ∃ tr', Tools.search_web config args (Fulfilled response) tr
            = (Returned (success [text_part text]), tr'))
  ∧ (∀ args tr, accepts parseFetchUrl args →
       ∃ tr', Tools.fetch_url config args (Fulfilled response) tr
              = (Returned (success [text_part text]), tr'))
  ∧ (citedAnnotations response = [] ↔ text = extractText response)
  ∧ url <$> cs = firstSeen (url <$> harvestCitations response)
  ∧ NoDup (url <$> cs).
Proof.
  intros cs text. split; [| split; [| split; [| split]]].
  - intros args tr Hparse. eexists. unfold Tools.search_web.
    rewrite catchAll_accepts by done. apply catchAll_Returned.
    unfold OpenAIClient.searchWeb. rewrite (bind_Returned _ _ _ _ _ (raced_call_fulfilled _ _ _ _ _)).
    unfold ret. by rewrite withSources_section.
  - intros args tr Hparse. eexists. unfold Tools.fetch_url.
    rewrite catchAll_accepts by done. apply catchAll_Returned.
    unfold OpenAIClient.fetchUrl. rewrite (bind_Returned _ _ _ _ _ (raced_call_fulfilled _ _ _ _ _)).
    unfold ret. by rewrite withSources_section.
  - subst text cs. unfold extractSearchResponse, harvestCitations. cbn [citations].
    split.
    + intros ->. cbn. by rewrite append_empty_r.
    + intros H. destruct (filterUnseen ∅ _) as [|c l] eqn:Hcs.
      * apply filterUnseen_empty_nil in Hcs. by destruct (citedAnnotations response).
      * exfalso. apply (f_equal String.length) in H. rewrite append_length in H.
        unfold sourcesSection in H. rewrite append_length in H. cbn in H. lia.
  - subst cs. unfold extractSearchResponse. cbn [citations].
    rewrite filterUnseen_urls. apply filter_not_in_empty.
  - apply filterUnseen_NoDup.
Qed.

Lemma search_replies_list_each_source_once_witness :
  accepts parseSearchWeb {| search_query := "rocq"; search_model := None |}
  ∧ ∃ tr',
      Tools.search_web sample_config {| search_query := "rocq"; search_model := None |}
        (Fulfilled two_messages_three_citations) []
      = (Returned (success [text_part
           ("Rocq is a proof assistant." +:+ Js.LF +:+ Js.LF +:+ "---" +:+ Js.LF
            +:+ "**Sources:**" +:+ Js.LF
            +:+ "- [Rocq](https://rocq-prover.org)" +:+ Js.LF
            +:+ "- [Untitled](https://example.org)" +:+ Js.LF)]), tr').
Proof.
  split; [reflexivity |].
  exact (proj1 (search_replies_list_each_source_once sample_config
                  two_messages_three_citations)
           {| search_query := "rocq"; search_model := None |} [] eq_refl).
Defined.

Lemma reasoning_text_is_extractText (response : Response) :
  reasoning_text (extractReasoningResponse response) = extractText response.
Proof.
  by rewrite extractReasoningResponse_eq, extractText_items.
Qed.

(** X5: on success the reply of [search_with_reasoning] is the answer
    text, preceded by the reasoning trace between [<reasoning>] tags when
    the trace is not empty; a response without reasoning items gives the
    answer text alone. *)
Theorem reasoning_reply_shows_the_trace_when_there_is_one
    (config : Config) (response : Response) :
  let trace := reasoning (extractReasoningResponse response) in
  (∀ args tr, accepts parseReasoning args →
     ∃ tr', Tools.search_with_reasoning config args (Fulfilled response) tr
            = (Returned (success [text_part
                 ((if decide (trace = "") then ""
                   else "<reasoning>" +:+ Js.LF +:+ trace +:+ Js.LF
                        +:+ "</reasoning>" +:+ Js.LF +:+ Js.LF)
                  +:+ extractText response)]), tr'))
  ∧ ((∀ items item, output response = Some items → item ∈ items →
        item_type item ≠ "reasoning") →
     trace = "").
Proof.
  intros trace. split.
  - intros args tr Hparse. eexists. unfold Tools.search_with_reasoning.
    rewrite catchAll_accepts by done. apply catchAll_Returned.
    unfold OpenAIClient.generateWithReasoning.
    rewrite (bind_Returned _ _ _ _ _ (raced_call_fulfilled _ _ _ _ _)). unfold ret.
    fold trace. by rewrite reasoning_text_is_extractText.
  - intros H. subst trace. rewrite extractReasoningResponse_eq. unfold output_items.
    destruct (output response) as [items|]; [| done].
    cbn [reasoning default from_option id].
    assert (Hitems : ∀ item, item ∈ items → item_type item ≠ "reasoning")
      by (intros item; by apply H).
    clear H. assert (Hnone : items ≫= itemSummary = []).
    { induction items as [|item items IH]; [done |].
      rewrite bind_cons, IH by (intros i ?; apply Hitems; set_solver).
      unfold itemSummary. rewrite bool_decide_eq_false_2; [done |].
      apply Hitems. set_solver. }
    by rewrite Hnone.
Qed.

Lemma reasoning_reply_shows_the_trace_when_there_is_one_witness :
  accepts parseReasoning
    {| reasoning_prompt := "why?"; reasoning_model := None; reasoning_effort := None |}
  ∧ ∃ tr',
      Tools.search_with_reasoning sample_config
        {| reasoning_prompt := "why?"; reasoning_model := None; reasoning_effort := None |}
        (Fulfilled silent_response) []
      = (Returned (success [text_part
           ("<reasoning>" +:+ Js.LF +:+ "thinking" +:+ Js.LF +:+ "</reasoning>"
            +:+ Js.LF +:+ Js.LF)]), tr').
Proof.
  split; [reflexivity |].
  destruct (proj1 (reasoning_reply_shows_the_trace_when_there_is_one sample_config
                     silent_response)
              {| reasoning_prompt := "why?"; reasoning_model := None;
                 reasoning_effort := None |} [] eq_refl) as [tr' H].
  exists tr'. exact H.
Defined.

(** ** Local validation *)

Lemma catchAll_Threw body tr e tr' :
  body tr = (Threw e, tr') →
  catchAll body tr = (Returned (failure (Js.orElse (message e) "An error occurred")), tr').
Proof. unfold catchAll. by intros ->. Qed.

Lemma catchAll_rejects {A} (parse : A → Task A) (args : A) (k : A → Task ToolReply)
    (e : Thrown) (tr : list Effect) :
  parse args = throw e →
  catchAll (input <~ parse args ;; k input) tr
  = (Returned (failure (Js.orElse (message e) "An error occurred")), tr).
Proof. intros H. apply catchAll_Threw. by rewrite H. Qed.

Local Ltac decide_parse :=
  intros args; unfold accepts;
  repeat (case_match; [by right; eexists |]); (by left) || (by right; eexists).

Lemma parseAsk_decides : decides parseAsk.
Proof. unfold decides, parseAsk. decide_parse. Qed.
Lemma parseCodeReview_decides : decides parseCodeReview.
Proof. unfold decides, parseCodeReview. decide_parse. Qed.
Lemma parseBrainstorm_decides : decides parseBrainstorm.
Proof. unfold decides, parseBrainstorm. decide_parse. Qed.
Lemma parseExplain_decides : decides parseExplain.
Proof. unfold decides, parseExplain. decide_parse. Qed.
Lemma parseSearchWeb_decides : decides parseSearchWeb.
Proof. unfold decides, parseSearchWeb. decide_parse. Qed.
Lemma parseReasoning_decides : decides parseReasoning.
Proof. unfold decides, parseReasoning. decide_parse. Qed.
Lemma parseRunCode_decides : decides parseRunCode.
Proof. unfold decides, parseRunCode. decide_parse. Qed.
Lemma parseFetchUrl_decides : decides parseFetchUrl.
Proof. unfold decides, parseFetchUrl. decide_parse. Qed.
Lemma parseUploadFile_decides : decides parseUploadFile.
Proof. unfold decides, parseUploadFile. decide_parse. Qed.
Lemma parseGenerateImage_decides : decides parseGenerateImage.
Proof. unfold decides, parseGenerateImage. decide_parse. Qed.
Lemma parseEditImage_decides : decides parseEditImage.
Proof. unfold decides, parseEditImage. decide_parse. Qed.
Lemma parseAnalyzeImage_decides : decides parseAnalyzeImage.
Proof. unfold decides, parseAnalyzeImage. decide_parse. Qed.
Lemma parseTranscribe_decides : decides parseTranscribe.
Proof. unfold decides, parseTranscribe. decide_parse. Qed.

Local Ltac refuse Hdec args Hno :=
  destruct (Hdec args) as [? | [e He]]; [done |];
  eexists; intros tr; by apply catchAll_rejects.

(** X6: arguments that the schema of a tool refuses never reach the
    adapter: whatever the provider would answer, the tool replies with
    [isError = true], sends no request, and writes no file. *)
Theorem refused_arguments_never_reach_upstream (config : Config) (w : World) :
  (∀ args up, ¬ accepts parseAsk args → refusedLocally (Server.ask config args up))
  ∧ (∀ args up, ¬ accepts parseCodeReview args →
       refusedLocally (Tools.code_review config args up))
  ∧ (∀ args up, ¬ accepts parseBrainstorm args →
       refusedLocally (Tools.brainstorm config args up))
  ∧ (∀ args up, ¬ accepts parseExplain args →
       refusedLocally (Tools.explain config args up))
  ∧ (∀ args up, ¬ accepts parseSearchWeb args →
       refusedLocally (Tools.search_web config args up))
  ∧ (∀ args up, ¬ accepts parseReasoning args →
       refusedLocally (Tools.search_with_reasoning config args up))
  ∧ (∀ args up, ¬ accepts parseRunCode args →
       refusedLocally (Tools.run_code config args up))
  ∧ (∀ args up, ¬ accepts parseFetchUrl args →
       refusedLocally (Tools.fetch_url config args up))
  ∧ (∀ args upFile up, ¬ accepts parseUploadFile args →
       refusedLocally (Tools.upload_file config w args upFile up))
  ∧ (∀ args up, ¬ accepts parseGenerateImage args →
       refusedLocally (Server.generate_image config w args up))
  ∧ (∀ args up, ¬ accepts parseEditImage args →
       refusedLocally (Server.edit_image config w args up))
  ∧ (∀ args up, ¬ accepts parseAnalyzeImage args →
       refusedLocally (Tools.analyze_image config w args up))
  ∧ (∀ args up, ¬ accepts parseTranscribe args →
       refusedLocally (Tools.transcribe config w args up)).
Proof.
  repeat split; intros.
  - refuse parseAsk_decides args H.
  - refuse parseCodeReview_decides args H.
  - refuse parseBrainstorm_decides args H.
  - refuse parseExplain_decides args H.
  - refuse parseSearchWeb_decides args H.
  - refuse parseReasoning_decides args H.
  - refuse parseRunCode_decides args H.
  - refuse parseFetchUrl_decides args H.
  - refuse parseUploadFile_decides args H.
  - refuse parseGenerateImage_decides args H.
  - refuse parseEditImage_decides args H.
  - refuse parseAnalyzeImage_decides args H.
  - refuse parseTranscribe_decides args H.
Qed.

Lemma refused_arguments_never_reach_upstream_witness :
  ¬ accepts parseGenerateImage eleven_images
  ∧ refusedLocally
      (Server.generate_image sample_config sample_world eleven_images
         (Fulfilled two_images)).
Proof.
  assert (H : ¬ accepts parseGenerateImage eleven_images).
  { intros H. apply (f_equal (λ m, m [])) in H. discriminate H. }
  split; [exact H |].
  destruct (refused_arguments_never_reach_upstream sample_config sample_world)
    as (_ & _ & _ & _ & _ & _ & _ & _ & _ & Hgen & _).
  exact (Hgen eleven_images (Fulfilled two_images) H).
Defined.

(** X7: a tool that is given the path of a file that does not exist
    replies with [isError = true] and a text that names the resolved
    path, without sending a request. *)
Theorem missing_files_are_reported_locally (config : Config) (w : World) :
  (∀ args upFile up tr,
     accepts parseUploadFile args →
     existsSync w (Path.resolve (cwd w) [upload_file_path args]) = false →
     Tools.upload_file config w args upFile up tr
     = (Returned (failure ("File not found: "
                           +:+ Path.resolve (cwd w) [upload_file_path args])), tr))
  ∧ (∀ args up tr,
       accepts parseEditImage args →
       existsSync w (Path.resolve (cwd w) [edit_image_path args]) = false →
       Server.edit_image config w args up tr
       = (Returned (failure ("Source image not found: "
                             +:+ Path.resolve (cwd w) [edit_image_path args])), tr))
  ∧ (∀ args mask up tr,
       accepts parseEditImage args →
       existsSync w (Path.resolve (cwd w) [edit_image_path args]) = true →
       edit_mask_path args = Some mask → mask ≠ "" →
       existsSync w (Path.resolve (cwd w) [mask]) = false →
       Server.edit_image config w args up tr
       = (Returned (failure ("Mask image not found: "
                             +:+ Path.resolve (cwd w) [mask])), tr))
  ∧ (∀ args up tr,
       accepts parseAnalyzeImage args →
       existsSync w (Path.resolve (cwd w) [analyze_image_path args]) = false →
       Tools.analyze_image config w args up tr
       = (Returned (failure ("Image not found: "
                             +:+ Path.resolve (cwd w) [analyze_image_path args])), tr))
  ∧ (∀ args up tr,
       accepts parseTranscribe args →
       existsSync w (Path.resolve (cwd w) [transcribe_audio_path args]) = false →
       Tools.transcribe config w args up tr
       = (Returned (failure ("Audio file not found: "
                             +:+ Path.resolve (cwd w) [transcribe_audio_path args])), tr)).
Proof.
  split; [| split; [| split; [| split]]].
  - intros args upFile up tr Hparse Hnone. unfold Tools.upload_file.
    rewrite catchAll_accepts by done. apply catchAll_Returned. by rewrite Hnone.
  - intros args up tr Hparse Hnone. unfold Server.edit_image.
    rewrite catchAll_accepts by done. apply catchAll_Returned. by rewrite Hnone.
  - intros args mask up tr Hparse Himage Hmask Hne Hnone. unfold Server.edit_image.
    rewrite catchAll_accepts by done. apply catchAll_Returned.
    rewrite Himage, Hmask. cbn [negb Js.truthy Js.interpolate from_option id].
    rewrite decide_False by done. by rewrite Hnone.
  - intros args up tr Hparse Hnone. unfold Tools.analyze_image.
    rewrite catchAll_accepts by done. apply catchAll_Returned. by rewrite Hnone.
  - intros args up tr Hparse Hnone. unfold Tools.transcribe.
    rewrite catchAll_accepts by done. apply catchAll_Returned. by rewrite Hnone.
Qed.

Lemma missing_files_are_reported_locally_witness :
  Tools.transcribe sample_config sample_world
    {| transcribe_audio_path := "talk.mp3"; transcribe_model := None;
       transcribe_language := None; transcribe_prompt := None |}
    (Fulfilled {| transcription_text := "hello" |}) []
  = (Returned (failure "Audio file not found: /srv/talk.mp3"), []).
Proof.
  destruct (missing_files_are_reported_locally sample_config sample_world)
    as (_ & _ & _ & _ & Htr).
  exact (Htr {| transcribe_audio_path := "talk.mp3"; transcribe_model := None;
                transcribe_language := None; transcribe_prompt := None |}
           (Fulfilled {| transcription_text := "hello" |}) [] eq_refl eq_refl).
Defined.

(** ** Failures of the adapter *)

Lemma rethrowing_Threw {A} h (body : Task A) tr e tr' :
  rethrowing h body tr = (Threw e, tr') → ∃ e0, e = h e0.
Proof.
  unfold rethrowing. destruct (body tr) as [[a|e0|] tr'']; intros ?; simplify_eq.
  by exists e0.
Qed.

Lemma handleError_has_a_category (e : Thrown) :
  ∃ c, handleError e = newError (categoryMessage c).
Proof.
  destruct (Classified_total e) as [c Hc]. exists c.
  by apply handleError_of_Classified.
Qed.

Lemma rethrown_categorised {A} (body : Task A) tr e tr' :
  rethrowing handleError body tr = (Threw e, tr') → categorised e.
Proof.
  intros [e0 ->]%rethrowing_Threw. apply handleError_has_a_category.
Qed.

(** X8: whatever goes wrong inside an operation of the adapter that
    awaits its call inside its [try] block (the provider rejects, the
    timer fires, a file cannot be read) the exception that leaves the
    operation is an error whose message is the template of one of the six
    categories.  These are all the operations but [uploadFile]. *)
Theorem adapter_failures_are_categorised (timeout : Js.number) (w : World) :
  (∀ model prompt sys up tr e tr',
     OpenAIClient.generate timeout model prompt sys up tr = (Threw e, tr') →
     categorised e)
  ∧ (∀ model query sys up tr e tr',
       OpenAIClient.searchWeb timeout model query sys up tr = (Threw e, tr') →
       categorised e)
  ∧ (∀ model prompt effort up tr e tr',
       OpenAIClient.generateWithReasoning timeout model prompt effort up tr
       = (Threw e, tr') → categorised e)
  ∧ (∀ model prompt sys up tr e tr',
       OpenAIClient.executeCode timeout model prompt sys up tr = (Threw e, tr') →
       categorised e)
  ∧ (∀ model prompt urls sys up tr e tr',
       OpenAIClient.fetchUrl timeout model prompt urls sys up tr = (Threw e, tr') →
       categorised e)
  ∧ (∀ prompt size quality n up tr e tr',
       OpenAIClient.generateImage timeout prompt size quality n up tr = (Threw e, tr') →
       categorised e)
  ∧ (∀ prompt imagePath maskPath size quality up tr e tr',
       OpenAIClient.editImage timeout w prompt imagePath maskPath size quality up tr
       = (Threw e, tr') → categorised e)
  ∧ (∀ model prompt image mime up tr e tr',
       OpenAIClient.analyzeImage timeout model prompt image mime up tr = (Threw e, tr') →
       categorised e)
  ∧ (∀ text model voice speed format up tr e tr',
       OpenAIClient.textToSpeech timeout text model voice speed format up tr
       = (Threw e, tr') → categorised e)
  ∧ (∀ audioPath model language prompt up tr e tr',
       OpenAIClient.transcribe timeout w audioPath model language prompt up tr
       = (Threw e, tr') → categorised e).
Proof.
  repeat split; intros until tr'; apply rethrown_categorised.
Qed.

Lemma adapter_failures_are_categorised_witness :
  categorised
    (newError "OpenAI API rate limit exceeded. Please wait a moment and try again.").
Proof.
  destruct (adapter_failures_are_categorised (Js.Num 60000) sample_world) as [Hgen _].
  exact (Hgen "gpt-4.1" "2+2?" None
           (Rejected {| message := Some "slow down"; status := Some 429; code := None;
                        repr := "Error: slow down" |})
           [] _ _ eq_refl).
Defined.

(** ** Failures seen through the tools *)

Lemma categoryMessage_nonempty (c : ErrorCategory) : categoryMessage c ≠ "".
Proof. by destruct c. Qed.

Lemma settled_lost {A B} (f : A → B) (up : Settle A) (c : ErrorCategory) :
  raceLost up c → settled f up = Threw (newError (categoryMessage c)).
Proof.
  destruct up as [a|e|]; cbn [raceLost settled]; [done | |].
  - intros H. by rewrite (handleError_of_Classified e c H).
  - by intros ->.
Qed.

Lemma lost_race_reply {A B} (req : Request) (ms : Js.number) (f : A → B)
    (up : Settle A) (k : B → Task ToolReply) (c : ErrorCategory) (tr : list Effect) :
  raceLost up c →
  catchAll (b <~ rethrowing handleError (a <~ awaitRace req ms up ;; ret (f a)) ;; k b) tr
  = (Returned (failure (categoryMessage c)), tr ++ [Upstream req (Some ms)]).
Proof.
  intros Hlost.
  erewrite catchAll_Threw;
    [| apply bind_Threw; rewrite raced_call_run; by rewrite (settled_lost f up c Hlost)].
  cbn [message newError Js.orElse].
  by rewrite decide_False by apply categoryMessage_nonempty.
Qed.

(** X9: when the provider rejects the request of a tool, or the timer
    fires first, the tool replies with [isError = true] and the template
    of the category of the failure, after that single request. *)
Theorem lost_races_reply_with_the_category (config : Config) (w : World)
    (c : ErrorCategory) :
  (∀ args up tr, accepts parseAsk args → raceLost up c →
     ∃ req ms, Server.ask config args up tr
               = (Returned (failure (categoryMessage c)), tr ++ [Upstream req (Some ms)]))
  ∧ (∀ args up tr, accepts parseCodeReview args → raceLost up c →
       ∃ req ms, Tools.code_review config args up tr
                 = (Returned (failure (categoryMessage c)),
                    tr ++ [Upstream req (Some ms)]))
  ∧ (∀ args up tr, accepts parseBrainstorm args → raceLost up c →
       ∃ req ms, Tools.brainstorm config args up tr
                 = (Returned (failure (categoryMessage c)),
                    tr ++ [Upstream req (Some ms)]))
  ∧ (∀ args up tr, accepts parseExplain args → raceLost up c →
       ∃ req ms, Tools.explain config args up tr
                 = (Returned (failure (categoryMessage c)),
                    tr ++ [Upstream req (Some ms)]))
  ∧ (∀ args up tr, accepts parseSearchWeb args → raceLost up c →
       ∃ req ms, Tools.search_web config args up tr
                 = (Returned (failure (categoryMessage c)),
                    tr ++ [Upstream req (Some ms)]))
  ∧ (∀ args up tr, accepts parseReasoning args → raceLost up c →
       ∃ req ms, Tools.search_with_reasoning config args up tr
                 = (Returned (failure (categoryMessage c)),
                    tr ++ [Upstream req (Some ms)]))
  ∧ (∀ args up tr, accepts parseRunCode args → raceLost up c →
       ∃ req ms, Tools.run_code config args up tr
                 = (Returned (failure (categoryMessage c)),
                    tr ++ [Upstream req (Some ms)]))
  ∧ (∀ args up tr, accepts parseFetchUrl args → raceLost up c →
       ∃ req ms, Tools.fetch_url config args up tr
                 = (Returned (failure (categoryMessage c)),
                    tr ++ [Upstream req (Some ms)]))
  ∧ (∀ args up tr, accepts parseGenerateImage args → raceLost up c →
       ∃ req ms, Server.generate_image config w args up tr
                 = (Returned (failure (categoryMessage c)),
                    tr ++ [Upstream req (Some ms)])).
Proof.
  repeat split; intros args up tr Hparse Hlost; do 2 eexists.
  - unfold Server.ask. rewrite catchAll_accepts by done.
    by apply (lost_race_reply _ _ extractText).
  - unfold Tools.code_review. rewrite catchAll_accepts by done.
    by apply (lost_race_reply _ _ extractText).
  - unfold Tools.brainstorm. rewrite catchAll_accepts by done.
    by apply (lost_race_reply _ _ extractText).
  - unfold Tools.explain. rewrite catchAll_accepts by done.
    by apply (lost_race_reply _ _ extractText).
  - unfold Tools.search_web. rewrite catchAll_accepts by done.
    by apply (lost_race_reply _ _ extractSearchResponse).
  - unfold Tools.search_with_reasoning. rewrite catchAll_accepts by done.
    by apply (lost_race_reply _ _ extractReasoningResponse).
  - unfold Tools.run_code. rewrite catchAll_accepts by done.
    by apply (lost_race_reply _ _ extractCodeExecutionResponse).
  - unfold Tools.fetch_url. rewrite catchAll_accepts by done.
    by apply (lost_race_reply _ _ extractUrlFetchResponse).
  - unfold Server.generate_image. rewrite catchAll_accepts by done.
    by apply (lost_race_reply _ _ (λ r, {| images := OpenAIClient.collectImages r |})).
Qed.

Lemma lost_races_reply_with_the_category_witness :
  raceLost (Rejected fetch_failed_403 : Settle Response) AuthInvalid
  ∧ ∃ req ms,
      Server.ask sample_config sample_question (Rejected fetch_failed_403) []
      = (Returned (failure
           "Invalid OpenAI API key. Please check your OPENAI_API_KEY environment variable."),
         [] ++ [Upstream req (Some ms)]).
Proof.
  assert (H : raceLost (Rejected fetch_failed_403 : Settle Response) AuthInvalid).
  { apply classified_auth; [discriminate | by right]. }
  split; [exact H |].
  exact (proj1 (lost_races_reply_with_the_category sample_config sample_world AuthInvalid)
           sample_question (Rejected fetch_failed_403) [] eq_refl H).
Defined.

(** ** The tools always reply *)

Section Settling.

Context {A B : Type}.

Lemma settles_ret (a : A) : settles (ret a).
Proof. by intros tr. Qed.

Lemma settles_throw (e : Thrown) : settles (throw (A := A) e).
Proof. by intros tr. Qed.

Lemma settles_awaitRace req ms (up : Settle A) : settles (awaitRace req ms up).
Proof. intros tr. unfold awaitRace. by destruct up. Qed.

Lemma settles_awaitBare req (call : Completion A) :
  call ≠ Hung → settles (awaitBare req call).
Proof. by intros H tr. Qed.

Lemma settles_bind (m : Task A) (k : A → Task B) :
  settles m → (∀ a, settles (k a)) → settles (bind m k).
Proof.
  intros Hm Hk tr. unfold bind. specialize (Hm tr).
  destruct (m tr) as [[a|e|] tr']; [apply Hk | done | done].
Qed.

Lemma settles_rethrowing h (body : Task A) : settles body → settles (rethrowing h body).
Proof.
  intros H tr. unfold rethrowing. specialize (H tr).
  by destruct (body tr) as [[a|e|] tr'].
Qed.

End Settling.

Lemma settles_readFileSync w path : settles (readFileSync w path).
Proof.
  unfold readFileSync. destruct (files w !! path); [apply settles_ret |].
  destruct (decide _); apply settles_throw.
Qed.

Lemma settles_saveImage w payload savePath : settles (Server.saveImage w payload savePath).
Proof.
  intros tr.
  by destruct (saveImage_run w payload savePath tr) as (made & _ & [-> | [e ->]]).
Qed.

Lemma settles_saveLoop config w save_path count i rest :
  settles (Server.saveLoop config w save_path count i rest).
Proof.
  intros tr.
  by destruct (saveLoop_run config w save_path count rest i tr)
    as (effects & _ & [[e ->] | (parts & -> & _)]).
Qed.

Lemma catchAll_replies (body : Task ToolReply) :
  settles body → alwaysReplies (catchAll body).
Proof.
  intros H tr. unfold catchAll. specialize (H tr).
  destruct (body tr) as [[reply|e|] tr']; [by eauto | by eauto | done].
Qed.

Create HintDb settling.
Local Hint Resolve settles_ret settles_throw settles_awaitRace settles_rethrowing
  settles_readFileSync settles_saveImage settles_saveLoop : settling.

Local Ltac settle :=
  repeat first
    [ progress cbv zeta
    | progress auto with settling
    | apply settles_rethrowing
    | by apply settles_awaitBare
    | apply settles_bind; [| intros ?]
    | case_match ].

Local Ltac parse_settles parse :=
  unfold parse; repeat case_match; auto with settling.

(** X10: no tool lets an exception escape: every tool but [upload_file]
    ends with a reply whatever its arguments, the state of the files and
    the behaviour of the provider; [upload_file] does so unless the upload
    to the Files API stays pending for ever. *)
Theorem tools_always_reply (config : Config) (w : World) :
  (∀ args up, alwaysReplies (Server.ask config args up))
  ∧ (∀ args up, alwaysReplies (Tools.code_review config args up))
  ∧ (∀ args up, alwaysReplies (Tools.brainstorm config args up))
  ∧ (∀ args up, alwaysReplies (Tools.explain config args up))
  ∧ (∀ args up, alwaysReplies (Tools.search_web config args up))
  ∧ (∀ args up, alwaysReplies (Tools.search_with_reasoning config args up))
  ∧ (∀ args up, alwaysReplies (Tools.run_code config args up))
  ∧ (∀ args up, alwaysReplies (Tools.fetch_url config args up))
  ∧ (∀ args up, alwaysReplies (Server.generate_image config w args up))
  ∧ (∀ args up, alwaysReplies (Server.edit_image config w args up))
  ∧ (∀ args up, alwaysReplies (Tools.analyze_image config w args up))
  ∧ (∀ args up, alwaysReplies (Tools.transcribe config w args up))
  ∧ (∀ args upFile up, upFile ≠ Hung →
       alwaysReplies (Tools.upload_file config w args upFile up)).
Proof.
  repeat split; intros; apply catchAll_replies.
  - apply settles_bind; [parse_settles parseAsk |]. intros ?.
    unfold OpenAIClient.generate. settle.
  - apply settles_bind; [parse_settles parseCodeReview |]. intros ?.
    unfold OpenAIClient.generate. settle.
  - apply settles_bind; [parse_settles parseBrainstorm |]. intros ?.
    unfold OpenAIClient.generate. settle.
  - apply settles_bind; [parse_settles parseExplain |]. intros ?.
    unfold OpenAIClient.generate. settle.
  - apply settles_bind; [parse_settles parseSearchWeb |]. intros ?.
    unfold OpenAIClient.searchWeb. settle.
  - apply settles_bind; [parse_settles parseReasoning |]. intros ?.
    unfold OpenAIClient.generateWithReasoning. settle.
  - apply settles_bind; [parse_settles parseRunCode |]. intros ?.
    unfold OpenAIClient.executeCode. settle.
  - apply settles_bind; [parse_settles parseFetchUrl |]. intros ?.
    unfold OpenAIClient.fetchUrl. settle.
  - apply settles_bind; [parse_settles parseGenerateImage |]. intros ?.
    unfold OpenAIClient.generateImage. settle.
  - apply settles_bind; [parse_settles parseEditImage |]. intros ?.
    unfold OpenAIClient.editImage, OpenAIClient.loadImageFile. settle.
  - apply settles_bind; [parse_settles parseAnalyzeImage |]. intros ?.
    unfold OpenAIClient.analyzeImage. settle.
  - apply settles_bind; [parse_settles parseTranscribe |]. intros ?.
    unfold OpenAIClient.transcribe. settle.
  - apply settles_bind; [parse_settles parseUploadFile |]. intros ?.
    unfold OpenAIClient.uploadFile, OpenAIClient.uploadViaFilesApi,
      OpenAIClient.uploadViaInlineText.
    settle.
Qed.

Lemma tools_always_reply_witness :
  alwaysReplies
    (Tools.upload_file sample_config sample_world
       {| upload_file_path := "notes.txt"; upload_query := None; upload_model := None |}
       (Threw timed_out_401) TimerFirst).
Proof.
  destruct (tools_always_reply sample_config sample_world)
    as (_ & _ & _ & _ & _ & _ & _ & _ & _ & _ & _ & _ & Hupload).
  apply Hupload. discriminate.
Defined.

(** ** One request per operation *)

Lemma requestsOf_app (a b : list Effect) :
  requestsOf (a ++ b) = requestsOf a ++ requestsOf b.
Proof. apply omap_app. Qed.

Local Ltac count_requests :=
  unfold run, rethrowing, bind, awaitRace, awaitBare, ret, throw, readFileSync;
  repeat (case_match; unfold ret, throw in *; simplify_eq); cbn; lia.

(** X11: no operation of the adapter retries: each sends at most one
    request to the provider, except the upload through the Files API
    followed by a question, which sends two. *)
Theorem adapter_never_retries (timeout : Js.number) (w : World) :
  (∀ model prompt sys up,
     length (requestsOf (run (OpenAIClient.generate timeout model prompt sys up)).2) = 1%nat)
  ∧ (∀ model query sys up,
       length (requestsOf (run (OpenAIClient.searchWeb timeout model query sys up)).2)
       = 1%nat)
  ∧ (∀ model prompt effort up,
       length (requestsOf
                 (run (OpenAIClient.generateWithReasoning timeout model prompt effort up)).2)
       = 1%nat)
  ∧ (∀ model prompt sys up,
       length (requestsOf (run (OpenAIClient.executeCode timeout model prompt sys up)).2)
       = 1%nat)
  ∧ (∀ model prompt urls sys up,
       length (requestsOf (run (OpenAIClient.fetchUrl timeout model prompt urls sys up)).2)
       = 1%nat)
  ∧ (∀ prompt size quality n up,
       length (requestsOf
                 (run (OpenAIClient.generateImage timeout prompt size quality n up)).2)
       = 1%nat)
  ∧ (∀ model prompt image mime up,
       length (requestsOf
                 (run (OpenAIClient.analyzeImage timeout model prompt image mime up)).2)
       = 1%nat)
  ∧ (∀ text model voice speed format up,
       length (requestsOf
                 (run (OpenAIClient.textToSpeech timeout text model voice speed format
                         up)).2)
       = 1%nat)
  ∧ (∀ audioPath model language prompt up,
       length (requestsOf
                 (run (OpenAIClient.transcribe timeout w audioPath model language prompt
                         up)).2)
       = 1%nat)
  ∧ (∀ prompt imagePath maskPath size quality up,
       (length (requestsOf
                  (run (OpenAIClient.editImage timeout w prompt imagePath maskPath size
                          quality up)).2)
        ≤ 1)%nat)
  ∧ (∀ model filePath query upFile up,
       (length (requestsOf
                  (run (OpenAIClient.uploadFile timeout w model filePath query upFile
                          up)).2)
        ≤ 2)%nat).
Proof.
  repeat split; intros.
  - unfold OpenAIClient.generate. count_requests.
  - unfold OpenAIClient.searchWeb. count_requests.
  - unfold OpenAIClient.generateWithReasoning. count_requests.
  - unfold OpenAIClient.executeCode. count_requests.
  - unfold OpenAIClient.fetchUrl. count_requests.
  - unfold OpenAIClient.generateImage. count_requests.
  - unfold OpenAIClient.analyzeImage. count_requests.
  - unfold OpenAIClient.textToSpeech. count_requests.
  - unfold OpenAIClient.transcribe. count_requests.
  - unfold OpenAIClient.editImage, OpenAIClient.loadImageFile. count_requests.
  - unfold OpenAIClient.uploadFile, OpenAIClient.uploadViaFilesApi,
      OpenAIClient.uploadViaInlineText. count_requests.
Qed.

(** ** The [ask] tool and its file ids *)

(** X12: the [ask] tool does not use the file ids it accepts: replacing
    them changes neither the reply nor the trace, and the one request it
    sends holds the prompt as its only input block. *)
Theorem ask_ignores_file_ids (config : Config) (args : AskArgs)
    (ids : option (list string)) (up : Settle Response) (tr : list Effect) :
  Server.ask config
    {| ask_prompt := ask_prompt args; ask_model := ask_model args; ask_file_ids := ids |}
    up tr
  = Server.ask config args up tr
  ∧ (accepts parseAsk args →
     requestsOf (Server.ask config args up tr).2
     = requestsOf tr
       ++ [responses_create (Js.orElse (ask_model args) (defaultModel config))
             [OpenAIClient.userBlock (ask_prompt args)] [] None]).
Proof.
  split.
  - destruct args as [prompt model ids0]. unfold Server.ask, parseAsk, catchAll, bind.
    cbn [ask_prompt ask_model ask_file_ids].
    by destruct (decide (prompt = "")).
  - intros Hparse. unfold Server.ask. rewrite catchAll_accepts by done.
    unfold OpenAIClient.generate, catchAll, bind, rethrowing, awaitRace, ret.
    destruct up; cbn [snd]; by rewrite requestsOf_app.
Qed.

Lemma ask_ignores_file_ids_witness :
  accepts parseAsk sample_question
  ∧ Server.ask sample_config
      {| ask_prompt := "2+2?"; ask_model := None; ask_file_ids := Some ["file-7"] |}
      (Fulfilled (answer "4")) []
    = Server.ask sample_config sample_question (Fulfilled (answer "4")) []
  ∧ requestsOf (Server.ask sample_config sample_question (Fulfilled (answer "4")) []).2
    = [responses_create "gpt-4.1" [OpenAIClient.userBlock "2+2?"] [] None].
Proof.
  split; [reflexivity |].
  destruct (ask_ignores_file_ids sample_config sample_question (Some ["file-7"])
              (Fulfilled (answer "4")) []) as [Hsame Hreq].
  split; [exact Hsame | exact (Hreq eq_refl)].
Defined.

(** ** Save paths *)

(** X13: with an explicit, non-empty save path and a number of images
    other than one, the paths computed for the images are pairwise
    distinct, so that no image of a call overwrites another. *)
Theorem explicit_save_paths_never_collide (config : Config) (w : World)
    (save_path : string) (count : nat) :
  save_path ≠ "" → count ≠ 1%nat →
  NoDup (Server.chooseSavePath config w (Some save_path) count <$> seq 0 count).
Proof.
  intros Hpath Hcount. apply NoDup_fmap_2_strong; [| apply NoDup_seq].
  intros i j _ _ Heq. destruct (decide (i = j)) as [| Hij]; [done |].
  by destruct (chooseSavePath_distinct config w save_path count i j).
Qed.

Lemma explicit_save_paths_never_collide_witness :
  NoDup (Server.chooseSavePath sample_config sample_world (Some "out/image") 3
           <$> seq 0 3).
Proof.
  apply (explicit_save_paths_never_collide sample_config sample_world "out/image" 3);
    [discriminate | lia].
Defined.

(** X14: without an explicit save path the path of an image depends on
    the clock alone: two images of one call that are saved while the clock
    shows the same instant get the same path, and the later write replaces
    the earlier file.  When [generate_image] has saved two images within
    one instant, its reply names one path twice, and the file at that path
    holds the second payload and not the first. *)
Theorem generated_save_paths_collide_within_an_instant (config : Config) (w : World) :
  (∀ save_path count i j,
     Js.truthy save_path = false → isoTime w i = isoTime w j →
     Server.chooseSavePath config w save_path count i
     = Server.chooseSavePath config w save_path count j)
  ∧ (∀ args response first second tr reply tr',
       accepts parseGenerateImage args →
       Js.truthy (gen_save_path args) = false →
       isoTime w 0 = isoTime w 1 →
       OpenAIClient.collectImages response = [first; second] →
       Server.generate_image config w args (Fulfilled response) tr = (Returned reply, tr') →
       isError reply = false →
       let path := Server.chooseSavePath config w (gen_save_path args) 2 0 in
       persisted w tr' path (b64 second)
       ∧ (b64 first ≠ b64 second → ¬ persisted w tr' path (b64 first))
       ∧ ∃ revised1 revised2,
           reply_content reply
           = [image_part (b64 first) "image/png";
              text_part ("Image 1 saved to: " +:+ path +:+ revised1);
              image_part (b64 second) "image/png";
              text_part ("Image 2 saved to: " +:+ path +:+ revised2)]).
Proof.
  assert (Hsame : ∀ save_path count i j,
            Js.truthy save_path = false → isoTime w i = isoTime w j →
            Server.chooseSavePath config w save_path count i
            = Server.chooseSavePath config w save_path count j).
  { intros save_path count i j Hnone Hclock.
    unfold Server.chooseSavePath, Server.getAutoSavePath.
    rewrite Hnone. cbn [andb]. by rewrite Hclock. }
  split; [exact Hsame |].
  intros args response first second tr reply tr' Hparse Hnone Hclock Himages Hrun Hok path.
  destruct (generate_image_saved config w args (Fulfilled response)
              {| images := OpenAIClient.collectImages response |} tr _
              Hparse (generateImage_run _ _ _ _ _ _ _))
    as (effects & _ & [[text Hfail] | (parts & Hrun' & Hlen & Hwrites & Hpoint)]).
  { cbn [images]. by rewrite Himages. }
  { rewrite Hrun in Hfail. by simplify_eq. }
  rewrite Hrun in Hrun'. cbn [images] in *. rewrite Himages in *.
  injection Hrun' as -> ->. cbn [length] in *.
  assert (Hpath : Server.chooseSavePath config w (gen_save_path args) 2 1 = path)
    by (symmetry; by apply Hsame).
  assert (Hsecond : persisted w
            ((tr ++ [Upstream
                       (images_generate "gpt-image-1.5" (gen_prompt args)
                          (Js.orElse (gen_size args) "auto")
                          (Js.orElse (gen_quality args) "auto")
                          (OpenAIClient.countOrOne (gen_n args)) "png")
                       (Some (Js.mul (timeout config) (Js.Num 3)))]) ++ effects)
            path (b64 second)).
  { rewrite <- Hpath.
    apply (persisted_unless_overwritten w [first; second]
             (Server.chooseSavePath config w (gen_save_path args) 2) _ effects 1 second
             Hwrites eq_refl).
    intros k Hk. cbn in Hk. lia. }
  split; [exact Hsecond |]. split.
  { intros Hdiffer Hfirst. unfold persisted in *. rewrite Hfirst in Hsecond.
    by simplify_eq. }
  destruct (Hpoint 0%nat first eq_refl) as (H0 & H1 & _).
  destruct (Hpoint 1%nat second eq_refl) as (H2 & H3 & _).
  cbv zeta in H1, H3. rewrite Hpath in H3. fold path in H1.
  destruct (savedText_names_path ("Image " +:+ pretty (0 + 1)%nat) path first)
    as [revised1 Hrev1].
  destruct (savedText_names_path ("Image " +:+ pretty (1 + 1)%nat) path second)
    as [revised2 Hrev2].
  rewrite Hrev1 in H1. rewrite Hrev2 in H3.
  exists revised1, revised2. cbn [reply_content success].
  destruct parts as [|p0 [|p1 [|p2 [|p3 [|p4 parts]]]]]; try (cbn in Hlen; lia).
  cbn in H0, H1, H2, H3. simplify_eq. by rewrite !append_assoc.
Qed.

Lemma generated_save_paths_collide_within_an_instant_witness :
  Server.chooseSavePath sample_config sample_world None 2 0
  = Server.chooseSavePath sample_config sample_world None 2 1
  ∧ run (Server.generate_image sample_config sample_world two_images_unnamed
           (Fulfilled two_images))
    = (Returned (success
         [image_part "aGVsbG8=" "image/png";
          text_part "Image 1 saved to: /srv/generated-media/generated-2026-01-02T03-04-05-678Z.png";
          image_part "d29ybGQ=" "image/png";
          text_part "Image 2 saved to: /srv/generated-media/generated-2026-01-02T03-04-05-678Z.png"]),
       [Upstream (images_generate "gpt-image-1.5" "a lighthouse at dusk" "auto" "auto"
                    2 "png") (Some (Js.Num 180000));
        MakeDir "/srv/generated-media";
        WriteFile "/srv/generated-media/generated-2026-01-02T03-04-05-678Z.png"
          (fromBase64 "aGVsbG8=");
        WriteFile "/srv/generated-media/generated-2026-01-02T03-04-05-678Z.png"
          (fromBase64 "d29ybGQ=")])
  ∧ persisted sample_world
      (snd (run (Server.generate_image sample_config sample_world two_images_unnamed
                   (Fulfilled two_images))))
      "/srv/generated-media/generated-2026-01-02T03-04-05-678Z.png" "d29ybGQ="
  ∧ ¬ persisted sample_world
        (snd (run (Server.generate_image sample_config sample_world two_images_unnamed
                     (Fulfilled two_images))))
        "/srv/generated-media/generated-2026-01-02T03-04-05-678Z.png" "aGVsbG8=".
Proof.
  assert (Hrun : run (Server.generate_image sample_config sample_world two_images_unnamed
                        (Fulfilled two_images))
     = (Returned (success
          [image_part "aGVsbG8=" "image/png";
           text_part "Image 1 saved to: /srv/generated-media/generated-2026-01-02T03-04-05-678Z.png";
           image_part "d29ybGQ=" "image/png";
           text_part "Image 2 saved to: /srv/generated-media/generated-2026-01-02T03-04-05-678Z.png"]),
        [Upstream (images_generate "gpt-image-1.5" "a lighthouse at dusk" "auto" "auto"
                     2 "png") (Some (Js.Num 180000));
         MakeDir "/srv/generated-media";
         WriteFile "/srv/generated-media/generated-2026-01-02T03-04-05-678Z.png"
           (fromBase64 "aGVsbG8=");
         WriteFile "/srv/generated-media/generated-2026-01-02T03-04-05-678Z.png"
           (fromBase64 "d29ybGQ=")]))
    by (vm_compute; reflexivity).
  destruct (generated_save_paths_collide_within_an_instant sample_config sample_world)
    as [Hsame Hdisk].
  split; [exact (Hsame None 2%nat 0%nat 1%nat eq_refl eq_refl) |].
  split; [exact Hrun |].
  destruct (Hdisk two_images_unnamed two_images
              {| b64 := "aGVsbG8="; revisedPrompt := None |}
              {| b64 := "d29ybGQ="; revisedPrompt := None |}
              [] _ _ eq_refl eq_refl eq_refl eq_refl Hrun eq_refl)
    as (Hsecond & Hfirst & _).
  rewrite Hrun. split; [exact Hsecond |]. apply Hfirst. discriminate.
Defined.

(** ** Configuration defaults *)

(** X15: an environment variable that is set to the empty string counts
    as unset: the credential is then missing, and the default model, the
    output directory and the time-out take their defaults. *)
Theorem loadConfig_empty_is_unset (env : ProcessEnv) :
  loadConfig env = loadConfig (withoutEmpty env)
  ∧ (Js.truthy (OPENAI_API_KEY env) = true → Js.truthy (OPENAI_TIMEOUT env) = false →
     loadConfig env
     = inr {| apiKey := Js.interpolate (OPENAI_API_KEY env);
              defaultModel := Js.orElse (OPENAI_DEFAULT_MODEL env) "gpt-4.1";
              timeout := Js.Num 60000;
              outputDir := Js.orElse (OPENAI_OUTPUT_DIR env) "./generated-media" |}).
Proof.
  split.
  - destruct env as [key model dir tmo]. unfold loadConfig, withoutEmpty.
    cbn [OPENAI_API_KEY OPENAI_DEFAULT_MODEL OPENAI_OUTPUT_DIR OPENAI_TIMEOUT].
    destruct key as [key|], model as [model|], dir as [dir|], tmo as [tmo|];
      cbn [Js.truthy Js.orElse Js.interpolate from_option id];
      repeat (case_match; simplify_eq; cbn [Js.truthy Js.orElse Js.interpolate negb
                                          from_option id]);
      try done.
  - intros Hkey Htmo. unfold loadConfig. by rewrite Hkey, Htmo.
Qed.

Lemma loadConfig_empty_is_unset_witness :
  loadConfig {| OPENAI_API_KEY := Some "sk-test"; OPENAI_DEFAULT_MODEL := Some "";
                OPENAI_OUTPUT_DIR := None; OPENAI_TIMEOUT := Some "" |}
  = inr {| apiKey := "sk-test"; defaultModel := "gpt-4.1"; timeout := Js.Num 60000;
           outputDir := "./generated-media" |}.
Proof.
  exact (proj2 (loadConfig_empty_is_unset
                  {| OPENAI_API_KEY := Some "sk-test"; OPENAI_DEFAULT_MODEL := Some "";
                     OPENAI_OUTPUT_DIR := None; OPENAI_TIMEOUT := Some "" |})
           eq_refl eq_refl).
Defined.

(** ** MIME types *)

Lemma mimeTypes_other (ext : string) :
  ext ≠ ".png" → ext ≠ ".jpg" → ext ≠ ".jpeg" → ext ≠ ".gif" → ext ≠ ".webp" →
  ext ≠ ".bmp" → Tools.mimeTypes !! ext = None.
Proof.
  intros. unfold Tools.mimeTypes.
  rewrite !lookup_insert_ne by done. by apply lookup_singleton_ne.
Qed.

(** X16: the handler and the adapter keep a table of image MIME types
    each; the two tables give the same type for every path, so an image
    is announced to the provider in the same way when it is analysed and
    when it is edited, and every path gets one of five image types. *)
Theorem mime_tables_agree (filePath : string) :
  Tools.getMimeType filePath = OpenAIClient.getImageMimeType filePath
  ∧ Tools.getMimeType filePath
    ∈ ["image/png"; "image/jpeg"; "image/webp"; "image/gif"; "image/bmp"].
Proof.
  assert (H : Tools.getMimeType filePath = OpenAIClient.getImageMimeType filePath).
  { unfold Tools.getMimeType, OpenAIClient.getImageMimeType.
    generalize (Js.toLowerCase (Path.extname filePath)). intros ext.
    repeat (destruct (decide _) as [-> | ?]; [reflexivity |]).
    by rewrite mimeTypes_other. }
  split; [exact H |]. rewrite H. unfold OpenAIClient.getImageMimeType.
  repeat (destruct (decide _); [set_solver |]). set_solver.
Qed.

(** ** Failures of [uploadFile] *)

Lemma timeoutError_not_categorised : ¬ categorised timeoutError.
Proof.
  intros [c Hc]. apply newError_inj in Hc. destruct c; cbv in Hc; congruence.
Qed.

(** X17: [uploadFile] does not classify failures.  The exception that
    leaves it is the one raised inside, unchanged: the failure of the
    Files API call, the rejection of the raced request, the error of the
    timer or the error of reading the file.  So a file that does not
    exist gives the error of the file system and no request, a timer that
    fires first gives the error [Request timeout], which is the template
    of no category, and the [upload_file] tool then replies with that
    text. *)
Theorem upload_failures_are_not_classified
    (config : Config) (w : World) (model filePath : string)
    (query : option string) (upFile : Completion FileObject) (up : Settle Response) :
  let absolutePath := Path.resolve (cwd w) [filePath] in
  let ext := Js.toLowerCase (Path.extname absolutePath) in
  (∀ tr e tr',
     OpenAIClient.uploadFile (timeout config) w model filePath query upFile up tr
     = (Threw e, tr') →
     upFile = Threw e ∨ up = Rejected e ∨ (up = TimerFirst ∧ e = timeoutError)
     ∨ readFileSync w absolutePath tr = (Threw e, tr'))
  ∧ (ext ∉ OpenAIClient.UPLOAD_SUPPORTED_EXTENSIONS →
     files w !! absolutePath = None → absolutePath ∉ dirs w →
     ∃ e, run (OpenAIClient.uploadFile (timeout config) w model filePath query upFile up)
          = (Threw e, [])
          ∧ message e = Some (enoentMessage absolutePath)
          ∧ code e = Some "ENOENT"
          ∧ ¬ categorised e)
  ∧ (ext ∉ OpenAIClient.UPLOAD_SUPPORTED_EXTENSIONS →
     is_Some (files w !! absolutePath) → up = TimerFirst →
     (∀ tr, fst (OpenAIClient.uploadFile (timeout config) w model filePath query upFile up tr)
            = Threw timeoutError)
     ∧ ¬ categorised timeoutError
     ∧ ∀ args tr,
         accepts parseUploadFile args →
         Path.resolve (cwd w) [upload_file_path args] = filePath →
         upload_query args = query →
         Js.orElse (upload_model args) (defaultModel config) = model →
         existsSync w filePath = true →
         ∃ req,
           Tools.upload_file config w args upFile up tr
           = (Returned (failure "Request timeout"),
              tr ++ [Upstream req (Some (Js.mul (timeout config) (Js.Num 3)))])).
Proof.
  intros absolutePath ext. split; [| split].
  - intros tr e tr'. unfold OpenAIClient.uploadFile. fold absolutePath.
    destruct (decide _) as [Hext | Hext].
    + unfold OpenAIClient.uploadViaFilesApi, bind, awaitBare.
      destruct upFile as [file| e0 |]; [| intros ?; simplify_eq; by left | done].
      destruct (Js.truthy query); cbn [negb]; [| done].
      unfold awaitRace, ret. destruct up; intros ?; simplify_eq; auto.
    + unfold OpenAIClient.uploadViaInlineText, bind.
      destruct (readFileSync w absolutePath tr) as [[fileContent | e0 |] tr0] eqn:Hread;
        [| intros ?; simplify_eq; auto | done].
      unfold awaitRace, ret. destruct up; intros ?; simplify_eq; auto.
  - intros Hext Hfile Hdir. eexists. split; [| split; [| split]].
    + rewrite uploadFile_unsupported by exact Hext. fold absolutePath.
      unfold run, OpenAIClient.uploadViaInlineText, bind, readFileSync.
      rewrite Hfile, decide_False by done. reflexivity.
    + reflexivity.
    + reflexivity.
    + intros [c Hc]. by apply (f_equal code) in Hc.
  - intros Hext [fileContent Hfile] ->.
    assert (Hthrow : ∀ tr,
              OpenAIClient.uploadFile (timeout config) w model filePath query upFile
                TimerFirst tr
              = (Threw timeoutError,
                 tr ++ [Upstream
                          (responses_create model
                             [OpenAIClient.userBlock
                                (OpenAIClient.inlinePrompt (Path.basename absolutePath)
                                   (OpenAIClient.inlineFenceTag absolutePath) fileContent
                                   (Js.orElse query
                                      "Analyze this file and provide a detailed summary."))]
                             [] None)
                          (Some (Js.mul (timeout config) (Js.Num 3)))])).
    { intros tr. rewrite uploadFile_unsupported by exact Hext. fold absolutePath.
      unfold OpenAIClient.uploadViaInlineText, bind, readFileSync.
      by rewrite Hfile. }
    split; [intros tr; by rewrite Hthrow |].
    split; [exact timeoutError_not_categorised |].
    intros args tr Hparse Hpath Hquery Hmodel Hexists. eexists.
    unfold Tools.upload_file. rewrite catchAll_accepts by done.
    rewrite Hpath, Hquery, Hmodel, Hexists. cbn [negb].
    unfold catchAll. by rewrite (bind_Threw _ _ _ _ _ (Hthrow tr)).
Qed.

Lemma upload_failures_are_not_classified_witness :
  (∃ e, run (OpenAIClient.uploadFile (Js.Num 60000) sample_world "gpt-4.1" "missing.ts"
               None Hung (Fulfilled (answer "never asked")))
        = (Threw e, [])
        ∧ message e = Some "ENOENT: no such file or directory, open '/srv/missing.ts'")
  ∧ ∃ req,
      Tools.upload_file sample_config sample_world
        {| upload_file_path := "main.ts"; upload_query := None; upload_model := None |}
        Hung TimerFirst []
      = (Returned (failure "Request timeout"),
         [] ++ [Upstream req (Some (Js.Num 180000))]).
Proof.
  split.
  - destruct (proj1 (proj2 (upload_failures_are_not_classified sample_config sample_world
                              "gpt-4.1" "missing.ts" None Hung
                              (Fulfilled (answer "never asked")))))
      as (e & Hrun & Hmessage & _).
    + apply (bool_decide_unpack _). vm_compute. exact I.
    + vm_compute. reflexivity.
    + apply (bool_decide_unpack _). vm_compute. exact I.
    + exists e. split; [exact Hrun | exact Hmessage].
  - destruct (proj2 (proj2 (upload_failures_are_not_classified sample_config sample_world
                              "gpt-4.1" "/srv/main.ts" None Hung TimerFirst)))
      as (_ & _ & Htool).
    + apply (bool_decide_unpack _). vm_compute. exact I.
    + exists "let x = 1". vm_compute. reflexivity.
    + reflexivity.
    + exact (Htool {| upload_file_path := "main.ts"; upload_query := None;
                      upload_model := None |} []
               eq_refl eq_refl eq_refl eq_refl eq_refl).
Defined.

(** ** The reply of [upload_file] *)

(** X18: for a file whose extension is outside the allow-list the reply
    of [upload_file] is the answer of the model to the query (or to the
    default request for a summary) followed by a footer with the file
    name and the id [inline]; for an extension of the allow-list and no
    query it is the confirmation of the upload with the id the provider
    gave, and no request is sent to a model. *)
Theorem upload_file_reply (config : Config) (w : World) (args : UploadFileArgs)
    (upFile : Completion FileObject) (up : Settle Response) (tr : list Effect) :
  let filePath := Path.resolve (cwd w) [upload_file_path args] in
  let absolutePath := Path.resolve (cwd w) [filePath] in
  let name := Path.basename absolutePath in
  let ext := Js.toLowerCase (Path.extname absolutePath) in
  accepts parseUploadFile args → existsSync w filePath = true →
  (ext ∉ OpenAIClient.UPLOAD_SUPPORTED_EXTENSIONS →
   ∀ fileContent response,
     files w !! absolutePath = Some fileContent → up = Fulfilled response →
     ∃ req,
       Tools.upload_file config w args upFile up tr
       = (Returned (success [text_part (extractText response
                                        +:+ fileFooter name "inline")]),
          tr ++ [Upstream req (Some (Js.mul (timeout config) (Js.Num 3)))]))
  ∧ (ext ∈ OpenAIClient.UPLOAD_SUPPORTED_EXTENSIONS →
     ∀ file, upFile = Returned file → Js.truthy (upload_query args) = false →
       Tools.upload_file config w args upFile up tr
       = (Returned (success [text_part
            ("File '" +:+ name +:+ "' uploaded successfully." +:+ Js.LF
             +:+ "File ID: " +:+ file_id file +:+ Js.LF +:+ Js.LF
             +:+ "Use this file_id with the 'ask' tool's file_ids parameter to ask questions about it."
             +:+ fileFooter name (file_id file))]),
          tr ++ [Upstream (files_create absolutePath "assistants") None])).
Proof.
  intros filePath absolutePath name ext Hparse Hexists. split.
  - intros Hext fileContent response Hfile ->. eexists.
    unfold Tools.upload_file. rewrite catchAll_accepts by done. fold filePath.
    rewrite Hexists. cbn [negb]. apply catchAll_Returned.
    rewrite uploadFile_unsupported by exact Hext. fold absolutePath name.
    unfold OpenAIClient.uploadViaInlineText, bind, readFileSync.
    rewrite Hfile. unfold ret, awaitRace. cbn [fileName fileId upload_text].
    unfold fileFooter. by rewrite ?append_assoc.
  - intros Hext file -> Hquery.
    unfold Tools.upload_file. rewrite catchAll_accepts by done. fold filePath.
    rewrite Hexists. cbn [negb]. apply catchAll_Returned.
    rewrite uploadFile_supported by exact Hext. fold absolutePath name.
    unfold OpenAIClient.uploadViaFilesApi, bind, awaitBare.
    rewrite Hquery. cbn [negb]. unfold ret. cbn [fileName fileId upload_text].
    unfold fileFooter. by rewrite ?append_assoc.
Qed.

Lemma upload_file_reply_witness :
  ∃ req,
    Tools.upload_file sample_config sample_world
      {| upload_file_path := "main.ts"; upload_query := Some "What is x?";
         upload_model := None |}
      Hung (Fulfilled (answer "x is 1.")) []
    = (Returned (success [text_part ("x is 1." +:+ fileFooter "main.ts" "inline")]),
       [] ++ [Upstream req (Some (Js.Num 180000))]).
Proof.
  destruct (upload_file_reply sample_config sample_world
              {| upload_file_path := "main.ts"; upload_query := Some "What is x?";
                 upload_model := None |}
              Hung (Fulfilled (answer "x is 1.")) [] eq_refl eq_refl) as [Hinline _].
  apply (Hinline ltac:(apply (bool_decide_unpack _); vm_compute; exact I)
           "let x = 1" (answer "x is 1.")); [vm_compute; reflexivity | reflexivity].
Defined.

(** ** Models and deadlines of the tools *)

Lemma racedAgainst_app ms (a b : list Effect) :
  racedAgainst ms a → (∀ req deadline, Upstream req deadline ∉ b) →
  racedAgainst ms (a ++ b).
Proof.
  intros Ha Hb req deadline [H | H]%elem_of_app; [by apply (Ha req) | by apply Hb in H].
Qed.

Local Ltac tool_deadline parse :=
  unfold parse, run, catchAll, bind, rethrowing, awaitRace, ret, throw, readFileSync;
  repeat (case_match; unfold ret, throw in *; simplify_eq);
  cbn [snd app]; auto with deadlines.

(** X19: the deadline of every request that a tool sends is the base
    time-out times the multiplier of the tool: 1 for [ask], [code_review],
    [brainstorm] and [explain], 2 for [analyze_image], 3 for [search_web],
    [run_code], [fetch_url], [transcribe], [generate_image] and
    [edit_image], 5 for [search_with_reasoning]. *)
Theorem tool_deadlines (config : Config) (w : World) :
  let base := timeout config in
  (∀ args up, racedAgainst base (run (Server.ask config args up)).2)
  ∧ (∀ args up, racedAgainst base (run (Tools.code_review config args up)).2)
  ∧ (∀ args up, racedAgainst base (run (Tools.brainstorm config args up)).2)
  ∧ (∀ args up, racedAgainst base (run (Tools.explain config args up)).2)
  ∧ (∀ args up, racedAgainst (Js.mul base (Js.Num 2))
                  (run (Tools.analyze_image config w args up)).2)
  ∧ (∀ args up, racedAgainst (Js.mul base (Js.Num 3))
                  (run (Tools.search_web config args up)).2)
  ∧ (∀ args up, racedAgainst (Js.mul base (Js.Num 3))
                  (run (Tools.run_code config args up)).2)
  ∧ (∀ args up, racedAgainst (Js.mul base (Js.Num 3))
                  (run (Tools.fetch_url config args up)).2)
  ∧ (∀ args up, racedAgainst (Js.mul base (Js.Num 3))
                  (run (Tools.transcribe config w args up)).2)
  ∧ (∀ args up, racedAgainst (Js.mul base (Js.Num 3))
                  (run (Server.generate_image config w args up)).2)
  ∧ (∀ args up, racedAgainst (Js.mul base (Js.Num 3))
                  (run (Server.edit_image config w args up)).2)
  ∧ (∀ args up, racedAgainst (Js.mul base (Js.Num 5))
                  (run (Tools.search_with_reasoning config args up)).2).
Proof.
  intros base. subst base. repeat split; intros.
  - unfold Server.ask, OpenAIClient.generate. tool_deadline parseAsk.
  - unfold Tools.code_review, OpenAIClient.generate. tool_deadline parseCodeReview.
  - unfold Tools.brainstorm, OpenAIClient.generate. tool_deadline parseBrainstorm.
  - unfold Tools.explain, OpenAIClient.generate. tool_deadline parseExplain.
  - unfold Tools.analyze_image, OpenAIClient.analyzeImage. tool_deadline parseAnalyzeImage.
  - unfold Tools.search_web, OpenAIClient.searchWeb. tool_deadline parseSearchWeb.
  - unfold Tools.run_code, OpenAIClient.executeCode. tool_deadline parseRunCode.
  - unfold Tools.fetch_url, OpenAIClient.fetchUrl. tool_deadline parseFetchUrl.
  - unfold Tools.transcribe, OpenAIClient.transcribe. tool_deadline parseTranscribe.
  - destruct (parseGenerateImage_decides args) as [Hparse | [e He]].
    + unfold Server.generate_image, run. rewrite catchAll_accepts by done.
      unfold catchAll, bind at 1. rewrite generateImage_run.
      destruct up as [response| |]; cbn [app snd]; auto with deadlines.
      destruct (decide _); [unfold ret; cbn; auto with deadlines |].
      destruct (saveLoop_run config w (gen_save_path args)
                  (length (OpenAIClient.collectImages response))
                  (OpenAIClient.collectImages response) 0
                  [Upstream (images_generate "gpt-image-1.5" (gen_prompt args)
                               (Js.orElse (gen_size args) "auto")
                               (Js.orElse (gen_quality args) "auto")
                               (OpenAIClient.countOrOne (gen_n args)) "png")
                     (Some (Js.mul (timeout config) (Js.Num 3)))])
        as (effects & Hup & [[e Hloop] | (parts & Hloop & _)]); cbn [images].
      * rewrite (bind_Threw _ _ _ _ _ Hloop). cbn [snd].
        apply racedAgainst_app; auto with deadlines.
      * rewrite (bind_Returned _ _ _ _ _ Hloop). cbn [snd ret].
        apply racedAgainst_app; auto with deadlines.
    + unfold Server.generate_image, run. rewrite (catchAll_rejects _ _ _ e) by done.
      cbn. auto with deadlines.
  - destruct (parseEditImage_decides args) as [Hparse | [e He]];
      [| unfold Server.edit_image, run; rewrite (catchAll_rejects _ _ _ e) by done;
         cbn; auto with deadlines].
    unfold Server.edit_image, run. rewrite catchAll_accepts by done.
    destruct (existsSync w _); cbn [negb]; [| cbn; auto with deadlines].
    destruct (Js.truthy (edit_mask_path args) && _); [cbn; auto with deadlines |].
    pose proof (proj1 (proj2 (proj2 (proj2 (proj2 (proj2 (proj2 (proj2 (proj2 (proj2
                  (deadline_multipliers (timeout config) w))))))))))
                  (edit_prompt args) (Path.resolve (cwd w) [edit_image_path args])
                  (edit_mask_path args) (edit_size args) (edit_quality args) up) as Hedit.
    unfold run in Hedit. unfold catchAll, bind at 1.
    destruct (OpenAIClient.editImage _ _ _ _ _ _ _ _ _) as [[result|e|] tr1];
      cbn [snd] in *; [| done | done].
    destruct (images result) as [|image others]; [done |].
    destruct (saveImage_run w (b64 image)
                (if Js.truthy (edit_save_path args)
                 then Js.interpolate (edit_save_path args)
                 else Server.getAutoSavePath w 0 (outputDir config) "edited" "png") tr1)
      as (made & Hmade & [Hsave | [e Hsave]]).
    + rewrite (bind_Returned _ _ _ _ _ Hsave). cbn [snd ret].
      apply racedAgainst_app; [done |].
      intros req deadline [H | H]%elem_of_app.
      * destruct Hmade as [-> | ->]; [by apply elem_of_nil in H |].
        by apply list_elem_of_singleton in H.
      * by apply list_elem_of_singleton in H.
    + rewrite (bind_Threw _ _ _ _ _ Hsave). cbn [snd].
      apply racedAgainst_app; [done |].
      intros req deadline H.
      destruct Hmade as [-> | ->]; [by apply elem_of_nil in H |].
      by apply list_elem_of_singleton in H.
  - unfold Tools.search_with_reasoning, OpenAIClient.generateWithReasoning.
    tool_deadline parseReasoning.
Qed.

Lemma extractText_concatenates_in_order_witness :
  extractText {| output := Some (output_items (answer "Hello, ")
                                 ++ output_items silent_response
                                 ++ output_items (answer "world.")) |}
  = "Hello, " +:+ "world.".
Proof.
  destruct (extractText_concatenates_in_order (output_items (answer "Hello, "))
              (output_items silent_response ++ output_items (answer "world.")))
    as [Happ _].
  rewrite Happ.
  destruct (extractText_concatenates_in_order (output_items silent_response)
              (output_items (answer "world."))) as [Happ' _].
  rewrite Happ'. reflexivity.
Defined.

(** ** Start-up *)

(** X20: start-up fails exactly when the credential is missing or empty,
    or the time-out is set and parses to a number that is not positive;
    the server then logs the reason and exits with status 1 without
    registering a tool. *)
Theorem startup_fails_exactly_when (env : ProcessEnv) :
  ((∃ e, loadConfig env = inl e) ↔
   Js.truthy (OPENAI_API_KEY env) = false
   ∨ (Js.truthy (OPENAI_TIMEOUT env) = true
      ∧ ∃ z, Js.parseInt (Js.interpolate (OPENAI_TIMEOUT env)) = Js.Num z ∧ z ≤ 0))
  ∧ (∀ e, loadConfig env = inl e →
       ∃ reason,
         Server.main env
         = Server.Exited 1 ("Failed to start OpenAI MCP Server: " +:+ reason)
         ∧ reason
           ∈ ["OpenAI API key not configured. Please set the OPENAI_API_KEY environment variable.";
              "OPENAI_TIMEOUT must be a positive number"]).
Proof.
  unfold Server.main, loadConfig.
  destruct (Js.truthy (OPENAI_API_KEY env)); cbn [negb].
  - destruct (Js.truthy (OPENAI_TIMEOUT env)).
    + destruct (Js.parseInt _) as [|z] eqn:Hparse; cbn [Js.le].
      * split; [| by intros e [=]]. split; [by intros [e [=]] |].
        intros [[=] | [_ (z & [=] & _)]].
      * destruct (z <=? 0) eqn:Hz.
        -- apply Z.leb_le in Hz. split.
           ++ split; [intros _; right; split; [done |]; by exists z | by eexists].
           ++ intros e [= <-]. eexists. split; [done |]. set_solver.
        -- apply Z.leb_gt in Hz. split; [| by intros e [=]].
           split; [by intros [e [=]] |].
           intros [[=] | [_ (z' & [= <-] & Hle)]]. lia.
    + cbn [Js.le]. replace (60000 <=? 0) with false by done.
      split; [| by intros e [=]]. split; [by intros [e [=]] |].
      intros [[=] | [[=] _]].
  - split.
    + split; [intros _; by left | by eexists].
    + intros e [= <-]. eexists. split; [done |]. set_solver.
Qed.

Lemma startup_fails_exactly_when_witness :
  ∃ reason,
    Server.main {| OPENAI_API_KEY := Some "sk-test"; OPENAI_DEFAULT_MODEL := None;
                   OPENAI_OUTPUT_DIR := None; OPENAI_TIMEOUT := Some "-5" |}
    = Server.Exited 1 ("Failed to start OpenAI MCP Server: " +:+ reason)
    ∧ reason
      ∈ ["OpenAI API key not configured. Please set the OPENAI_API_KEY environment variable.";
         "OPENAI_TIMEOUT must be a positive number"].
Proof.
  exact (proj2 (startup_fails_exactly_when
                  {| OPENAI_API_KEY := Some "sk-test"; OPENAI_DEFAULT_MODEL := None;
                     OPENAI_OUTPUT_DIR := None; OPENAI_TIMEOUT := Some "-5" |})
           _ eq_refl).
Defined.
